(** * Morpheus-CLI: the command router, the session history and the
      AI terminal, embedded from [src/utils.ts] and [src/terminal.ts],
      with the [exec] action of [src/cli.ts] and the component of
      [src/ui.tsx].

    Conventions of the embedding.
    - A JavaScript string is a [string]: one [ascii] per UTF-16 code unit,
      so the strings covered are those whose code units are below U+0100.
      On that range [trim] and [toLowerCase] are modelled exactly.  Glyphs
      above U+00FF occur only inside fixed messages, where they are written
      as their UTF-8 bytes; no function of the program inspects them.
    - A JavaScript number used as an index or an exit code is a [Z]
      (a child killed by a signal, whose exit code is [null], is outside
      the declared type [number] and is not modelled).
    - [null] / [undefined] are [None]; a thrown value is a [thrown], and a
      computation that may throw returns a [completion].
    - Everything outside the program (the clock, chalk, the console
      prompt, the file system, the child process, the Gemini client) is a
      field of a [World]; console lines, questions, file-system calls,
      spawned processes and calls to the Gemini client are recorded, in
      order, in the trace of the state. *)

From Stdlib Require Import String Ascii List ZArith NArith Bool Lia QArith.
From Stdlib Require Import DecimalString.
Import ListNotations.

Open Scope string_scope.
Open Scope Z_scope.

(** ** JavaScript values that can be thrown, and completions *)

Inductive thrown : Type :=
| ErrorObj (message : string)          (* [error instanceof Error] *)
| NonError.                            (* any other thrown value *)

Inductive completion (A : Type) : Type :=
| Normal (a : A)
| Throw (t : thrown).
Arguments Normal {A} a.
Arguments Throw {A} t.

(** ** String primitives of the JavaScript runtime *)

Module JS.

Definition code (c : ascii) : N := N_of_ascii c.

Definition TAB : ascii := ascii_of_N 9.
Definition LF : ascii := ascii_of_N 10.
Definition CR : ascii := ascii_of_N 13.
Definition SP : ascii := ascii_of_N 32.
Definition DQ : ascii := ascii_of_N 34.

(** WhiteSpace and LineTerminator code units below U+0100: TAB, LF, VT,
    FF, CR, SP and NBSP. *)
Definition isWhiteSpace (c : ascii) : bool :=
  let n := code c in
  ((9 <=? n) && (n <=? 13) || (n =? 32) || (n =? 160))%N.

(** The character class [[\r\n]]. *)
Definition isLineBreak (c : ascii) : bool :=
  let n := code c in ((n =? 13) || (n =? 10))%N.

Fixpoint trimStart (s : string) : string :=
  match s with
  | EmptyString => EmptyString
  | String c r => if isWhiteSpace c then trimStart r else s
  end.

Fixpoint trimEnd (s : string) : string :=
  match s with
  | EmptyString => EmptyString
  | String c r =>
      match trimEnd r with
      | EmptyString => if isWhiteSpace c then EmptyString else String c EmptyString
      | r' => String c r'
      end
  end.

(** [String.prototype.trim]. *)
Definition trim (s : string) : string := trimEnd (trimStart s).

(** Lower-case mapping of one code unit below U+0100: A-Z, and the
    Latin-1 capitals U+00C0-U+00DE without the multiplication sign. *)
Definition toLowerUnit (c : ascii) : ascii :=
  let n := code c in
  if ((65 <=? n) && (n <=? 90) ||
      (192 <=? n) && (n <=? 222) && negb (n =? 215))%N
  then ascii_of_N (n + 32) else c.

(** [String.prototype.toLowerCase]. *)
Fixpoint toLowerCase (s : string) : string :=
  match s with
  | EmptyString => EmptyString
  | String c r => String (toLowerUnit c) (toLowerCase r)
  end.

(** [s.replace(/[\r\n]+/g, " ")]: every maximal run of line breaks
    becomes one space.  [inRun] tells that the previous code unit was
    part of the run being replaced. *)
Fixpoint replaceLineBreaks (inRun : bool) (s : string) : string :=
  match s with
  | EmptyString => EmptyString
  | String c r =>
      if isLineBreak c
      then (if inRun then replaceLineBreaks true r
            else String SP (replaceLineBreaks true r))
      else String c (replaceLineBreaks false r)
  end.

(** [s.indexOf(pat)], counting from position [i]; [-1] when absent. *)
Fixpoint indexOfFrom (i : Z) (pat s : string) : Z :=
  if prefix pat s then i
  else match s with
       | EmptyString => -1
       | String _ r => indexOfFrom (i + 1) pat r
       end.

Definition indexOf (s pat : string) : Z := indexOfFrom 0 pat s.

Definition clamp (len i : Z) : Z := Z.max 0 (Z.min i len).

(** [s.substring(start, end)]: both bounds are clamped to [0, length]
    and swapped when out of order; an omitted [end] is the length. *)
Definition substring (s : string) (start : Z) (end_ : option Z) : string :=
  let len := Z.of_nat (String.length s) in
  let a := clamp len start in
  let b := match end_ with Some e => clamp len e | None => len end in
  String.substring (Z.to_nat (Z.min a b))
                   (Z.to_nat (Z.max a b - Z.min a b)) s.

(** Truthiness of a string: [!s] holds exactly for the empty string. *)
Definition truthy (s : string) : bool :=
  match s with EmptyString => false | String _ _ => true end.

(** [a || b] on strings. *)
Definition orElse (a b : string) : string := if truthy a then a else b.

(** Template interpolation of an integer. *)
Definition numberToString (n : Z) : string :=
  NilZero.string_of_int (Z.to_int n).

(** A number: a finite value, an infinity or [NaN].  A finite double
    is a rational, so the finite values are taken in [Q]; [0] and [-0]
    are not told apart. *)
Inductive number : Type :=
| Finite (q : Q)
| PlusInfinity
| MinusInfinity
| NaN.

(** Truthiness of a number: [!n] holds exactly for [0], [-0] and [NaN]. *)
Definition truthyNumber (n : number) : bool :=
  match n with
  | Finite q => negb (Qeq_bool q 0)
  | PlusInfinity | MinusInfinity => true
  | NaN => false
  end.

(** [arr[i]]: [undefined] outside the array. *)
Definition arrayGet {A : Type} (arr : list A) (i : Z) : option A :=
  if (0 <=? i) then nth_error arr (Z.to_nat i) else None.

(** Whether a code unit occurs in a string. *)
Fixpoint occurs (p : ascii -> bool) (s : string) : bool :=
  match s with
  | EmptyString => false
  | String c r => p c || occurs p r
  end.

Definition isSpace (c : ascii) : bool := (code c =? 32)%N.

End JS.

(** ** [src/utils.ts] *)

Module Utils.

Record TerminalConfig : Type := {
  apiKey : option string;
  model : option string;
  temperature : option JS.number
}.

Record CommandResult : Type := {
  success : bool;
  output : string;
  error : option string
}.

Record HistoryItem : Type := {
  command : string;
  item_output : string;
  timestamp : Z
}.

(** The class [TerminalHistory]: its two private fields. *)
Record TerminalHistory : Type := {
  history : list HistoryItem;
  currentIndex : Z
}.

Definition newTerminalHistory : TerminalHistory :=
  {| history := []; currentIndex := -1 |}.

Definition len (h : TerminalHistory) : Z := Z.of_nat (List.length (history h)).

(** [add(command, output)]; [now] is the value of [new Date()]. *)
Definition add (cmd out : string) (now : Z) (h : TerminalHistory)
  : TerminalHistory :=
  let history' :=
    (history h ++
       [{| command := cmd; item_output := out; timestamp := now |}])%list in
  {| history := history'; currentIndex := Z.of_nat (List.length history') |}.

(** Reading [.command] of [this.history[this.currentIndex]]: a
    [TypeError] when the entry is [undefined]. *)
Definition commandAt (h : TerminalHistory) : completion (option string) :=
  match JS.arrayGet (history h) (currentIndex h) with
  | Some item => Normal (Some (command item))
  | None =>
      Throw (ErrorObj "Cannot read properties of undefined (reading 'command')")
  end.

Definition getPrevious (h : TerminalHistory)
  : completion (option string) * TerminalHistory :=
  if 0 <? currentIndex h then
    let h' := {| history := history h; currentIndex := currentIndex h - 1 |} in
    (commandAt h', h')
  else (Normal None, h).

Definition getNext (h : TerminalHistory)
  : completion (option string) * TerminalHistory :=
  if currentIndex h <? len h - 1 then
    let h' := {| history := history h; currentIndex := currentIndex h + 1 |} in
    (commandAt h', h')
  else (Normal (Some EmptyString),
        {| history := history h; currentIndex := len h |}).

Definition getAll (h : TerminalHistory) : list HistoryItem := history h.

Definition clear (_ : TerminalHistory) : TerminalHistory :=
  {| history := []; currentIndex := -1 |}.

(** [validateApiKey(apiKey)]; [env] is [process.env.GEMINI_API_KEY]. *)
Definition validateApiKey (apiKey : option string) (env : option string) : bool :=
  let key :=
    match apiKey with
    | Some k => if JS.truthy k then Some k else env
    | None => env
    end in
  match key with
  | Some k => (0 <? Z.of_nat (String.length k))
  | None => false
  end.

Definition sanitizeInput (input : string) : string :=
  JS.replaceLineBreaks false (JS.trim input).

Record ParsedCommand : Type := { p_command : string; p_args : string }.

Definition parseCommand (input : string) : ParsedCommand :=
  let trimmed := sanitizeInput input in
  let spaceIndex := JS.indexOf trimmed " " in
  if spaceIndex =? -1 then
    {| p_command := JS.toLowerCase trimmed; p_args := EmptyString |}
  else
    {| p_command := JS.toLowerCase (JS.substring trimmed 0 (Some spaceIndex));
       p_args := JS.trim (JS.substring trimmed (spaceIndex + 1) None) |}.

End Utils.

(** ** [src/terminal.ts] *)

Module Terminal.
Import Utils.

(** *** The world outside the process *)

(** A [GenerativeModel] handle of the Gemini client: the key of the
    [GoogleGenerativeAI] object it was made from and the options given
    to [getGenerativeModel]. *)
Record GenerativeModel : Type := {
  gm_apiKey : string;
  gm_model : string;
  gm_temperature : option JS.number
}.

Inductive style : Type := yellow | gray | red | green | cyan | dim.

(** What [spawn("sh", ["-c", command])] leads to: the ['data'] chunks of
    both pipes followed by ['close'], an ['error'] event, or an exception
    out of [spawn] itself (which rejects the promise). *)
Inductive ShellOutcome : Type :=
| Closed (code : Z) (stdout stderr : list string)
| LaunchError (message : string)
| SpawnThrows (t : thrown).

Inductive event : Type :=
| ConsoleLog (line : string)
| Question (query : string)
| GenerateContent (m : GenerativeModel) (prompt : string)
| GenerateContentImage (m : GenerativeModel) (data mimeType prompt : string)
| GenerateContentStream (m : GenerativeModel) (prompt : string)
| ExistsSync (path : string)
| ReadFileSync (path : string)
| Spawn (file : string) (args : list string).

(** The collaborators.  [generateContent] stands for the call, the
    awaited [response] and its [text()]; a streamed answer is the
    fragments delivered and the error, if any, that ends the stream.
    [extname] and [toBase64] are Node's [path.extname] and
    [Buffer.toString("base64")]. *)
Record World : Type := {
  now : Z;
  chalk : style -> string -> string;
  question : string -> string;
  generateContent : GenerativeModel -> string -> completion string;
  generateContentImage :
    GenerativeModel -> string -> string -> string -> completion string;
  generateContentStream :
    GenerativeModel -> string -> completion (list string * option thrown);
  existsSync : string -> bool;
  readFileSync : string -> completion string;
  extname : string -> string;
  toBase64 : string -> string;
  spawn : string -> list string -> ShellOutcome
}.

(** Whether an event is a call to the text-generation collaborator. *)
Definition isGeneration (e : event) : bool :=
  match e with
  | GenerateContent _ _ | GenerateContentImage _ _ _ _
  | GenerateContentStream _ _ => true
  | _ => false
  end.

(** *** The state: an [AITerminal] object, the environment variable it
    writes, and the trace of collaborator calls *)

Record State : Type := {
  genAI : option string;
  t_model : option GenerativeModel;
  t_history : TerminalHistory;
  config : TerminalConfig;
  env_GEMINI_API_KEY : option string;
  trace : list event
}.

Definition M (A : Type) : Type := State -> completion A * State.

Definition ret {A : Type} (a : A) : M A := fun s => (Normal a, s).

Definition bind {A B : Type} (m : M A) (k : A -> M B) : M B :=
  fun s =>
    match m s with
    | (Normal a, s') => k a s'
    | (Throw t, s') => (Throw t, s')
    end.

Definition liftC {A : Type} (c : completion A) : M A := fun s => (c, s).

(** [try { m } catch (error) { h error }]. *)
Definition tryCatch {A : Type} (m : M A) (h : thrown -> M A) : M A :=
  fun s =>
    match m s with
    | (Normal a, s') => (Normal a, s')
    | (Throw t, s') => h t s'
    end.

Definition get : M State := fun s => (Normal s, s).

Definition emit (e : event) : M unit :=
  fun s =>
    (Normal tt,
     {| genAI := genAI s; t_model := t_model s; t_history := t_history s;
        config := config s; env_GEMINI_API_KEY := env_GEMINI_API_KEY s;
        trace := (trace s ++ [e])%list |}).

Definition setHistory (h : TerminalHistory) : M unit :=
  fun s =>
    (Normal tt,
     {| genAI := genAI s; t_model := t_model s; t_history := h;
        config := config s; env_GEMINI_API_KEY := env_GEMINI_API_KEY s;
        trace := trace s |}).

Declare Scope js_scope.
Delimit Scope js_scope with js.
Notation "x <- m ;; k" := (bind m (fun x => k))
  (at level 100, m at next level, right associativity) : js_scope.
Notation "m ;;; k" := (bind m (fun _ => k))
  (at level 100, right associativity) : js_scope.
Open Scope js_scope.

Definition consoleLog (line : string) : M unit := emit (ConsoleLog line).

(** [error instanceof Error ? error.message : fallback]. *)
Definition messageOf (t : thrown) (fallback : string) : string :=
  match t with ErrorObj m => m | NonError => fallback end.

Definition defaultModel : string := "gemini-2.5-flash".

(** [config.temperature || 0.7]. *)
Definition temperatureOr (t : option JS.number) : JS.number :=
  match t with
  | Some n => if JS.truthyNumber n then n else JS.Finite (7 # 10)
  | None => JS.Finite (7 # 10)
  end.

Definition modelFor (cfg : TerminalConfig) (key : string) : GenerativeModel :=
  {| gm_apiKey := key;
     gm_model := match model cfg with
                 | Some m => JS.orElse m defaultModel
                 | None => defaultModel
                 end;
     gm_temperature := Some (temperatureOr (temperature cfg)) |}.

(** The constructor; [env] is [process.env.GEMINI_API_KEY]. *)
Definition newAITerminal (cfg : TerminalConfig) (env : option string) : State :=
  let key :=
    match apiKey cfg with
    | Some k => if JS.truthy k then Some k else env
    | None => env
    end in
  let configured :=
    match key with
    | Some k => if JS.truthy k && validateApiKey (Some k) env then Some k else None
    | None => None
    end in
  {| genAI := configured;
     t_model := option_map (modelFor cfg) configured;
     t_history := newTerminalHistory;
     config := cfg;
     env_GEMINI_API_KEY := env;
     trace := [] |}.

Definition nl : string := String JS.LF EmptyString.
Definition dq : string := String JS.DQ EmptyString.

Definition helpText : string :=
  nl ++
  "AI Terminal - Hybrid Shell + AI Assistant" ++ nl ++
  nl ++
  "🤖 AI Commands:" ++ nl ++
  "• explain <text>       - Get AI explanation of any text or concept" ++ nl ++
  "• generate <request>   - Generate code, text, or solutions" ++ nl ++
  "• summarize <text>     - Summarize long text or content" ++ nl ++
  "• vision <image_path>  - Analyze images (describe, extract text, etc.)" ++ nl ++
  "• clear               - Clear terminal output" ++ nl ++
  "• help                - Show this help message" ++ nl ++
  nl ++
  "💻 Shell Commands:" ++ nl ++
  "• Any regular terminal command (ls, cd, git, npm, etc.)" ++ nl ++
  "• Full shell functionality with AI assistance" ++ nl ++
  nl ++
  "Examples:" ++ nl ++
  "• ls -la" ++ nl ++
  "• git status" ++ nl ++
  "• explain " ++ dq ++ "what is machine learning" ++ dq ++ nl ++
  "• generate " ++ dq ++ "a Python function to sort an array" ++ dq ++ nl ++
  "• npm install express" ++ nl ++
  nl ++
  "Note: AI features will prompt for Gemini API key if not set." ++ nl.

Definition handleHelp : CommandResult :=
  {| success := true; output := helpText; error := None |}.

Definition callGeminiAPI (w : World) (prompt : string) : M CommandResult :=
  tryCatch
    (s <- get ;;
     match t_model s with
     | None =>
         ret {| success := false;
                output := "AI not initialized. Use an AI command to set up API key.";
                error := Some "No API key" |}
     | Some m =>
         emit (GenerateContent m prompt) ;;;
         out <- liftC (generateContent w m prompt) ;;
         ret {| success := true; output := out; error := None |}
     end)
    (fun err =>
       let errorMessage := messageOf err "API call failed" in
       ret {| success := false;
              output := "AI Error: " ++ errorMessage;
              error := Some errorMessage |}).

Definition explainPrompt (text : string) : string :=
  "Explain this in 2-3 lines max, concise and technical:" ++ nl ++ nl ++ text.

Definition generatePrompt (request : string) : string :=
  "Generate clean code only, no explanations unless essential. Keep it minimal:"
  ++ nl ++ nl ++ request.

Definition summarizePrompt (text : string) : string :=
  "Summarize in 2-3 lines max, key points only:" ++ nl ++ nl ++ text.

Definition handleExplain (w : World) (text : string) : M CommandResult :=
  if negb (JS.truthy text) then
    ret {| success := false;
           output := "Please provide text to explain. Usage: explain <text>";
           error := Some "Missing text" |}
  else callGeminiAPI w (explainPrompt text).

Definition handleGenerate (w : World) (request : string) : M CommandResult :=
  if negb (JS.truthy request) then
    ret {| success := false;
           output := "Please provide a generation request. Usage: generate <request>";
           error := Some "Missing request" |}
  else callGeminiAPI w (generatePrompt request).

Definition handleSummarize (w : World) (text : string) : M CommandResult :=
  if negb (JS.truthy text) then
    ret {| success := false;
           output := "Please provide text to summarize. Usage: summarize <text>";
           error := Some "Missing text" |}
  else callGeminiAPI w (summarizePrompt text).

Definition mimeTypes : list (string * string) :=
  [ (".jpg", "image/jpeg"); (".jpeg", "image/jpeg"); (".png", "image/png");
    (".gif", "image/gif"); (".webp", "image/webp") ].

Fixpoint lookup (key : string) (table : list (string * string)) : option string :=
  match table with
  | [] => None
  | (k, v) :: rest => if String.eqb k key then Some v else lookup key rest
  end.

Definition getMimeType (extension : string) : string :=
  match lookup (JS.toLowerCase extension) mimeTypes with
  | Some v => JS.orElse v "image/jpeg"
  | None => "image/jpeg"
  end.

Definition visionPrompt : string :=
  "Analyze this image and provide: 1) A detailed description, 2) Any text you can extract, 3) Technical details if it's a diagram/code/screenshot".

Definition handleVision (w : World) (imagePath : string) : M CommandResult :=
  if negb (JS.truthy imagePath) then
    ret {| success := false;
           output := "Please provide an image path. Usage: vision <image_path>";
           error := Some "Missing image path" |}
  else
    tryCatch
      (emit (ExistsSync imagePath) ;;;
       if negb (existsSync w imagePath) then
         ret {| success := false;
                output := "Image file not found: " ++ imagePath;
                error := Some "File not found" |}
       else
         emit (ReadFileSync imagePath) ;;;
         imageData <- liftC (readFileSync w imagePath) ;;
         let mimeType := getMimeType (extname w imagePath) in
         s <- get ;;
         match genAI s with
         | None =>
             ret {| success := false; output := "AI not initialized";
                    error := Some "No API key" |}
         | Some key =>
             let visionModel :=
               {| gm_apiKey := key; gm_model := "gemini-1.5-flash";
                  gm_temperature := None |} in
             let data := toBase64 w imageData in
             emit (GenerateContentImage visionModel data mimeType visionPrompt) ;;;
             out <- liftC (generateContentImage w visionModel data mimeType
                                                visionPrompt) ;;
             ret {| success := true; output := out; error := None |}
         end)
      (fun err =>
         let errorMessage := messageOf err "Vision analysis failed" in
         ret {| success := false;
                output := "Vision error: " ++ errorMessage;
                error := Some errorMessage |}).

Definition handleClear : M CommandResult :=
  s <- get ;;
  setHistory (clear (t_history s)) ;;;
  ret {| success := true; output := "Terminal cleared."; error := None |}.

Definition executeShellCommand (w : World) (cmd : string) : M CommandResult :=
  emit (Spawn "sh" ["-c"; cmd]) ;;;
  match spawn w "sh" ["-c"; cmd] with
  | Closed code stdout stderr =>
      let out := String.concat EmptyString stdout in
      let err := String.concat EmptyString stderr in
      if code =? 0 then
        ret {| success := true;
               output := JS.orElse (JS.trim out) "Command executed successfully";
               error := None |}
      else
        ret {| success := false;
               output := JS.orElse (JS.trim err)
                           ("Command failed with code " ++ JS.numberToString code);
               error := Some (JS.trim err) |}
  | LaunchError message =>
      ret {| success := false;
             output := "Error: " ++ message;
             error := Some message |}
  | SpawnThrows t => liftC (Throw t)
  end.

Definition promptQuery (w : World) : string :=
  chalk w cyan "Enter your Gemini API key (hidden): ".

(** The lines [promptForApiKey] prints before it asks. *)
Definition promptBanner (w : World) : list string :=
  [ chalk w yellow (nl ++ "🤖 AI features require Gemini API key");
    chalk w gray "Get one free at: https://aistudio.google.com/app/api-keys";
    chalk w gray "Your API key will be saved for this session only.";
    EmptyString ].

Definition noKeyLine (w : World) : string :=
  chalk w red "❌ No API key provided. AI features will be disabled.".

Definition invalidKeyLine (w : World) : string :=
  chalk w red "❌ Invalid API key format. Please check your key and try again.".

Definition keySetLine (w : World) : string :=
  chalk w green "✅ API key set successfully! AI features are now available.".

Fixpoint consoleLogAll (lines : list string) : M unit :=
  match lines with
  | [] => ret tt
  | l :: rest => consoleLog l ;;; consoleLogAll rest
  end.

Definition promptForApiKey (w : World) : M (option string) :=
  consoleLogAll (promptBanner w) ;;;
  emit (Question (promptQuery w)) ;;;
  let apiKey := question w (promptQuery w) in
  let trimmedKey := JS.trim apiKey in
  if negb (JS.truthy trimmedKey) then
    consoleLog (noKeyLine w) ;;; ret None
  else if Z.of_nat (String.length trimmedKey) <? 20 then
    consoleLog (invalidKeyLine w) ;;; ret None
  else
    consoleLog (keySetLine w) ;;; ret (Some trimmedKey).

Definition setupAI (w : World) (key : string) : M unit :=
  (fun s =>
     (Normal tt,
      {| genAI := Some key;
         t_model := Some (modelFor (config s) key);
         t_history := t_history s;
         config := config s;
         env_GEMINI_API_KEY := Some key;
         trace := trace s |})) ;;;
  consoleLog (chalk w dim "🔗 Connected to Gemini AI service").

Definition handleAICommand (w : World) (cmd args : string) : M CommandResult :=
  if String.eqb cmd "explain" then handleExplain w args
  else if String.eqb cmd "generate" then handleGenerate w args
  else if String.eqb cmd "summarize" then handleSummarize w args
  else ret {| success := false; output := "Unknown AI command";
              error := Some "Unknown command" |}.

(** The [case] labels of the [switch] in [executeCommand]. *)
Inductive switchCase : Type :=
| CaseHelp | CaseAI | CaseVision | CaseClear | CaseEmpty | CaseDefault.

Definition caseOf (cmd : string) : switchCase :=
  if String.eqb cmd "help" then CaseHelp
  else if String.eqb cmd "explain" || String.eqb cmd "generate"
          || String.eqb cmd "summarize" then CaseAI
  else if String.eqb cmd "vision" then CaseVision
  else if String.eqb cmd "clear" then CaseClear
  else if String.eqb cmd EmptyString then CaseEmpty
  else CaseDefault.

(** How a [case] body ends: it falls out of the [switch] with [result]
    set, or it returns from [executeCommand] at once. *)
Inductive flow : Type :=
| Break (result : CommandResult)
| Return (result : CommandResult).

Definition noApiKeyResult (w : World) : CommandResult :=
  {| success := false;
     output := chalk w yellow
       "⚠️  AI features require a valid Gemini API key. Shell commands will continue to work normally.";
     error := Some "No API key" |}.

(** The guard [if (!this.model) { ... }] that opens the AI and the vision
    cases, followed by the handler call [k]. *)
Definition withModel (w : World) (k : M CommandResult) : M flow :=
  s <- get ;;
  match t_model s with
  | Some _ => result <- k ;; ret (Break result)
  | None =>
      apiKey <- promptForApiKey w ;;
      match apiKey with
      | None => ret (Return (noApiKeyResult w))
      | Some key =>
          setupAI w key ;;;
          result <- k ;; ret (Break result)
      end
  end.

Definition runCase (w : World) (cmd args fullCommand : string) : M flow :=
  match caseOf cmd with
  | CaseHelp => ret (Break handleHelp)
  | CaseAI => withModel w (handleAICommand w cmd args)
  | CaseVision => withModel w (handleVision w args)
  | CaseClear => result <- handleClear ;; ret (Break result)
  | CaseEmpty =>
      ret (Break {| success := true; output := EmptyString; error := None |})
  | CaseDefault =>
      result <- executeShellCommand w fullCommand ;; ret (Break result)
  end.

(** [this.history.add(command, output)]. *)
Definition historyAdd (w : World) (cmd out : string) : M unit :=
  s <- get ;;
  setHistory (add cmd out (now w) (t_history s)).

Definition executeCommand (w : World) (input : string) : M CommandResult :=
  let parsed := parseCommand input in
  let fullCommand := JS.trim input in
  tryCatch
    (f <- runCase w (p_command parsed) (p_args parsed) fullCommand ;;
     match f with
     | Return result => ret result
     | Break result =>
         (if success result && JS.truthy (output result)
          then historyAdd w fullCommand (output result)
          else ret tt) ;;;
         ret result
     end)
    (fun err =>
       let errorMessage := messageOf err "Unknown error occurred" in
       ret {| success := false;
              output := "Error: " ++ errorMessage;
              error := Some errorMessage |}).

Definition streamingVerbs : list string := ["explain"; "generate"; "summarize"].

Definition includes (l : list string) (x : string) : bool :=
  existsb (String.eqb x) l.

(** The prompt built by the [switch] inside [streamResponse], which
    writes the three templates out again. *)
Definition streamPrompt (cmd args : string) : string :=
  if String.eqb cmd "explain" then
    "Explain this in 2-3 lines max, concise and technical:" ++ nl ++ nl ++ args
  else if String.eqb cmd "generate" then
    "Generate clean code only, no explanations unless essential. Keep it minimal:"
    ++ nl ++ nl ++ args
  else if String.eqb cmd "summarize" then
    "Summarize in 2-3 lines max, key points only:" ++ nl ++ nl ++ args
  else EmptyString.

(** The async generator [streamResponse], run to exhaustion: the
    fragments it yields, in order. *)
Definition streamResponse (w : World) (input : string) : M (list string) :=
  let parsed := parseCommand input in
  if negb (includes streamingVerbs (p_command parsed)) then
    result <- executeCommand w input ;;
    ret [output result]
  else
    s <- get ;;
    match t_model s with
    | None =>
        ret ["Error: AI not initialized. Use an AI command to set up API key."]
    | Some m =>
        let prompt := streamPrompt (p_command parsed) (p_args parsed) in
        emit (GenerateContentStream m prompt) ;;;
        match generateContentStream w m prompt with
        | Throw err => ret ["Error: " ++ messageOf err "Unknown error"]
        | Normal (chunks, None) => ret chunks
        | Normal (chunks, Some err) =>
            let last := "Error: " ++ messageOf err "Unknown error" in
            ret (chunks ++ [last])%list
        end
    end.

Definition getHistory (s : State) : TerminalHistory := t_history s.

End Terminal.

(** ** The history operations as data, for statements about runs *)

Module HistoryOps.
Import Utils.

(** The operations of the class, as data. *)
Inductive op : Type :=
| OpAdd (cmd out : string) (now : Z)
| OpGetPrevious
| OpGetNext
| OpGetAll
| OpClear.

Inductive answer : Type :=
| Void
| Recalled (r : option string)
| Items (l : list HistoryItem).

Definition mapC {A B : Type} (f : A -> B) (c : completion A) : completion B :=
  match c with Normal a => Normal (f a) | Throw t => Throw t end.

Definition step (o : op) (h : TerminalHistory) : completion answer * TerminalHistory :=
  match o with
  | OpAdd c out t => (Normal Void, add c out t h)
  | OpGetPrevious => let (r, h') := getPrevious h in (mapC Recalled r, h')
  | OpGetNext => let (r, h') := getNext h in (mapC Recalled r, h')
  | OpGetAll => (Normal (Items (getAll h)), h)
  | OpClear => (Normal Void, clear h)
  end.

(** Runs the operations in order; stops at the first exception. *)
Fixpoint run (ops : list op) (h : TerminalHistory)
  : completion (list answer) * TerminalHistory :=
  match ops with
  | [] => (Normal [], h)
  | o :: rest =>
      match step o h with
      | (Normal a, h') =>
          let (r, h'') := run rest h' in (mapC (cons a) r, h'')
      | (Throw t, h') => (Throw t, h')
      end
  end.

(** Appending a list of (command, output, time) triples in order. *)
Definition addAll (cs : list (string * string * Z)) (h : TerminalHistory)
  : TerminalHistory :=
  fold_left (fun acc x => add (fst (fst x)) (snd (fst x)) (snd x) acc) cs h.

Definition itemOf (x : string * string * Z) : HistoryItem :=
  {| command := fst (fst x); item_output := snd (fst x); timestamp := snd x |}.

Definition recalled (c : string) : answer := Recalled (Some c).

Definition cursor_in_range (h : TerminalHistory) : Prop :=
  -1 <= currentIndex h <= len h.

End HistoryOps.

(** ** What a run leaves behind *)

Module Observations.
Import Utils Terminal.

(** The state [s] after the collaborator calls [es] were recorded and
    nothing else changed. *)
Definition logged (es : list event) (s : State) : State :=
  {| genAI := genAI s; t_model := t_model s; t_history := t_history s;
     config := config s; env_GEMINI_API_KEY := env_GEMINI_API_KEY s;
     trace := (trace s ++ es)%list |}.

(** The state [s] after [add(cmd, out)] at time [t]. *)
Definition recorded (cmd out : string) (t : Z) (s : State) : State :=
  {| genAI := genAI s; t_model := t_model s;
     t_history := add cmd out t (t_history s);
     config := config s; env_GEMINI_API_KEY := env_GEMINI_API_KEY s;
     trace := trace s |}.

(** What [promptForApiKey] leaves in the trace when its last line is
    [verdict]. *)
Definition promptEvents (w : World) (verdict : string) : list event :=
  (map ConsoleLog (promptBanner w)
     ++ [Question (promptQuery w); ConsoleLog verdict])%list.

(** The state after [setupAI(key)], its console line apart. *)
Definition keyed (key : string) (s : State) : State :=
  {| genAI := Some key;
     t_model := Some (modelFor (config s) key);
     t_history := t_history s;
     config := config s;
     env_GEMINI_API_KEY := Some key;
     trace := trace s |}.

Definition connectedLine (w : World) : string :=
  chalk w dim "🔗 Connected to Gemini AI service".

(** The state in which the handler runs once a solicited key was
    accepted. *)
Definition afterSetup (w : World) (key : string) (s : State) : State :=
  logged [ConsoleLog (connectedLine w)]
         (keyed key (logged (promptEvents w (keySetLine w)) s)).

(** The result [executeCommand] builds in its [catch] clause. *)
Definition caughtResult (t : thrown) : CommandResult :=
  let errorMessage := messageOf t "Unknown error occurred" in
  {| success := false; output := "Error: " ++ errorMessage;
     error := Some errorMessage |}.

(** The calls to the text-generation collaborator recorded so far. *)
Definition generationCalls (s : State) : list event :=
  filter isGeneration (trace s).

(** The verbs that label a [case] of the [switch] and take part in a
    line of the form [verb argument]. *)
Definition builtinVerbs : list string :=
  ["help"; "explain"; "generate"; "summarize"; "vision"; "clear"].

(** The entries of the session history. *)
Definition entries (s : State) : list HistoryItem := history (t_history s).

(** A computation that leaves the session history as it found it. *)
Definition keeps_history {A : Type} (m : M A) : Prop :=
  forall s, t_history (snd (m s)) = t_history s.

End Observations.

(** ** Concrete worlds and states, for evaluating the program *)

Module Samples.
Import Utils Terminal.

(** A world where colours are off, the prompt is answered with an empty
    line, the model answers every prompt with [ok] (streamed in two
    fragments), no file exists and every shell command prints nothing
    and exits with code 0. *)
Definition quietWorld : World :=
  {| now := 0;
     chalk := fun _ s => s;
     question := fun _ => EmptyString;
     generateContent := fun _ _ => Normal "ok";
     generateContentImage := fun _ _ _ _ => Normal "ok";
     generateContentStream := fun _ _ => Normal (["o"; "k"], None);
     existsSync := fun _ => false;
     readFileSync := fun _ => Throw (ErrorObj "ENOENT");
     extname := fun _ => EmptyString;
     toBase64 := fun s => s;
     spawn := fun _ _ => Closed 0 [] [] |}.

(** [quietWorld] with another child-process behaviour. *)
Definition withSpawn (o : ShellOutcome) (w : World) : World :=
  {| now := now w;
     chalk := chalk w;
     question := question w;
     generateContent := generateContent w;
     generateContentImage := generateContentImage w;
     generateContentStream := generateContentStream w;
     existsSync := existsSync w;
     readFileSync := readFileSync w;
     extname := extname w;
     toBase64 := toBase64 w;
     spawn := fun _ _ => o |}.

(** [quietWorld] with another line typed at the prompt. *)
Definition withAnswer (line : string) (w : World) : World :=
  {| now := now w;
     chalk := chalk w;
     question := fun _ => line;
     generateContent := generateContent w;
     generateContentImage := generateContentImage w;
     generateContentStream := generateContentStream w;
     existsSync := existsSync w;
     readFileSync := readFileSync w;
     extname := extname w;
     toBase64 := toBase64 w;
     spawn := spawn w |}.

Definition noConfig : TerminalConfig :=
  {| apiKey := None; model := None; temperature := None |}.

(** A terminal started with no credential anywhere. *)
Definition unconfigured : State := newAITerminal noConfig None.

(** A terminal started with a credential in the environment. *)
Definition configured : State :=
  newAITerminal noConfig (Some "AIzaSy-0123456789abcdefghij").

End Samples.

(** ** What the history should hold after a sequence of operations *)

Module HistoryLog.
Import Utils HistoryOps.

(** The entries appended since the last [clear], oldest first. *)
Definition sinceClear (ops : list op) (start : list HistoryItem) : list HistoryItem :=
  fold_left
    (fun acc o =>
       match o with
       | OpAdd c out t =>
           (acc ++ [{| command := c; item_output := out; timestamp := t |}])%list
       | OpClear => []
       | _ => acc
       end)
    ops start.

End HistoryLog.

(** ** Ways of speaking about what a computation does *)

Module Effects.
Import Utils Terminal Observations.

Definition isSpawn (e : event) : bool :=
  match e with Spawn _ _ => true | _ => false end.

Definition isQuestion (e : event) : bool :=
  match e with Question _ => true | _ => false end.

Definition anyEvent (_ : event) : bool := true.

Definition noEvent (_ : event) : bool := false.

(** Every event of [log] satisfies [allowed], and at most [n] satisfy
    [counted]. *)
Definition within (allowed counted : event -> bool) (n : nat) (log : list event)
  : Prop :=
  forallb allowed log = true /\ (List.length (filter counted log) <= n)%nat.

(** Whatever the state, [m] only appends to the trace, and what it
    appends is [within] the bounds. *)
Definition emits (allowed counted : event -> bool) (n : nat) {A : Type} (m : M A)
  : Prop :=
  forall s, exists log,
    trace (snd (m s)) = (trace s ++ log)%list /\ within allowed counted n log.

(** Whatever the state [m] starts in, the state it ends in is related
    to it by [R]. *)
Definition steps (R : State -> State -> Prop) {A : Type} (m : M A) : Prop :=
  forall s, R s (snd (m s)).

(** Every value [m] returns normally satisfies [Q]. *)
Definition returns {A : Type} (Q : A -> Prop) (m : M A) : Prop :=
  forall s a, fst (m s) = Normal a -> Q a.

(** The client side of the state: the Gemini handles and the variable
    of the environment. *)
Definition client (s : State)
  : option string * option GenerativeModel * option string :=
  (genAI s, t_model s, env_GEMINI_API_KEY s).

(** The client side is left alone. *)
Definition sameClient (s s' : State) : Prop := client s' = client s.

(** Once a model is set, the client side is left alone and nothing is
    asked at the prompt. *)
Definition settled (s s' : State) : Prop :=
  t_model s <> None ->
  client s' = client s /\
  exists log,
    trace s' = (trace s ++ log)%list /\
    forallb (fun e => negb (isQuestion e)) log = true.

(** A history as [executeCommand] leaves it: fresh, or with the cursor
    past its last entry. *)
Definition parked (h : TerminalHistory) : Prop :=
  h = newTerminalHistory \/
  (history h <> [] /\ currentIndex h = len h).

(** A failed result carries a message. *)
Definition explained (r : CommandResult) : Prop :=
  success r = false -> output r <> EmptyString.

Definition resultOf (f : flow) : CommandResult :=
  match f with Break r => r | Return r => r end.

(** A session: the lines dispatched one after the other, each in the
    world it meets. *)
Fixpoint session (lines : list (World * string)) (st : State) : State :=
  match lines with
  | [] => st
  | (w, input) :: rest => session rest (snd (executeCommand w input st))
  end.

(** An entry as [executeCommand] writes them: a command that is not
    blank and has no white space around it, and an output that is not
    empty. *)
Definition tidy (item : HistoryItem) : Prop :=
  command item <> EmptyString /\
  JS.trim (command item) = command item /\
  item_output item <> EmptyString.

End Effects.


(** ** What the two front ends share *)

Module Routing.
Import Utils Terminal.

(** [s.startsWith(p)]. *)
Definition startsWith (s p : string) : bool := prefix p s.

(** [["explain", "generate", "summarize"].some((cmd) => s.startsWith(cmd))],
    the test by which both front ends choose [streamResponse]. *)
Definition someVerbStarts (s : string) : bool :=
  existsb (fun cmd => startsWith s cmd) ["explain"; "generate"; "summarize"].

End Routing.

(** ** [src/cli.ts]: the action of [exec <command>]

    What the action writes itself is kept in order in [written]; the
    lines the terminal prints meanwhile are in the trace of [terminal]. *)

Module CLI.
Import Utils Terminal Routing.

Inductive output : Type :=
| StdoutLine (s : string)            (* [console.log(s)] *)
| StdoutWrite (s : string)           (* [process.stdout.write(s)] *)
| StderrLine (s : string).           (* [console.error(s)] *)

Definition isStderr (o : output) : bool :=
  match o with StderrLine _ => true | _ => false end.

(** The process when the action is over: [exitStatus] is the argument
    of [process.exit], or 0 when the action runs to its end. *)
Record Process : Type := {
  terminal : State;
  written : list output;
  exitStatus : Z
}.

Definition arrow : string := "→ ".

(** The [catch] of the action. *)
Definition failed (w : World) (so_far : list output) (err : thrown) (t : State)
  : Process :=
  {| terminal := t;
     written :=
       (so_far ++
        [StderrLine (chalk w red ("Error: " ++ messageOf err "Unknown error"))])%list;
     exitStatus := 1 |}.

(** [program.command("exec <command>").action(...)]; [env] is
    [process.env.GEMINI_API_KEY] when the process starts. *)
Definition exec (w : World) (env : option string) (command : string) : Process :=
  let terminal :=
    newAITerminal {| apiKey := None; model := None; temperature := None |} env in
  let echo := [StdoutLine (chalk w cyan ("$ " ++ command))] in
  if someVerbStarts command then
    let opened := (echo ++ [StdoutWrite (chalk w green arrow)])%list in
    match streamResponse w command terminal with
    | (Normal chunks, t) =>
        {| terminal := t;
           written :=
             (opened ++ map (fun chunk => StdoutWrite (chalk w green chunk)) chunks
                     ++ [StdoutLine EmptyString])%list;
           exitStatus := 0 |}
    | (Throw err, t) => failed w opened err t
    end
  else
    match executeCommand w command terminal with
    | (Normal result, t) =>
        if success result then
          {| terminal := t;
             written := (echo ++ [StdoutLine (chalk w green (Utils.output result))])%list;
             exitStatus := 0 |}
        else
          {| terminal := t;
             written := (echo ++ [StdoutLine (chalk w red (Utils.output result))])%list;
             exitStatus := 1 |}
    | (Throw err, t) => failed w echo err t
    end.

End CLI.

(** ** [src/ui.tsx]: the component [AITerminalUI]

    The component is its state cells, the [AITerminal] objects it has
    created, and the props of its last render.  The cell [terminal]
    holds a reference: the handlers mutate the object it refers to, and
    the initialisation effect puts a new object into the cell.

    React renders the component after every change of a cell and
    whenever its parent renders; a run lists the renders where they take
    place, each with the props it is given, and the renders that take
    place while a handler awaits are given to that handler.  A handler
    reads the cells as they are when the event arrives (React renders
    before it handles the next event), and no key arrives while a
    command runs, for the input element is disabled while [isLoading]
    holds.  [Date.now()] and [new Date()] read the clock of the world;
    the numbers [Math.random()] returns are given, as text and in call
    order, by [random].  The markup, scrolling, focus, the pause between
    two fragments and the cursor blink (which only causes renders) are
    outside the embedding. *)

Module UI.
Import Utils Terminal Routing.

Inductive lineType : Type := LineInput | LineOutput | LineError | LineSystem.

Record TerminalLine : Type := {
  line_id : string;
  content : string;
  line_type : lineType;
  line_timestamp : Z;
  streaming : option bool
}.

(** The props the effect and the handlers read.  [configId] is the
    identity of the object passed as [config]: React compares the
    dependencies of an effect with [Object.is], and the default
    [config = {}] of the parameter list is a new object at every
    render. *)
Record Props : Type := {
  config : TerminalConfig;
  configId : nat;
  explainMode : bool
}.

(** The state cells; [terminal] is a reference to an [AITerminal]. *)
Record Cells : Type := {
  terminal : option nat;
  lines : list TerminalLine;
  currentInput : string;
  isLoading : bool;
  historyIndex : Z;
  error : option string
}.

Definition setTerminal (r : nat) (c : Cells) : Cells :=
  {| terminal := Some r; lines := lines c; currentInput := currentInput c;
     isLoading := isLoading c; historyIndex := historyIndex c; error := error c |}.

Definition setLines (f : list TerminalLine -> list TerminalLine) (c : Cells)
  : Cells :=
  {| terminal := terminal c; lines := f (lines c); currentInput := currentInput c;
     isLoading := isLoading c; historyIndex := historyIndex c; error := error c |}.

Definition setCurrentInput (s : string) (c : Cells) : Cells :=
  {| terminal := terminal c; lines := lines c; currentInput := s;
     isLoading := isLoading c; historyIndex := historyIndex c; error := error c |}.

Definition setIsLoading (b : bool) (c : Cells) : Cells :=
  {| terminal := terminal c; lines := lines c; currentInput := currentInput c;
     isLoading := b; historyIndex := historyIndex c; error := error c |}.

Definition setHistoryIndex (i : Z) (c : Cells) : Cells :=
  {| terminal := terminal c; lines := lines c; currentInput := currentInput c;
     isLoading := isLoading c; historyIndex := i; error := error c |}.

Definition setError (e : option string) (c : Cells) : Cells :=
  {| terminal := terminal c; lines := lines c; currentInput := currentInput c;
     isLoading := isLoading c; historyIndex := historyIndex c; error := e |}.

(** The component.  [objects] are the [AITerminal] objects by
    reference, the first [allocated] of them created so far; [props] are
    the props of the last render ([None] before the first); [env] is
    [process.env.GEMINI_API_KEY] and [events] the trace, which all the
    objects share. *)
Record Component : Type := {
  cells : Cells;
  objects : nat -> State;
  allocated : nat;
  props : option Props;
  env : option string;
  events : list event
}.

Definition onCells (f : Cells -> Cells) (k : Component) : Component :=
  {| cells := f (cells k); objects := objects k; allocated := allocated k;
     props := props k; env := env k; events := events k |}.

(** An object as a method call finds it: with the variable of the
    environment and the trace as they are now. *)
Definition inProcess (k : Component) (s : State) : State :=
  {| genAI := genAI s; t_model := t_model s; t_history := t_history s;
     Terminal.config := Terminal.config s;
     env_GEMINI_API_KEY := env k; trace := events k |}.

Definition override (objects : nat -> State) (r : nat) (s : State) : nat -> State :=
  fun i => if Nat.eqb i r then s else objects i.

(** A method call on the object [r] refers to: the object is mutated in
    place, whatever the cell [terminal] holds by then. *)
Definition invoke {A : Type} (r : nat) (m : M A) (k : Component)
  : completion A * Component :=
  let (result, s) := m (inProcess k (objects k r)) in
  (result,
   {| cells := cells k; objects := override (objects k) r s;
      allocated := allocated k; props := props k;
      env := env_GEMINI_API_KEY s; events := trace s |}).

Definition welcome (w : World) (p : Props) : TerminalLine :=
  {| line_id := "welcome";
     content :=
       if explainMode p
       then "AI Terminal (Explain Mode) - Commands will be explained instead of executed"
       else "AI Terminal initialized. Type " ++ dq ++ "help" ++ dq
            ++ " for available commands.";
     line_type := LineSystem;
     line_timestamp := now w;
     streaming := None |}.

(** The initialisation effect: a new [AITerminal] goes into the cell
    and the lines are reset to the welcome line.  (The constructor does
    not throw, see [newAITerminal], so the [catch] of the effect is not
    reached.) *)
Definition initialize (w : World) (p : Props) (k : Component) : Component :=
  let terminalInstance := newAITerminal (config p) (env k) in
  {| cells :=
       setError None
         (setLines (fun _ => [welcome w p])
            (setTerminal (allocated k) (cells k)));
     objects := override (objects k) (allocated k) terminalInstance;
     allocated := S (allocated k);
     props := props k; env := env k; events := events k |}.

(** The dependencies [[config, explainMode]] of the effect, compared
    as React does. *)
Definition sameDeps (p q : Props) : bool :=
  Nat.eqb (configId p) (configId q) && Bool.eqb (explainMode p) (explainMode q).

(** One render with the props [p], followed by its effects: the
    initialisation effect runs after the first render and after every
    render whose [config] or [explainMode] is not the one of the render
    before. *)
Definition render (w : World) (p : Props) (k : Component) : Component :=
  let k' :=
    {| cells := cells k; objects := objects k; allocated := allocated k;
       props := Some p; env := env k; events := events k |} in
  match props k with
  | Some q => if sameDeps q p then k' else initialize w p k'
  | None => initialize w p k'
  end.

Definition renders (w : World) (ps : list Props) (k : Component) : Component :=
  fold_left (fun k p => render w p k) ps k.

(** The component before its first render: the initial values of the
    cells, and no object. *)
Definition unmounted (env : option string) : Component :=
  {| cells := {| terminal := None; lines := []; currentInput := EmptyString;
                 isLoading := false; historyIndex := -1; error := None |};
     objects :=
       fun _ => newAITerminal {| apiKey := None; model := None;
                                 temperature := None |} None;
     allocated := 0;
     props := None;
     env := env;
     events := [] |}.

Definition mount (w : World) (p : Props) (env : option string) : Component :=
  render w p (unmounted env).

Definition newLineId (w : World) (rnd : string) : string :=
  "line-" ++ JS.numberToString (now w) ++ "-" ++ rnd.

(** [addLine(content, type, streaming)]: the id of the new line, and
    the cells. *)
Definition addLine (w : World) (rnd : string)
    (text : string) (type : lineType) (stream : bool) (c : Cells)
  : string * Cells :=
  let newLine :=
    {| line_id := newLineId w rnd; content := text; line_type := type;
       line_timestamp := now w; streaming := Some stream |} in
  (line_id newLine, setLines (fun prev => prev ++ [newLine])%list c).

(** [updateLine(id, content, streaming)]. *)
Definition updateLine (id text : string) (stream : bool) (c : Cells) : Cells :=
  setLines
    (map (fun line =>
            if String.eqb (line_id line) id
            then {| line_id := line_id line; content := text;
                    line_type := line_type line;
                    line_timestamp := line_timestamp line;
                    streaming := Some stream |}
            else line))
    c.

(** The body of [for await (const chunk of ...)] from the [n]-th
    fragment on: the text accumulated so far, and the component.  After
    each fragment the handler awaits (the pause, then the next
    fragment), and the renders of that time take place. *)
Fixpoint showChunks (w : World) (awaiting : nat -> list Props) (id : string)
    (chunks : list string) (n : nat) (accumulatedOutput : string) (k : Component)
  : string * Component :=
  match chunks with
  | [] => (accumulatedOutput, k)
  | chunk :: rest =>
      let accumulatedOutput := accumulatedOutput ++ chunk in
      let k := onCells (updateLine id accumulatedOutput true) k in
      showChunks w awaiting id rest (S n) accumulatedOutput
                 (renders w (awaiting (S n)) k)
  end.

Definition lineTypeOf (result : CommandResult) : lineType :=
  if success result then LineOutput else LineError.

(** The line the explain mode sends to the terminal. *)
Definition explainLine (trimmedInput : string) : string :=
  "explain " ++ dq ++ "What would this command do: " ++ trimmedInput ++ dq.

(** [executeCommand(input)] of the component, as the last render made
    it: [terminal] and [explainMode] are the ones of that render.
    [awaiting n] are the renders that take place while the handler
    awaits for the [n]-th time; they are run when the awaited call has
    completed. *)
Definition executeCommand (w : World) (random : nat -> string)
    (awaiting : nat -> list Props) (input : string) (k : Component)
  : completion unit * Component :=
  match props k, terminal (cells k) with
  | Some p, Some r =>
      if negb (JS.truthy (JS.trim input)) then (Normal tt, k)
      else
        let trimmedInput := JS.trim input in
        let k :=
          onCells (fun c => snd (addLine w (random 0%nat) ("$ " ++ trimmedInput)
                                         LineInput false c)) k in
        if explainMode p then
          let k := onCells (setIsLoading true) k in
          let (result, k) :=
            invoke r (Terminal.executeCommand w (explainLine trimmedInput)) k in
          let k := renders w (awaiting 0%nat) k in
          match result with
          | Normal explanation =>
              let k := onCells (setIsLoading false) k in
              (Normal tt,
               onCells (fun c => snd (addLine w (random 1%nat) (output explanation)
                                              (lineTypeOf explanation) false c)) k)
          | Throw err => (Throw err, k)
          end
        else
          let k := onCells (setIsLoading true) k in
          let k :=
            if someVerbStarts trimmedInput then
              let outputLineId :=
                fst (addLine w (random 1%nat) EmptyString LineOutput true (cells k)) in
              let k :=
                onCells (fun c => snd (addLine w (random 1%nat) EmptyString
                                               LineOutput true c)) k in
              let (result, k) := invoke r (streamResponse w trimmedInput) k in
              let k := renders w (awaiting 0%nat) k in
              match result with
              | Normal chunks =>
                  let (accumulatedOutput, k) :=
                    showChunks w awaiting outputLineId chunks 0 EmptyString k in
                  onCells (updateLine outputLineId accumulatedOutput false) k
              | Throw err =>
                  onCells
                    (fun c =>
                       snd (addLine w (random 2%nat)
                                    ("Error: " ++ messageOf err "Command execution failed")
                                    LineError false c)) k
              end
            else
              let (result, k) :=
                invoke r (Terminal.executeCommand w trimmedInput) k in
              let k := renders w (awaiting 0%nat) k in
              match result with
              | Normal result =>
                  onCells (fun c => snd (addLine w (random 1%nat) (output result)
                                                 (lineTypeOf result) false c)) k
              | Throw err =>
                  onCells
                    (fun c =>
                       snd (addLine w (random 1%nat)
                                    ("Error: " ++ messageOf err "Command execution failed")
                                    LineError false c)) k
              end in
          (Normal tt, onCells (setIsLoading false) k)
  | _, _ => (Normal tt, k)
  end.

Record KeyboardEvent : Type := {
  key : string;
  shiftKey : bool;
  ctrlKey : bool
}.

(** [setHistoryIndex(newIndex)], then reading [.command] of
    [history[newIndex]]: a [TypeError] when the entry is [undefined]. *)
Definition recall (history : list HistoryItem) (newIndex : Z) (k : Component)
  : completion unit * Component :=
  let k := onCells (setHistoryIndex newIndex) k in
  match JS.arrayGet history newIndex with
  | Some item => (Normal tt, onCells (setCurrentInput (command item)) k)
  | None =>
      (Throw (ErrorObj "Cannot read properties of undefined (reading 'command')"), k)
  end.

(** [handleKeyDown(e)]; [awaiting] is for the command [Enter] starts. *)
Definition handleKeyDown (w : World) (random : nat -> string)
    (e : KeyboardEvent) (awaiting : nat -> list Props) (k : Component)
  : completion unit * Component :=
  if String.eqb (key e) "Enter" && negb (shiftKey e) && negb (isLoading (cells k))
  then
    (* the promise is not awaited: a rejection is not the handler's *)
    let k' := snd (executeCommand w random awaiting (currentInput (cells k)) k) in
    (Normal tt,
     onCells (fun c => setHistoryIndex (-1) (setCurrentInput EmptyString c)) k')
  else if String.eqb (key e) "ArrowUp" then
    match terminal (cells k) with
    | None => (Normal tt, k)
    | Some r =>
        let history := getAll (getHistory (objects k r)) in
        if 0 <? Z.of_nat (List.length history) then
          let newIndex :=
            if historyIndex (cells k) =? -1
            then Z.of_nat (List.length history) - 1
            else Z.max 0 (historyIndex (cells k) - 1) in
          recall history newIndex k
        else (Normal tt, k)
    end
  else if String.eqb (key e) "ArrowDown" then
    match terminal (cells k) with
    | None => (Normal tt, k)
    | Some r =>
        let history := getAll (getHistory (objects k r)) in
        if 0 <=? historyIndex (cells k) then
          let newIndex := historyIndex (cells k) + 1 in
          if Z.of_nat (List.length history) <=? newIndex then
            (Normal tt,
             onCells (fun c => setCurrentInput EmptyString (setHistoryIndex (-1) c)) k)
          else recall history newIndex k
        else (Normal tt, k)
    end
  else if String.eqb (key e) "l" && ctrlKey e then
    (Normal tt,
     onCells
       (setLines
          (fun _ =>
             [{| line_id := "clear"; content := "Terminal cleared.";
                 line_type := LineSystem; line_timestamp := now w;
                 streaming := None |}]))
       k)
  else (Normal tt, k).

(** [onChange] of the input element. *)
Definition handleChange (value : string) (k : Component) : Component :=
  onCells (setCurrentInput value) k.

(** What happens to the component: a key is pressed, the input is
    edited, or the component is rendered. *)
Inductive action : Type :=
| Press (e : KeyboardEvent) (awaiting : nat -> list Props)
| Type_ (value : string)
| Render (p : Props).

(** A run of actions, stopped by the first handler that throws. *)
Fixpoint interact (w : World) (random : nat -> string)
    (actions : list action) (k : Component) : completion unit * Component :=
  match actions with
  | [] => (Normal tt, k)
  | Type_ value :: rest => interact w random rest (handleChange value k)
  | Render p :: rest => interact w random rest (render w p k)
  | Press e awaiting :: rest =>
      match handleKeyDown w random e awaiting k with
      | (Normal _, k') => interact w random rest k'
      | (Throw t, k') => (Throw t, k')
      end
  end.

Definition enter : KeyboardEvent :=
  {| key := "Enter"; shiftKey := false; ctrlKey := false |}.

Definition arrowUp : KeyboardEvent :=
  {| key := "ArrowUp"; shiftKey := false; ctrlKey := false |}.

Definition arrowDown : KeyboardEvent :=
  {| key := "ArrowDown"; shiftKey := false; ctrlKey := false |}.

(** No render takes place while the handler awaits. *)
Definition idle : nat -> list Props := fun _ => [].

(** Every render that takes place while the handler awaits is given
    the props [p]. *)
Definition calm (p : Props) (awaiting : nat -> list Props) : Prop :=
  forall n q, In q (awaiting n) -> q = p.

(** The parent passes the props [p], the same [config] object and the
    same [explainMode], at every render of the action. *)
Definition steady (p : Props) (a : action) : Prop :=
  match a with
  | Press _ awaiting => calm p awaiting
  | Type_ _ => True
  | Render q => q = p
  end.

(** The keys an action list presses, in order. *)
Definition pressed (actions : list action) : list KeyboardEvent :=
  flat_map (fun a => match a with Press e _ => [e] | _ => [] end) actions.

Definition isArrow (e : KeyboardEvent) : Prop := e = arrowUp \/ e = arrowDown.

Definition edits (a : action) : bool :=
  match a with Type_ _ => true | _ => false end.

(** The cursor of the component is off ([-1]) or on an entry of the
    history of its terminal. *)
Definition onHistory (k : Component) : Prop :=
  exists r,
    terminal (cells k) = Some r /\
    (historyIndex (cells k) = -1 \/
     0 <= historyIndex (cells k)
       < Z.of_nat (List.length (getAll (getHistory (objects k r))))).

(** The component with the cursor at [i] and [text] in the input. *)
Definition placed (i : Z) (text : string) (k : Component) : Component :=
  onCells (fun c => setCurrentInput text (setHistoryIndex i c)) k.

(** The line [addLine] appends. *)
Definition lineOf (w : World) (rnd text : string) (type : lineType) (stream : bool)
  : TerminalLine :=
  {| line_id := newLineId w rnd; content := text; line_type := type;
     line_timestamp := now w; streaming := Some stream |}.

End UI.

(** ** More sample worlds, and sample components *)

Module Scenes.
Import Utils Terminal.

(** Every path exists and reads as [bytes], [path.extname] answers
    [.PNG], and the model answers every request with [ok]. *)
Definition pictureWorld : World :=
  {| now := 0;
     chalk := fun _ s => s;
     question := fun _ => EmptyString;
     generateContent := fun _ _ => Normal "ok";
     generateContentImage := fun _ _ _ _ => Normal "ok";
     generateContentStream := fun _ _ => Normal (["o"; "k"], None);
     existsSync := fun _ => true;
     readFileSync := fun _ => Normal "bytes";
     extname := fun _ => ".PNG";
     toBase64 := fun s => s;
     spawn := fun _ _ => Closed 0 [] [] |}.

(** The props of a parent that passes one [config] object. *)
Definition plainProps : UI.Props :=
  {| UI.config := {| apiKey := None; model := None; temperature := None |};
     UI.configId := 0; UI.explainMode := false |}.

Definition explainProps : UI.Props :=
  {| UI.config := {| apiKey := None; model := None; temperature := None |};
     UI.configId := 0; UI.explainMode := true |}.

(** The props of a later render of a parent that passes no [config]:
    the default object of that render. *)
Definition defaultProps (render : nat) : UI.Props :=
  {| UI.config := {| apiKey := None; model := None; temperature := None |};
     UI.configId := render; UI.explainMode := false |}.

(** The component after its first render, with a key in the
    environment. *)
Definition mounted (p : UI.Props) : UI.Component :=
  UI.mount Samples.quietWorld p (Some "AIzaSy-0123456789abcdefghij").

(** The same after [ls] and [pwd] were entered. *)
Definition worked (p : UI.Props) : UI.Component :=
  snd (UI.interact Samples.quietWorld (fun _ => "0.5")
         [UI.Type_ "ls"; UI.Press UI.enter UI.idle;
          UI.Type_ "pwd"; UI.Press UI.enter UI.idle]
         (mounted p)).

End Scenes.

(** ** Ways of speaking about the requests sent to the Gemini client *)

Module Requests.
Import Utils Terminal Effects.

Definition isStream (e : event) : bool :=
  match e with GenerateContentStream _ _ => true | _ => false end.

(** The key the constructor works with: [config.apiKey ||
    process.env.GEMINI_API_KEY]. *)
Definition startKey (cfg : TerminalConfig) (env : option string) : option string :=
  match apiKey cfg with
  | Some k => if JS.truthy k then Some k else env
  | None => env
  end.

(** The text model is the one built from the configuration and the key
    of the client, or there is neither. *)
Definition fromConfig (cfg : TerminalConfig) (s : State) : Prop :=
  config s = cfg /\ t_model s = option_map (modelFor cfg) (genAI s).

Definition keepsConfig (cfg : TerminalConfig) (s s' : State) : Prop :=
  fromConfig cfg s -> fromConfig cfg s'.

Definition imageTypes : list string :=
  ["image/jpeg"; "image/png"; "image/gif"; "image/webp"].

(** An image request goes to [gemini-1.5-flash], without generation
    settings, with the fixed prompt and one of the four image types. *)
Definition imageRequestOk (e : event) : bool :=
  match e with
  | GenerateContentImage m _ mimeType prompt =>
      String.eqb (gm_model m) "gemini-1.5-flash"
      && match gm_temperature m with None => true | Some _ => false end
      && existsb (String.eqb mimeType) imageTypes
      && String.eqb prompt visionPrompt
  | _ => true
  end.

(** What [path.extname] returns: nothing, or an extension with its dot. *)
Definition dotted (w : World) : Prop :=
  forall p, extname w p = EmptyString \/ exists r, extname w p = String "." r.

End Requests.
(** * Properties *)

(** ** Session history ([TerminalHistory]) *)

Module HistoryFacts.
Import Utils HistoryOps.

Lemma arrayGet_in_bounds {A : Type} (l : list A) (i : Z) :
  0 <= i < Z.of_nat (List.length l) -> exists x, JS.arrayGet l i = Some x.
Proof.
  intros [Hlo Hhi]. unfold JS.arrayGet.
  apply Z.leb_le in Hlo. rewrite Hlo.
  destruct (nth_error l (Z.to_nat i)) as [x|] eqn:E; [now exists x|].
  apply nth_error_None in E. apply Z.leb_le in Hlo. lia.
Qed.

Lemma cursor_in_range_new : cursor_in_range newTerminalHistory.
Proof. unfold cursor_in_range, len; simpl; lia. Qed.

Lemma step_keeps_range (o : op) (h : TerminalHistory) :
  cursor_in_range h ->
  (exists a, fst (step o h) = Normal a) /\ cursor_in_range (snd (step o h)).
Proof.
  unfold cursor_in_range, len. intros Hinv.
  destruct o as [c out t| | | |]; simpl.
  - split; [now eexists|]. rewrite length_app; simpl. lia.
  - unfold getPrevious. destruct (0 <? currentIndex h) eqn:E.
    + apply Z.ltb_lt in E. unfold commandAt; simpl.
      destruct (arrayGet_in_bounds (history h) (currentIndex h - 1)) as [x Hx];
        [lia|]. rewrite Hx; simpl. split; [now eexists|lia].
    + simpl. split; [now eexists|lia].
  - unfold getNext, len. destruct (currentIndex h <? _) eqn:E.
    + apply Z.ltb_lt in E. unfold commandAt; simpl.
      destruct (arrayGet_in_bounds (history h) (currentIndex h + 1)) as [x Hx];
        [lia|]. rewrite Hx; simpl. split; [now eexists|lia].
    + simpl. split; [now eexists|lia].
  - split; [now eexists|lia].
  - split; [now eexists|simpl; lia].
Qed.

Lemma run_keeps_range (ops : list op) :
  forall h, cursor_in_range h ->
    (exists l, fst (run ops h) = Normal l) /\ cursor_in_range (snd (run ops h)).
Proof.
  induction ops as [|o rest IH]; intros h Hinv; simpl.
  - split; [now eexists|assumption].
  - destruct (step_keeps_range o h Hinv) as [[a Ha] Hs].
    destruct (step o h) as [r h'] eqn:E; simpl in *. subst r.
    destruct (IH h' Hs) as [[l Hl] Hr].
    destruct (run rest h') as [r2 h2]; simpl in *. subst r2.
    split; [now eexists|assumption].
Qed.

(** *** Recall over a history of any length *)

Lemma run_app (a b : list op) (h : TerminalHistory) :
  run (a ++ b) h
  = match run a h with
    | (Normal l, h') => let (r, h'') := run b h' in (mapC (app l) r, h'')
    | (Throw t, h') => (Throw t, h')
    end.
Proof.
  revert h. induction a as [|o a IH]; intros h; simpl.
  - destruct (run b h) as [[l|t] h']; reflexivity.
  - destruct (step o h) as [[x|t] h1]; [|reflexivity].
    rewrite IH. destruct (run a h1) as [[l|t] h2]; [|reflexivity].
    destruct (run b h2) as [[l2|t] h3]; reflexivity.
Qed.

Lemma addAll_spec (cs : list (string * string * Z)) :
  forall h,
    history (addAll cs h) = (history h ++ map itemOf cs)%list /\
    (cs <> [] -> currentIndex (addAll cs h) = len (addAll cs h)).
Proof.
  induction cs as [|x cs IH]; intros h; simpl.
  - split; [now rewrite app_nil_r|congruence].
  - destruct (IH (add (fst (fst x)) (snd (fst x)) (snd x) h)) as [Hh Hc].
    split.
    + rewrite Hh. simpl. now rewrite <- app_assoc.
    + intros _. destruct cs as [|y cs]; [reflexivity|].
      apply Hc. discriminate.
Qed.

Lemma firstn_succ {A : Type} (l : list A) (k : nat) (x : A) :
  nth_error l k = Some x -> firstn (S k) l = (firstn k l ++ [x])%list.
Proof.
  revert k. induction l as [|y l IH]; intros [|k] H; simpl in *; try discriminate.
  - now inversion H.
  - now rewrite (IH k H).
Qed.

Lemma skipn_nth {A : Type} (l : list A) (k : nat) (x : A) :
  nth_error l k = Some x -> skipn k l = x :: skipn (S k) l.
Proof.
  revert k. induction l as [|y l IH]; intros [|k] H; simpl in *; try discriminate.
  - now inversion H.
  - now apply IH.
Qed.

Lemma arrayGet_nat {A : Type} (l : list A) (k : nat) :
  JS.arrayGet l (Z.of_nat k) = nth_error l k.
Proof.
  unfold JS.arrayGet. replace (0 <=? Z.of_nat k) with true
    by (symmetry; apply Z.leb_le; lia).
  now rewrite Nat2Z.id.
Qed.

(** From cursor [k], [k] calls to [getPrevious] return the first [k]
    commands, last first, and leave the cursor at the start. *)
Lemma previous_k (items : list HistoryItem) (k : nat) :
  (k <= List.length items)%nat ->
  run (repeat OpGetPrevious k) {| history := items; currentIndex := Z.of_nat k |}
  = (Normal (map recalled (rev (map command (firstn k items)))),
     {| history := items; currentIndex := 0 |}).
Proof.
  induction k as [|k IH]; intros Hk; [reflexivity|].
  destruct (nth_error items k) as [x|] eqn:Hx;
    [|apply nth_error_None in Hx; lia].
  cbn [repeat run step]. unfold getPrevious. cbn [currentIndex history].
  replace (0 <? Z.of_nat (S k)) with true by (symmetry; apply Z.ltb_lt; lia).
  replace (Z.of_nat (S k) - 1) with (Z.of_nat k) by lia.
  unfold commandAt. cbn [currentIndex history]. rewrite arrayGet_nat, Hx.
  cbn [mapC]. rewrite IH by lia.
  rewrite (firstn_succ _ _ _ Hx), map_app, rev_app_distr. reflexivity.
Qed.

(** From cursor [i], the calls to [getNext] return the commands after
    position [i] in order and then the empty string, leaving the cursor
    past the end. *)
Lemma next_k (items : list HistoryItem) (j : nat) :
  forall i : nat,
    (i + j + 1 = List.length items)%nat ->
    run (repeat OpGetNext (S j)) {| history := items; currentIndex := Z.of_nat i |}
    = (Normal (map recalled (map command (skipn (S i) items) ++ [EmptyString])),
       {| history := items; currentIndex := Z.of_nat (List.length items) |}).
Proof.
  induction j as [|j IH]; intros i Hij.
  - cbn [repeat run step]. unfold getNext, len. cbn [currentIndex history].
    replace (Z.of_nat i <? Z.of_nat (List.length items) - 1) with false
      by (symmetry; apply Z.ltb_ge; lia).
    rewrite skipn_all2 by lia. reflexivity.
  - destruct (nth_error items (S i)) as [x|] eqn:Hx;
      [|apply nth_error_None in Hx; lia].
    change (repeat OpGetNext (S (S j))) with (OpGetNext :: repeat OpGetNext (S j)).
    cbn [run step]. unfold getNext, len. cbn [currentIndex history].
    replace (Z.of_nat i <? Z.of_nat (List.length items) - 1) with true
      by (symmetry; apply Z.ltb_lt; lia).
    replace (Z.of_nat i + 1) with (Z.of_nat (S i)) by lia.
    unfold commandAt. cbn [currentIndex history]. rewrite arrayGet_nat, Hx.
    cbn [mapC]. rewrite (IH (S i)) by lia.
    rewrite (skipn_nth _ _ _ Hx). reflexivity.
Qed.

(** After any non-empty sequence of appends to an empty history, as many
    calls to [getPrevious] and then as many to [getNext] return the
    commands last to first, then second to last, then the empty string. *)
Lemma recall_all (cs : list (string * string * Z)) :
  cs <> [] ->
  run (repeat OpGetPrevious (List.length cs) ++ repeat OpGetNext (List.length cs))
      (addAll cs newTerminalHistory)
  = (Normal (map recalled (rev (map (fun x => fst (fst x)) cs)
                           ++ tl (map (fun x => fst (fst x)) cs)
                           ++ [EmptyString])),
     addAll cs newTerminalHistory).
Proof.
  intros Hne.
  destruct (addAll_spec cs newTerminalHistory) as [Hh Hc].
  specialize (Hc Hne). simpl in Hh.
  assert (Hcmd : map command (map itemOf cs) = map (fun x => fst (fst x)) cs).
  { rewrite map_map. reflexivity. }
  assert (Hlen : List.length (map itemOf cs) = List.length cs) by apply length_map.
  destruct (addAll cs newTerminalHistory) as [items idx] eqn:E.
  simpl in Hh, Hc. unfold len in Hc. simpl in Hc. subst items idx.
  rewrite Hlen, run_app, previous_k by lia.
  destruct cs as [|x cs]; [now destruct Hne|].
  cbn [List.length] in *.
  pose proof (next_k (map itemOf (x :: cs)) (List.length cs) 0) as Hn.
  change (Z.of_nat 0) with 0 in Hn.
  rewrite Hn by (rewrite Hlen; simpl; lia).
  cbn [mapC]. rewrite <- Hlen, firstn_all, Hcmd.
  cbn [skipn map tl]. rewrite !map_app, !map_map. reflexivity.
Qed.

(** C1.  Three commands are appended to an empty history (whatever their
    outputs and timestamps); three calls to [getPrevious] then return
    the third, second and first command, and three calls to [getNext]
    return the second command, the third command and the empty string,
    leaving the cursor past the end. *)
Theorem recall_three_previous_then_next
    (c1 o1 c2 o2 c3 o3 : string) (t1 t2 t3 : Z) :
  let h3 := add c3 o3 t3 (add c2 o2 t2 (add c1 o1 t1 newTerminalHistory)) in
  run [OpGetPrevious; OpGetPrevious; OpGetPrevious;
       OpGetNext; OpGetNext; OpGetNext] h3
  = (Normal [Recalled (Some c3); Recalled (Some c2); Recalled (Some c1);
             Recalled (Some c2); Recalled (Some c3);
             Recalled (Some EmptyString)],
     h3).
Proof.
  intros h3. subst h3.
  apply (recall_all [(c1, o1, t1); (c2, o2, t2); (c3, o3, t3)]).
  discriminate.
Qed.

(** C10.  The fresh history satisfies [-1 <= currentIndex <= length];
    every operation started in such a state completes without reading
    an undefined entry and ends in such a state; after [add] the history
    is non-empty with [currentIndex >= 0]; the entries that [getPrevious]
    and [getNext] read exist; so every sequence of operations on a fresh
    history runs to its end without an exception. *)
Theorem cursor_stays_in_range :
  cursor_in_range newTerminalHistory /\
  (forall (o : op) (h : TerminalHistory),
      cursor_in_range h ->
      (exists a, fst (step o h) = Normal a) /\
      cursor_in_range (snd (step o h)) /\
      (forall c out t, o = OpAdd c out t ->
         history (snd (step o h)) <> [] /\ 0 <= currentIndex (snd (step o h)))) /\
  (forall (h : TerminalHistory),
      cursor_in_range h ->
      (0 < currentIndex h ->
         exists item, JS.arrayGet (history h) (currentIndex h - 1) = Some item) /\
      (currentIndex h < len h - 1 ->
         exists item, JS.arrayGet (history h) (currentIndex h + 1) = Some item)) /\
  (forall ops : list op,
      (exists answers, fst (run ops newTerminalHistory) = Normal answers) /\
      cursor_in_range (snd (run ops newTerminalHistory))).
Proof.
  split; [apply cursor_in_range_new|]. split; [|split].
  - intros o h Hinv. destruct (step_keeps_range o h Hinv) as [Ha Hs].
    split; [assumption|]. split; [assumption|].
    intros c out t ->. simpl. split; [|lia].
    destruct (history h); discriminate.
  - intros h Hinv. unfold cursor_in_range, len in *.
    split; intros H; apply arrayGet_in_bounds; lia.
  - intros ops. apply run_keeps_range, cursor_in_range_new.
Qed.

Lemma cursor_stays_in_range_witness :
  cursor_in_range (add "ls" "a.txt" 0 newTerminalHistory) /\
  (exists a,
      fst (step OpGetPrevious (add "ls" "a.txt" 0 newTerminalHistory)) = Normal a) /\
  cursor_in_range
    (snd (step OpGetPrevious (add "ls" "a.txt" 0 newTerminalHistory))).
Proof.
  assert (Hinv : cursor_in_range (add "ls" "a.txt" 0 newTerminalHistory))
    by (unfold cursor_in_range, len; simpl; lia).
  split; [exact Hinv|].
  pose proof (proj1 (proj2 cursor_stays_in_range) OpGetPrevious _ Hinv) as H.
  split; [exact (proj1 H)|exact (proj1 (proj2 H))].
Defined.

End HistoryFacts.

(** ** The terminal ([AITerminal]) *)

Module TerminalFacts.
Import Utils Terminal Observations.

Lemma truthy_true (s : string) : JS.truthy s = true <-> s <> EmptyString.
Proof. destruct s; simpl; split; congruence. Qed.

Lemma orElse_nonempty (a b : string) : a <> EmptyString -> JS.orElse a b = a.
Proof. intros H. unfold JS.orElse. now apply truthy_true in H; rewrite H. Qed.

Lemma emit_logged (e : event) (s : State) : emit e s = (Normal tt, logged [e] s).
Proof. reflexivity. Qed.

(** *** Shell passthrough *)

Section Shell.
Variable w : World.
Variable cmd : string.
Variable st : State.

Let st' : State := logged [Spawn "sh" ["-c"; cmd]] st.

Lemma shell_exit_zero (stdout stderr : list string) :
  spawn w "sh" ["-c"; cmd] = Closed 0 stdout stderr ->
  executeShellCommand w cmd st
  = (Normal {| success := true;
               output := JS.orElse (JS.trim (String.concat EmptyString stdout))
                                   "Command executed successfully";
               error := None |}, st').
Proof.
  intros H. unfold executeShellCommand, bind. rewrite emit_logged, H. reflexivity.
Qed.

Lemma shell_exit_nonzero (code : Z) (stdout stderr : list string) :
  code <> 0 ->
  spawn w "sh" ["-c"; cmd] = Closed code stdout stderr ->
  executeShellCommand w cmd st
  = (Normal {| success := false;
               output := JS.orElse (JS.trim (String.concat EmptyString stderr))
                           ("Command failed with code " ++ JS.numberToString code);
               error := Some (JS.trim (String.concat EmptyString stderr)) |}, st').
Proof.
  intros Hc H. unfold executeShellCommand, bind. rewrite emit_logged, H.
  apply Z.eqb_neq in Hc. rewrite Hc. reflexivity.
Qed.

Lemma shell_launch_error (message : string) :
  spawn w "sh" ["-c"; cmd] = LaunchError message ->
  executeShellCommand w cmd st
  = (Normal {| success := false; output := "Error: " ++ message;
               error := Some message |}, st').
Proof.
  intros H. unfold executeShellCommand, bind. rewrite emit_logged, H. reflexivity.
Qed.

End Shell.

(** *** The shape of [executeCommand] *)

Section Dispatch.
Variable w : World.
Variable input : string.
Variable st : State.

Let parsed := parseCommand input.
Let full := JS.trim input.

Lemma executeCommand_break (res : CommandResult) (s1 : State) :
  runCase w (p_command parsed) (p_args parsed) full st = (Normal (Break res), s1) ->
  executeCommand w input st
  = (Normal res,
     if success res && JS.truthy (output res)
     then recorded full (output res) (now w) s1 else s1).
Proof.
  intros H. unfold executeCommand, tryCatch, bind.
  fold parsed full. rewrite H.
  destruct (success res && JS.truthy (output res)); reflexivity.
Qed.

Lemma executeCommand_return (res : CommandResult) (s1 : State) :
  runCase w (p_command parsed) (p_args parsed) full st = (Normal (Return res), s1) ->
  executeCommand w input st = (Normal res, s1).
Proof.
  intros H. unfold executeCommand, tryCatch, bind.
  fold parsed full. now rewrite H.
Qed.

Lemma executeCommand_throw (t : thrown) (s1 : State) :
  runCase w (p_command parsed) (p_args parsed) full st = (Throw t, s1) ->
  executeCommand w input st = (Normal (caughtResult t), s1).
Proof.
  intros H. unfold executeCommand, tryCatch, bind.
  fold parsed full. now rewrite H.
Qed.

(** [executeCommand] never throws. *)
Lemma executeCommand_total :
  exists res, fst (executeCommand w input st) = Normal res.
Proof.
  destruct (runCase w (p_command parsed) (p_args parsed) full st)
    as [[[res|res]|t] s1] eqn:E.
  - rewrite (executeCommand_break _ _ E). now eexists.
  - rewrite (executeCommand_return _ _ E). now eexists.
  - rewrite (executeCommand_throw _ _ E). now eexists.
Qed.

(** A line that names no builtin verb is run by the shell, as trimmed. *)
Lemma passthrough_result :
  caseOf (p_command parsed) = CaseDefault ->
  (forall t, spawn w "sh" ["-c"; full] <> SpawnThrows t) ->
  fst (executeCommand w input st) = fst (executeShellCommand w full st).
Proof.
  intros Hcase Hspawn.
  assert (Hrun : runCase w (p_command parsed) (p_args parsed) full st
                 = let (r, s1) := executeShellCommand w full st in
                   match r with
                   | Normal res => (Normal (Break res), s1)
                   | Throw t => (Throw t, s1)
                   end).
  { unfold runCase. rewrite Hcase. unfold bind.
    destruct (executeShellCommand w full st) as [[res|t] s1]; reflexivity. }
  unfold executeShellCommand, bind in *. rewrite emit_logged in *.
  destruct (spawn w "sh" ["-c"; full]) as [code out err|m|t].
  - destruct (code =? 0); [rewrite (executeCommand_break _ _ Hrun)
                          |rewrite (executeCommand_break _ _ Hrun)]; reflexivity.
  - rewrite (executeCommand_break _ _ Hrun); reflexivity.
  - now destruct (Hspawn t).
Qed.

End Dispatch.

(** *** Soliciting the credential *)

Lemma promptForApiKey_spec (w : World) (st : State) :
  let key := JS.trim (question w (promptQuery w)) in
  promptForApiKey w st
  = if negb (JS.truthy key) then
      (Normal None, logged (promptEvents w (noKeyLine w)) st)
    else if Z.of_nat (String.length key) <? 20 then
      (Normal None, logged (promptEvents w (invalidKeyLine w)) st)
    else
      (Normal (Some key), logged (promptEvents w (keySetLine w)) st).
Proof.
  intros key. unfold promptForApiKey. fold key.
  destruct (negb (JS.truthy key));
    [|destruct (Z.of_nat (String.length key) <? 20)];
    unfold bind, logged, promptEvents; simpl;
    repeat rewrite <- app_assoc; reflexivity.
Qed.

Lemma setupAI_spec (w : World) (key : string) (st : State) :
  setupAI w key st = (Normal tt, logged [ConsoleLog (connectedLine w)] (keyed key st)).
Proof. reflexivity. Qed.

Lemma generationCalls_logged (es : list event) (s : State) :
  forallb (fun e => negb (isGeneration e)) es = true ->
  generationCalls (logged es s) = generationCalls s.
Proof.
  intros H. unfold generationCalls, logged; simpl. rewrite filter_app.
  replace (filter isGeneration es) with (@nil event); [now rewrite app_nil_r|].
  induction es as [|e es IH]; [reflexivity|]. simpl in *.
  apply andb_true_iff in H as [He Hes]. destruct (isGeneration e); [discriminate|].
  now apply IH.
Qed.

Section Guard.
Variable w : World.
Variable k : M CommandResult.
Variable st : State.

Let key : string := JS.trim (question w (promptQuery w)).

Lemma withModel_configured (m : GenerativeModel) (res : CommandResult) (s1 : State) :
  t_model st = Some m ->
  k st = (Normal res, s1) ->
  withModel w k st = (Normal (Break res), s1).
Proof.
  intros Hm Hk. unfold withModel, bind, get. rewrite Hm, Hk. reflexivity.
Qed.

Lemma withModel_refused :
  t_model st = None ->
  Z.of_nat (String.length key) < 20 ->
  exists verdict,
    withModel w k st
    = (Normal (Return (noApiKeyResult w)), logged (promptEvents w verdict) st).
Proof.
  intros Hm Hlen. unfold withModel, bind, get. rewrite Hm.
  rewrite promptForApiKey_spec. fold key.
  apply Z.ltb_lt in Hlen. rewrite Hlen.
  destruct (negb (JS.truthy key)); eexists; reflexivity.
Qed.

Lemma withModel_accepted (res : CommandResult) (s1 : State) :
  t_model st = None ->
  20 <= Z.of_nat (String.length key) ->
  k (afterSetup w key st) = (Normal res, s1) ->
  withModel w k st = (Normal (Break res), s1).
Proof.
  intros Hm Hlen Hk. unfold withModel, bind, get. rewrite Hm.
  rewrite promptForApiKey_spec. fold key.
  assert (Ht : JS.truthy key = true).
  { destruct key; [simpl in Hlen; lia|reflexivity]. }
  rewrite Ht. simpl negb. cbv iota.
  apply Z.ltb_ge in Hlen. rewrite Hlen.
  rewrite setupAI_spec. fold (afterSetup w key st). now rewrite Hk.
Qed.

End Guard.

Lemma caseOf_AI (cmd : string) :
  caseOf cmd = CaseAI <-> cmd = "explain" \/ cmd = "generate" \/ cmd = "summarize".
Proof.
  unfold caseOf. split.
  - destruct (String.eqb cmd "help") eqn:E0; [discriminate|].
    destruct (String.eqb cmd "explain") eqn:E1;
      [apply String.eqb_eq in E1; auto|].
    destruct (String.eqb cmd "generate") eqn:E2;
      [apply String.eqb_eq in E2; auto|].
    destruct (String.eqb cmd "summarize") eqn:E3;
      [apply String.eqb_eq in E3; auto|].
    simpl. destruct (String.eqb cmd "vision"); [discriminate|].
    destruct (String.eqb cmd "clear"); [discriminate|].
    destruct (String.eqb cmd EmptyString); discriminate.
  - intros [-> | [-> | ->]]; reflexivity.
Qed.

(** The usage failures of the three text handlers. *)
Lemma handleAICommand_empty (w : World) (cmd : string) (st : State) :
  caseOf cmd = CaseAI ->
  exists res,
    handleAICommand w cmd EmptyString st = (Normal res, st) /\
    success res = false /\
    JS.indexOf (output res) ("Usage: " ++ cmd ++ " <") <> -1.
Proof.
  intros H. apply caseOf_AI in H as [-> | [-> | ->]];
    eexists; (split; [reflexivity|]); split; try reflexivity; vm_compute; discriminate.
Qed.

Lemma generationCalls_afterSetup (w : World) (key : string) (s : State) :
  generationCalls (afterSetup w key s) = generationCalls s.
Proof.
  unfold afterSetup. rewrite generationCalls_logged by reflexivity.
  unfold keyed, generationCalls; simpl. rewrite filter_app.
  rewrite <- app_nil_r. f_equal.
Qed.

(** *** Missing argument *)

Lemma executeCommand_AI_empty (w : World) (input : string) (st : State) :
  caseOf (p_command (parseCommand input)) = CaseAI ->
  p_args (parseCommand input) = EmptyString ->
  exists res s1,
    executeCommand w input st = (Normal res, s1) /\
    success res = false /\
    generationCalls s1 = generationCalls st /\
    (t_model st <> None ->
     handleAICommand w (p_command (parseCommand input)) EmptyString st
     = (Normal res, s1)).
Proof.
  intros Hcase Hargs.
  set (k := handleAICommand w (p_command (parseCommand input)) EmptyString).
  assert (Hrun : runCase w (p_command (parseCommand input))
                         (p_args (parseCommand input)) (JS.trim input) st
                 = withModel w k st).
  { unfold runCase. rewrite Hcase, Hargs. reflexivity. }
  destruct (t_model st) as [m|] eqn:Hm.
  - destruct (handleAICommand_empty w _ st Hcase) as [res [Hk [Hf _]]].
    rewrite (withModel_configured w k st m res st Hm Hk) in Hrun.
    exists res, st. rewrite (executeCommand_break _ _ _ _ _ Hrun), Hf.
    repeat split; auto.
  - destruct (Z.ltb_spec (Z.of_nat (String.length (JS.trim (question w (promptQuery w)))))
                         20) as [Hlt|Hge].
    + destruct (withModel_refused w k st Hm Hlt) as [verdict Hw].
      rewrite Hw in Hrun. exists (noApiKeyResult w), (logged (promptEvents w verdict) st).
      rewrite (executeCommand_return _ _ _ _ _ Hrun).
      repeat split; [apply generationCalls_logged; reflexivity|congruence].
    + destruct (handleAICommand_empty w _
                  (afterSetup w (JS.trim (question w (promptQuery w))) st) Hcase)
        as [res [Hk [Hf _]]].
      rewrite (withModel_accepted w k st res _ Hm Hge Hk) in Hrun.
      exists res, (afterSetup w (JS.trim (question w (promptQuery w))) st).
      rewrite (executeCommand_break _ _ _ _ _ Hrun), Hf.
      repeat split; [apply generationCalls_afterSetup|congruence].
Qed.

(** The handlers behind [executeCommand].  [explain], [generate] and
    [summarize] invoked with an empty argument: the handler returns a failed result whose message spells
    out the usage of the verb, and leaves the state as it was, so the
    text-generation collaborator is not called; the same holds of the
    whole dispatch by [executeCommand], which adds no generation call to
    the trace and returns a failed result (the handler's own, when the
    model is configured). *)
Theorem empty_argument_is_refused (w : World) (st : State) :
  handleAICommand w "explain" EmptyString st
  = (Normal {| success := false;
               output := "Please provide text to explain. Usage: explain <text>";
               error := Some "Missing text" |}, st) /\
  handleAICommand w "generate" EmptyString st
  = (Normal {| success := false;
               output := "Please provide a generation request. Usage: generate <request>";
               error := Some "Missing request" |}, st) /\
  handleAICommand w "summarize" EmptyString st
  = (Normal {| success := false;
               output := "Please provide text to summarize. Usage: summarize <text>";
               error := Some "Missing text" |}, st) /\
  (forall input,
      caseOf (p_command (parseCommand input)) = CaseAI ->
      p_args (parseCommand input) = EmptyString ->
      generationCalls (snd (executeCommand w input st)) = generationCalls st /\
      exists res,
        fst (executeCommand w input st) = Normal res /\
        success res = false /\
        (t_model st <> None ->
         executeCommand w input st
         = handleAICommand w (p_command (parseCommand input)) EmptyString st)).
Proof.
  repeat (split; [reflexivity|]).
  intros input Hcase Hargs.
  destruct (executeCommand_AI_empty w input st Hcase Hargs)
    as [res [s1 [He [Hf [Hg Hh]]]]].
  rewrite He; simpl. split; [assumption|].
  exists res. repeat split; auto. intros Hm. symmetry. now apply Hh.
Qed.

Lemma empty_argument_is_refused_witness :
  caseOf (p_command (parseCommand "explain")) = CaseAI /\
  p_args (parseCommand "explain") = EmptyString /\
  generationCalls (snd (executeCommand Samples.quietWorld "explain" Samples.configured))
  = generationCalls Samples.configured.
Proof.
  split; [reflexivity|]. split; [reflexivity|].
  exact (proj1 (proj2 (proj2 (proj2
           (empty_argument_is_refused Samples.quietWorld Samples.configured)))
           "explain" eq_refl eq_refl)).
Defined.

(** *** Missing image file *)

Lemma handleVision_not_found (w : World) (imagePath : string) (st : State) :
  imagePath <> EmptyString ->
  existsSync w imagePath = false ->
  handleVision w imagePath st
  = (Normal {| success := false;
               output := "Image file not found: " ++ imagePath;
               error := Some "File not found" |},
     logged [ExistsSync imagePath] st).
Proof.
  intros Hne Hex. apply truthy_true in Hne.
  unfold handleVision, tryCatch, bind. rewrite Hne.
  change (negb true) with false. cbv beta iota.
  rewrite emit_logged, Hex. reflexivity.
Qed.

(** C7.  [vision] with a non-empty argument that names no existing file:
    the handler returns the failed result [Image file not found: <path>]
    after asking the file system only; dispatched by [executeCommand] it
    returns a failed result and adds no generation call to the trace. *)
Theorem vision_missing_file (w : World) (imagePath : string) (st : State) :
  imagePath <> EmptyString ->
  existsSync w imagePath = false ->
  handleVision w imagePath st
  = (Normal {| success := false;
               output := "Image file not found: " ++ imagePath;
               error := Some "File not found" |},
     logged [ExistsSync imagePath] st) /\
  generationCalls (snd (handleVision w imagePath st)) = generationCalls st /\
  (forall input,
      p_command (parseCommand input) = "vision" ->
      p_args (parseCommand input) = imagePath ->
      generationCalls (snd (executeCommand w input st)) = generationCalls st /\
      exists res,
        fst (executeCommand w input st) = Normal res /\ success res = false).
Proof.
  intros Hne Hex. split; [now apply handleVision_not_found|].
  split.
  { rewrite (handleVision_not_found w imagePath st Hne Hex); simpl.
    now apply generationCalls_logged. }
  intros input Hcmd Hargs.
  set (k := handleVision w imagePath).
  assert (Hrun : runCase w (p_command (parseCommand input))
                         (p_args (parseCommand input)) (JS.trim input) st
                 = withModel w k st).
  { unfold runCase. rewrite Hcmd, Hargs. reflexivity. }
  destruct (t_model st) as [m|] eqn:Hm.
  - rewrite (withModel_configured w k st m _ _ Hm
               (handleVision_not_found w imagePath st Hne Hex)) in Hrun.
    rewrite (executeCommand_break _ _ _ _ _ Hrun); simpl.
    split; [now apply generationCalls_logged|now eexists].
  - destruct (Z.ltb_spec (Z.of_nat (String.length (JS.trim (question w (promptQuery w)))))
                         20) as [Hlt|Hge].
    + destruct (withModel_refused w k st Hm Hlt) as [verdict Hw].
      rewrite Hw in Hrun. rewrite (executeCommand_return _ _ _ _ _ Hrun); simpl.
      split; [now apply generationCalls_logged|now eexists].
    + rewrite (withModel_accepted w k st _ _ Hm Hge
                 (handleVision_not_found w imagePath _ Hne Hex)) in Hrun.
      rewrite (executeCommand_break _ _ _ _ _ Hrun); simpl.
      split; [|now eexists].
      rewrite generationCalls_logged by reflexivity.
      apply generationCalls_afterSetup.
Qed.

Lemma vision_missing_file_witness :
  handleVision Samples.quietWorld "/does/not/exist.png" Samples.configured
  = (Normal {| success := false;
               output := "Image file not found: /does/not/exist.png";
               error := Some "File not found" |},
     logged [ExistsSync "/does/not/exist.png"] Samples.configured).
Proof.
  refine (proj1 (vision_missing_file Samples.quietWorld "/does/not/exist.png"
                                     Samples.configured _ eq_refl)).
  discriminate.
Defined.

(** *** Missing credential *)




(** *** Which results reach the history *)

Lemma kh_ret {A : Type} (a : A) : keeps_history (ret a).
Proof. now intros s. Qed.

Lemma kh_liftC {A : Type} (c : completion A) : keeps_history (liftC c).
Proof. now intros s. Qed.

Lemma kh_get : keeps_history get.
Proof. now intros s. Qed.

Lemma kh_emit (e : event) : keeps_history (emit e).
Proof. now intros s. Qed.

Lemma kh_bind {A B : Type} (m : M A) (k : A -> M B) :
  keeps_history m -> (forall a, keeps_history (k a)) -> keeps_history (bind m k).
Proof.
  intros Hm Hk s. unfold bind. specialize (Hm s).
  destruct (m s) as [[a|t] s1]; simpl in *; [|assumption].
  now rewrite Hk.
Qed.

Lemma kh_tryCatch {A : Type} (m : M A) (h : thrown -> M A) :
  keeps_history m -> (forall t, keeps_history (h t)) -> keeps_history (tryCatch m h).
Proof.
  intros Hm Hh s. unfold tryCatch. specialize (Hm s).
  destruct (m s) as [[a|t] s1]; simpl in *; [assumption|].
  now rewrite Hh.
Qed.

Ltac keeps :=
  repeat (intros;
          match goal with
          | |- keeps_history (bind _ _) => apply kh_bind
          | |- keeps_history (tryCatch _ _) => apply kh_tryCatch
          | |- keeps_history (ret _) => apply kh_ret
          | |- keeps_history (liftC _) => apply kh_liftC
          | |- keeps_history get => apply kh_get
          | |- keeps_history (emit _) => apply kh_emit
          | |- keeps_history (consoleLog _) => apply kh_emit
          | |- keeps_history (if ?b then _ else _) => destruct b
          | |- keeps_history (match ?x with _ => _ end) => destruct x
          end).

Lemma kh_callGeminiAPI (w : World) (prompt : string) :
  keeps_history (callGeminiAPI w prompt).
Proof. unfold callGeminiAPI. keeps. Qed.

Lemma kh_handleAICommand (w : World) (cmd args : string) :
  keeps_history (handleAICommand w cmd args).
Proof.
  unfold handleAICommand, handleExplain, handleGenerate, handleSummarize.
  keeps; apply kh_callGeminiAPI.
Qed.

Lemma kh_handleVision (w : World) (imagePath : string) :
  keeps_history (handleVision w imagePath).
Proof. unfold handleVision. keeps. Qed.

Lemma kh_executeShellCommand (w : World) (cmd : string) :
  keeps_history (executeShellCommand w cmd).
Proof. unfold executeShellCommand. keeps. Qed.

Lemma kh_consoleLogAll (lines : list string) : keeps_history (consoleLogAll lines).
Proof.
  induction lines as [|l rest IH]; [apply kh_ret|].
  change (keeps_history (bind (consoleLog l) (fun _ => consoleLogAll rest))).
  apply kh_bind; [apply kh_emit|intros _; exact IH].
Qed.

Lemma kh_promptForApiKey (w : World) : keeps_history (promptForApiKey w).
Proof. unfold promptForApiKey. keeps. apply kh_consoleLogAll. Qed.

Lemma kh_setupAI (w : World) (key : string) : keeps_history (setupAI w key).
Proof. now intros s. Qed.

Lemma kh_withModel (w : World) (k : M CommandResult) :
  keeps_history k -> keeps_history (withModel w k).
Proof.
  intros Hk. unfold withModel. keeps; try assumption.
  - apply kh_promptForApiKey.
  - apply kh_setupAI.
Qed.

Lemma kh_runCase (w : World) (cmd args full : string) :
  caseOf cmd <> CaseClear -> keeps_history (runCase w cmd args full).
Proof.
  intros Hc. unfold runCase. destruct (caseOf cmd); try congruence; keeps.
  - apply kh_withModel, kh_handleAICommand.
  - apply kh_withModel, kh_handleVision.
  - apply kh_executeShellCommand.
Qed.

Lemma runCase_clear (w : World) (cmd args full : string) (st : State) :
  caseOf cmd = CaseClear ->
  exists s1,
    runCase w cmd args full st
    = (Normal (Break {| success := true; output := "Terminal cleared.";
                        error := None |}), s1) /\
    entries s1 = [].
Proof.
  intros Hc. unfold runCase. rewrite Hc. eexists. split; reflexivity.
Qed.

Lemma entries_unless_clear (w : World) (input : string) (st : State) :
  caseOf (p_command (parseCommand input)) <> CaseClear ->
  exists res,
    fst (executeCommand w input st) = Normal res /\
    entries (snd (executeCommand w input st))
    = if success res && JS.truthy (output res)
      then (entries st ++ [{| command := JS.trim input;
                              item_output := output res;
                              timestamp := now w |}])%list
      else entries st.
Proof.
  intros Hc.
  pose proof (kh_runCase w _ (p_args (parseCommand input)) (JS.trim input) Hc st)
    as Hk.
  destruct (runCase w (p_command (parseCommand input))
              (p_args (parseCommand input)) (JS.trim input) st)
    as [[[res|res]|t] s1] eqn:E; simpl in Hk.
  - rewrite (executeCommand_break _ _ _ _ _ E). exists res.
    split; [reflexivity|]. simpl snd.
    destruct (success res && JS.truthy (output res));
      unfold entries, recorded; simpl; now rewrite Hk.
  - (* only the refusal for want of a key returns early: it is a failure *)
    assert (Hf : success res = false).
    { unfold runCase in E.
      destruct (caseOf (p_command (parseCommand input)));
        unfold withModel, bind, get, ret in E;
        repeat match type of E with
               | context [let (_, _) := ?m in _] => destruct m as [[?|?] ?]
               | context [match ?x with _ => _ end] => destruct x
               end; try discriminate; now inversion E. }
    rewrite (executeCommand_return _ _ _ _ _ E). exists res.
    split; [reflexivity|]. rewrite Hf. simpl. unfold entries. now rewrite Hk.
  - rewrite (executeCommand_throw _ _ _ _ _ E). eexists.
    split; [reflexivity|]. simpl. unfold entries. now rewrite Hk.
Qed.

Lemma entries_after_clear (w : World) (input : string) (st : State) :
  caseOf (p_command (parseCommand input)) = CaseClear ->
  exists res,
    fst (executeCommand w input st) = Normal res /\
    success res && JS.truthy (output res) = true /\
    entries (snd (executeCommand w input st))
    = [{| command := JS.trim input; item_output := output res;
          timestamp := now w |}].
Proof.
  intros Hc.
  destruct (runCase_clear w _ (p_args (parseCommand input)) (JS.trim input) st Hc)
    as [s1 [E H1]].
  rewrite (executeCommand_break _ _ _ _ _ E). eexists.
  split; [reflexivity|]. split; [reflexivity|].
  simpl. unfold entries in *. simpl. now rewrite H1.
Qed.

(** C3 (as amended).  [executeCommand] always returns a result, and it
    appends one entry (the trimmed input line, the output, the time) to
    the history exactly when the result succeeded and its output is not
    empty; otherwise the history is left alone ([clear] empties it
    first).  The test is made by [executeCommand]: [add] itself appends
    whatever output it is given. *)
Theorem history_entry_iff_success_and_output
    (w : World) (input : string) (st : State) :
  (exists res,
      fst (executeCommand w input st) = Normal res /\
      let base :=
        match caseOf (p_command (parseCommand input)) with
        | CaseClear => []
        | _ => entries st
        end in
      entries (snd (executeCommand w input st))
      = if success res && JS.truthy (output res)
        then (base ++ [{| command := JS.trim input;
                          item_output := output res;
                          timestamp := now w |}])%list
        else base) /\
  (forall cmd out t h,
      history (add cmd out t h)
      = (history h ++ [{| command := cmd; item_output := out;
                          timestamp := t |}])%list).
Proof.
  split; [|reflexivity].
  destruct (caseOf (p_command (parseCommand input))) eqn:Hc.
  4: { destruct (entries_after_clear w input st Hc) as [res [H1 [H2 H3]]].
       exists res. split; [assumption|]. cbv zeta. now rewrite H2, H3. }
  all: apply entries_unless_clear; rewrite Hc; discriminate.
Qed.


(** C3: the claim as first stated fails.  A shell command that exits
    with code 7 and prints nothing yields a result with a non-empty output,
    and no entry is created for it; and [add] with an empty output does
    create an entry. *)
Lemma failed_result_is_not_logged :
  executeCommand (Samples.withSpawn (Closed 7 [] []) Samples.quietWorld)
                 "exit 7" Samples.unconfigured
  = (Normal {| success := false; output := "Command failed with code 7";
               error := Some EmptyString |},
     logged [Spawn "sh" ["-c"; "exit 7"]] Samples.unconfigured) /\
  "Command failed with code 7" <> EmptyString /\
  entries (logged [Spawn "sh" ["-c"; "exit 7"]] Samples.unconfigured) = [] /\
  history (add "ls" EmptyString 0 newTerminalHistory)
  = [{| command := "ls"; item_output := EmptyString; timestamp := 0 |}].
Proof. repeat split; discriminate. Qed.

(** C5 (as amended).  The result of a shell passthrough: exit code 0
    gives a successful result whose output is the trimmed standard output,
    or the fixed success message when that is empty; another exit code
    gives a failed result whose output is the trimmed standard error, or
    [Command failed with code N] when that is empty; a launch failure
    gives a failed result whose output is [Error: ] followed by the launch
    error's message, the message itself being the error detail. *)
Theorem shell_result_mapping (w : World) (cmd : string) (st : State) :
  (forall stdout stderr,
      spawn w "sh" ["-c"; cmd] = Closed 0 stdout stderr ->
      exists res,
        fst (executeShellCommand w cmd st) = Normal res /\
        success res = true /\
        let out := JS.trim (String.concat EmptyString stdout) in
        (out <> EmptyString -> output res = out) /\
        (out = EmptyString -> output res = "Command executed successfully")) /\
  (forall code stdout stderr,
      code <> 0 ->
      spawn w "sh" ["-c"; cmd] = Closed code stdout stderr ->
      exists res,
        fst (executeShellCommand w cmd st) = Normal res /\
        success res = false /\
        let err := JS.trim (String.concat EmptyString stderr) in
        (err <> EmptyString -> output res = err) /\
        (err = EmptyString ->
         output res = "Command failed with code " ++ JS.numberToString code)) /\
  (forall message,
      spawn w "sh" ["-c"; cmd] = LaunchError message ->
      exists res,
        fst (executeShellCommand w cmd st) = Normal res /\
        success res = false /\
        output res = "Error: " ++ message /\
        error res = Some message) /\
  (forall input,
      caseOf (p_command (parseCommand input)) = CaseDefault ->
      JS.trim input = cmd ->
      (forall t, spawn w "sh" ["-c"; cmd] <> SpawnThrows t) ->
      fst (executeCommand w input st) = fst (executeShellCommand w cmd st)).
Proof.
  split; [|split; [|split]].
  - intros stdout stderr H. rewrite (shell_exit_zero _ _ _ _ _ H).
    eexists; split; [reflexivity|]. split; [reflexivity|]. simpl. split.
    + intros Hne. now apply orElse_nonempty.
    + intros ->. reflexivity.
  - intros code stdout stderr Hc H. rewrite (shell_exit_nonzero _ _ _ _ _ _ Hc H).
    eexists; split; [reflexivity|]. split; [reflexivity|]. simpl. split.
    + intros Hne. now apply orElse_nonempty.
    + intros ->. reflexivity.
  - intros message H. rewrite (shell_launch_error _ _ _ _ H).
    eexists; repeat split.
  - intros input Hcase <- Hs. now apply passthrough_result.
Qed.

Lemma shell_result_mapping_witness :
  exists res,
    fst (executeShellCommand (Samples.withSpawn (Closed 7 [] []) Samples.quietWorld)
                             "exit 7" Samples.unconfigured) = Normal res /\
    success res = false /\
    output res = "Command failed with code 7".
Proof.
  destruct (proj1 (proj2 (shell_result_mapping
                            (Samples.withSpawn (Closed 7 [] []) Samples.quietWorld)
                            "exit 7" Samples.unconfigured))
              7 [] [] ltac:(discriminate) eq_refl)
    as [res [H1 [H2 [_ H3]]]].
  exists res. split; [exact H1|]. split; [exact H2|]. exact (H3 eq_refl).
Defined.

(** C5: the claim as first stated fails at a launch failure.  When the
    interpreter cannot be started the output is not the launch error's
    message: it is that message behind the prefix [Error: ]. *)
Lemma launch_error_output_has_prefix :
  fst (executeShellCommand
         (Samples.withSpawn (LaunchError "spawn sh ENOENT") Samples.quietWorld)
         "ls" Samples.unconfigured)
  = Normal {| success := false; output := "Error: spawn sh ENOENT";
              error := Some "spawn sh ENOENT" |} /\
  "Error: spawn sh ENOENT" <> "spawn sh ENOENT".
Proof. split; [reflexivity|discriminate]. Qed.

(** *** Streaming against blocking *)






(** The streaming entry point has a guard of its own: with no model it
    yields one error fragment and asks nothing. *)
Lemma streaming_unconfigured (w : World) (input : string) (st : State) :
  caseOf (p_command (parseCommand input)) = CaseAI ->
  t_model st = None ->
  streamResponse w input st
  = (Normal ["Error: AI not initialized. Use an AI command to set up API key."],
     st).
Proof.
  intros Hc Hm. unfold streamResponse.
  assert (Hin : includes streamingVerbs (p_command (parseCommand input)) = true).
  { apply caseOf_AI in Hc as [-> | [-> | ->]]; reflexivity. }
  rewrite Hin. change (negb true) with false. cbv iota.
  unfold bind, get. now rewrite Hm.
Qed.


End TerminalFacts.

(** ** Strings: the primitives the router is built from *)

Module StringFacts.
Import JS.

Lemma isSpace_iff (c : ascii) : isSpace c = true <-> c = SP.
Proof.
  unfold isSpace, code. rewrite N.eqb_eq. split.
  - intros H. rewrite <- (ascii_N_embedding c), H. reflexivity.
  - intros ->. reflexivity.
Qed.

Lemma prefix_space (s : string) :
  prefix " " s = match s with
                 | EmptyString => false
                 | String c _ => isSpace c
                 end.
Proof.
  destruct s as [|c r]; [reflexivity|]. cbn [prefix].
  destruct (ascii_dec " " c) as [<-|Hne].
  - now destruct r.
  - destruct (isSpace c) eqn:E; [|reflexivity].
    apply isSpace_iff in E. subst c. now destruct Hne.
Qed.

Lemma indexOfFrom_absent (s : string) :
  forall i, occurs isSpace s = false -> indexOfFrom i " " s = -1.
Proof.
  induction s as [|c r IH]; intros i H; [reflexivity|].
  simpl in H. apply orb_false_iff in H as [Hc Hr].
  change (indexOfFrom i " " (String c r))
    with (if prefix " " (String c r) then i else indexOfFrom (i + 1) " " r).
  rewrite prefix_space, Hc. now apply IH.
Qed.

Lemma indexOfFrom_found (pre post : string) :
  forall i, occurs isSpace pre = false ->
    indexOfFrom i " " (pre ++ String SP post) = i + Z.of_nat (String.length pre).
Proof.
  induction pre as [|c r IH]; intros i H.
  - change (indexOfFrom i " " (EmptyString ++ String SP post))
      with (if prefix " " (String SP post) then i
            else indexOfFrom (i + 1) " " post).
    rewrite prefix_space. change (isSpace SP) with true. simpl. lia.
  - simpl in H. apply orb_false_iff in H as [Hc Hr].
    change (indexOfFrom i " " (String c r ++ String SP post))
      with (if prefix " " (String c (r ++ String SP post)) then i
            else indexOfFrom (i + 1) " " (r ++ String SP post)).
    rewrite prefix_space, Hc, IH by assumption.
    simpl String.length. lia.
Qed.

Lemma length_append (a b : string) :
  String.length (a ++ b) = (String.length a + String.length b)%nat.
Proof. induction a; simpl; congruence. Qed.

Lemma substring_all (s : string) : String.substring 0 (String.length s) s = s.
Proof. induction s; simpl; congruence. Qed.

Lemma substring_head (pre rest : string) :
  String.substring 0 (String.length pre) (pre ++ rest) = pre.
Proof.
  induction pre as [|c r IH]; simpl; [now destruct rest|congruence].
Qed.

Lemma substring_tail (pre rest : string) :
  String.substring (String.length pre) (String.length rest) (pre ++ rest) = rest.
Proof.
  induction pre as [|c r IH]; simpl; [apply substring_all|assumption].
Qed.

Lemma js_substring_head (pre : string) (c : ascii) (post : string) :
  substring (pre ++ String c post) 0 (Some (Z.of_nat (String.length pre))) = pre.
Proof.
  unfold substring, clamp. rewrite length_append. simpl String.length.
  replace (Z.to_nat (Z.min _ _)) with 0%nat by lia.
  replace (Z.to_nat (_ - _)) with (String.length pre) by lia.
  apply substring_head.
Qed.

Lemma js_substring_tail (pre : string) (c : ascii) (post : string) :
  substring (pre ++ String c post) (Z.of_nat (String.length pre) + 1) None = post.
Proof.
  unfold substring, clamp. rewrite length_append. simpl String.length.
  replace (Z.to_nat (Z.min _ _)) with (String.length (pre ++ String c EmptyString)).
  2:{ rewrite length_append; simpl; lia. }
  replace (Z.to_nat (_ - _)) with (String.length post) by lia.
  replace (pre ++ String c post) with ((pre ++ String c EmptyString) ++ post).
  2:{ clear. induction pre; simpl; congruence. }
  apply substring_tail.
Qed.

(** Character classes: a line break or a space is white space, and
    lower-casing maps no code unit into or out of white space. *)
Lemma lineBreak_isWhiteSpace (c : ascii) :
  isLineBreak c = true -> isWhiteSpace c = true.
Proof.
  destruct c as [[] [] [] [] [] [] [] []]; vm_compute; congruence.
Qed.

Lemma space_isWhiteSpace (c : ascii) : isSpace c = true -> isWhiteSpace c = true.
Proof. intros H. apply isSpace_iff in H. now subst c. Qed.

Lemma toLowerUnit_whiteSpace (c : ascii) :
  isWhiteSpace (toLowerUnit c) = isWhiteSpace c.
Proof.
  destruct c as [[] [] [] [] [] [] [] []]; vm_compute; reflexivity.
Qed.

Lemma occurs_weaken (p q : ascii -> bool) (s : string) :
  (forall c, p c = true -> q c = true) ->
  occurs q s = false -> occurs p s = false.
Proof.
  intros Hpq. induction s as [|c r IH]; simpl; [reflexivity|].
  intros H. apply orb_false_iff in H as [Hc Hr].
  rewrite (IH Hr), orb_false_r.
  destruct (p c) eqn:E; [|reflexivity]. apply Hpq in E. congruence.
Qed.

Lemma occurs_toLowerCase (s : string) :
  occurs isWhiteSpace (toLowerCase s) = occurs isWhiteSpace s.
Proof.
  induction s as [|c r IH]; simpl; [reflexivity|].
  now rewrite toLowerUnit_whiteSpace, IH.
Qed.

(** *** Replacing line breaks *)

Lemma replaceLineBreaks_clean (s : string) :
  forall f, occurs isLineBreak (replaceLineBreaks f s) = false.
Proof.
  induction s as [|c r IH]; intros f; simpl; [reflexivity|].
  destruct (isLineBreak c) eqn:E.
  - destruct f; simpl; now rewrite IH.
  - simpl. now rewrite E, IH.
Qed.

Lemma replaceLineBreaks_id (s : string) :
  forall f, occurs isLineBreak s = false -> replaceLineBreaks f s = s.
Proof.
  induction s as [|c r IH]; intros f H; simpl in *; [reflexivity|].
  apply orb_false_iff in H as [Hc Hr]. rewrite Hc. now rewrite IH.
Qed.

(** Past a prefix with no line break, replacement starts afresh. *)
Lemma replaceLineBreaks_after (c : ascii) (pre rest : string) :
  forall f, occurs isLineBreak (String c pre) = false ->
    replaceLineBreaks f (String c pre ++ rest)
    = String c pre ++ replaceLineBreaks false rest.
Proof.
  revert c. induction pre as [|d r IH]; intros c f H; simpl in H.
  - apply orb_false_iff in H as [Hc _]. simpl. now rewrite Hc.
  - apply orb_false_iff in H as [Hc Hr].
    change (String c (String d r) ++ rest) with (String c (String d r ++ rest)).
    cbn [replaceLineBreaks]. rewrite Hc.
    change (String c (String d r) ++ replaceLineBreaks false rest)
      with (String c (String d r ++ replaceLineBreaks false rest)).
    f_equal. apply IH. exact Hr.
Qed.

(** A run of line breaks between two other code units becomes one space. *)
Lemma replaceLineBreaks_run (run : string) (d : ascii) (rest : string) :
  occurs (fun c => negb (isLineBreak c)) run = false ->
  isLineBreak d = false ->
  replaceLineBreaks true (run ++ String d rest)
  = String d (replaceLineBreaks false rest) /\
  (run <> EmptyString ->
   replaceLineBreaks false (run ++ String d rest)
   = String SP (String d (replaceLineBreaks false rest))).
Proof.
  intros Hrun Hd.
  assert (Ht : replaceLineBreaks true (run ++ String d rest)
               = String d (replaceLineBreaks false rest)).
  { induction run as [|c r IH]; simpl in *; [now rewrite Hd|].
    apply orb_false_iff in Hrun as [Hc Hr].
    apply negb_false_iff in Hc. rewrite Hc. now apply IH. }
  split; [exact Ht|]. intros Hne.
  destruct run as [|c r]; [now destruct Hne|]. simpl in *.
  apply orb_false_iff in Hrun as [Hc Hr]. apply negb_false_iff in Hc.
  rewrite Hc in *. now rewrite Ht.
Qed.

(** *** Trimming *)

Lemma trimEnd_cons (c : ascii) (r : string) :
  trimEnd (String c r)
  = match trimEnd r with
    | EmptyString => if isWhiteSpace c then EmptyString else String c EmptyString
    | String d e => String c (String d e)
    end.
Proof. reflexivity. Qed.

Lemma trimEnd_solid (s : string) :
  occurs isWhiteSpace s = false -> trimEnd s = s.
Proof.
  induction s as [|c r IH]; intros H; [reflexivity|].
  simpl in H. apply orb_false_iff in H as [Hc Hr].
  rewrite trimEnd_cons, (IH Hr), Hc. now destruct r.
Qed.

Lemma trimEnd_append (a b : string) :
  trimEnd (a ++ b)
  = match trimEnd b with
    | EmptyString => trimEnd a
    | String d e => a ++ String d e
    end.
Proof.
  induction a as [|c r IH]; [simpl; now destruct (trimEnd b)|].
  change (String c r ++ b) with (String c (r ++ b)).
  rewrite !trimEnd_cons, IH.
  destruct (trimEnd b) as [|d e]; [reflexivity|].
  simpl. now destruct r.
Qed.

Lemma trimStart_trimEnd (s : string) :
  trimStart (trimEnd s) = trimEnd (trimStart s).
Proof.
  induction s as [|c r IH]; [reflexivity|].
  cbn [trimStart]. rewrite trimEnd_cons.
  destruct (isWhiteSpace c) eqn:Hc.
  - rewrite <- IH. destruct (trimEnd r) as [|d e]; [reflexivity|].
    cbn [trimStart]. now rewrite Hc.
  - rewrite trimEnd_cons.
    destruct (trimEnd r) as [|d e]; cbn [trimStart]; now rewrite Hc.
Qed.

Lemma replaceLineBreaks_cons (f : bool) (c : ascii) (r : string) :
  replaceLineBreaks f (String c r)
  = if isLineBreak c
    then (if f then replaceLineBreaks true r
          else String SP (replaceLineBreaks true r))
    else String c (replaceLineBreaks false r).
Proof. reflexivity. Qed.

(** Trailing white space does not survive replacement and trimming. *)
Lemma trimEnd_replace_trimEnd (s : string) :
  forall f,
    trimEnd (replaceLineBreaks f (trimEnd s)) = trimEnd (replaceLineBreaks f s).
Proof.
  induction s as [|c r IH]; intros f; [reflexivity|].
  rewrite trimEnd_cons.
  destruct (trimEnd r) as [|d e] eqn:Er.
  - (* everything after [c] is white space *)
    assert (Hr : forall g, trimEnd (replaceLineBreaks g r) = EmptyString).
    { intros g. now rewrite <- IH. }
    rewrite (replaceLineBreaks_cons f c r).
    destruct (isWhiteSpace c) eqn:Hc.
    + destruct (isLineBreak c); [destruct f|];
        rewrite ?trimEnd_cons, ?Hr, ?Hc; reflexivity.
    + assert (Hl : isLineBreak c = false).
      { destruct (isLineBreak c) eqn:E; [|reflexivity].
        apply lineBreak_isWhiteSpace in E. congruence. }
      rewrite replaceLineBreaks_cons, Hl.
      rewrite !trimEnd_cons, Hr. reflexivity.
  - set (x := String d e) in *.
    rewrite (replaceLineBreaks_cons f c x), (replaceLineBreaks_cons f c r).
    destruct (isLineBreak c); [destruct f|];
      rewrite ?trimEnd_cons, ?IH; reflexivity.
Qed.

Lemma trim_replace_trimEnd (s : string) :
  trim (replaceLineBreaks false (trimEnd s)) = trim (replaceLineBreaks false s).
Proof.
  unfold trim. rewrite <- !trimStart_trimEnd. now rewrite trimEnd_replace_trimEnd.
Qed.

End StringFacts.

(** ** The command router ([sanitizeInput], [parseCommand], the [switch]) *)

Module RouterFacts.
Import Utils Terminal Observations StringFacts.

Lemma parse_without_space (input : string) :
  JS.occurs JS.isSpace (sanitizeInput input) = false ->
  parseCommand input
  = {| p_command := JS.toLowerCase (sanitizeInput input);
       p_args := EmptyString |}.
Proof.
  intros H. unfold parseCommand, JS.indexOf.
  now rewrite (indexOfFrom_absent _ 0 H).
Qed.

Lemma parse_at_first_space (input pre post : string) :
  sanitizeInput input = pre ++ String JS.SP post ->
  JS.occurs JS.isSpace pre = false ->
  parseCommand input
  = {| p_command := JS.toLowerCase pre; p_args := JS.trim post |}.
Proof.
  intros Hs Hpre. unfold parseCommand, JS.indexOf. rewrite Hs.
  rewrite (indexOfFrom_found pre post 0 Hpre). rewrite Z.add_0_l.
  replace (Z.of_nat (String.length pre) =? -1) with false
    by (symmetry; apply Z.eqb_neq; lia).
  now rewrite js_substring_head, js_substring_tail.
Qed.

(** C2 (as amended).  [parseCommand] trims the line, replaces every run
    of line breaks left inside it by one space, and splits the result at
    its first space character (U+0020): what stands before it,
    lower-cased, is the verb, and what stands after it, trimmed, is the
    argument; when the sanitized line holds no space, the verb is the
    whole sanitized line, lower-cased, and the argument is empty. *)
Theorem parseCommand_splits_at_first_space (input : string) :
  sanitizeInput input = JS.replaceLineBreaks false (JS.trim input) /\
  JS.occurs JS.isLineBreak (sanitizeInput input) = false /\
  (forall a c run d b,
      JS.isLineBreak c = false -> JS.isLineBreak d = false ->
      run <> EmptyString ->
      JS.occurs (fun x => negb (JS.isLineBreak x)) run = false ->
      JS.replaceLineBreaks false (String c (run ++ String d b))
      = String c (String JS.SP (JS.replaceLineBreaks false (String d b))) /\
      JS.replaceLineBreaks false (a ++ String c EmptyString)
      = JS.replaceLineBreaks false a ++ String c EmptyString) /\
  (JS.occurs JS.isSpace (sanitizeInput input) = false ->
   parseCommand input
   = {| p_command := JS.toLowerCase (sanitizeInput input);
        p_args := EmptyString |}) /\
  (forall pre post,
      sanitizeInput input = pre ++ String JS.SP post ->
      JS.occurs JS.isSpace pre = false ->
      parseCommand input
      = {| p_command := JS.toLowerCase pre; p_args := JS.trim post |}).
Proof.
  split; [reflexivity|]. split; [apply replaceLineBreaks_clean|].
  split; [|split; [apply parse_without_space|apply parse_at_first_space]].
  intros a c run d b Hc Hd Hne Hrun. split.
  - cbn [JS.replaceLineBreaks]. rewrite Hc. f_equal.
    destruct (replaceLineBreaks_run run d b Hrun Hd) as [_ H].
    rewrite (H Hne). cbn [JS.replaceLineBreaks]. now rewrite Hd.
  - clear -Hc. generalize false.
    induction a as [|x r IH]; intros f; simpl; [now rewrite Hc|].
    destruct (JS.isLineBreak x); [destruct f|]; simpl; now rewrite IH.
Qed.

Lemma parseCommand_splits_at_first_space_witness :
  parseCommand "git  status"
  = {| p_command := "git"; p_args := "status" |}.
Proof.
  exact (proj2 (proj2 (proj2 (proj2
           (parseCommand_splits_at_first_space "git  status"))))
           "git" " status" eq_refl eq_refl).
Defined.

(** C2: the claim as first stated fails when the first white space is
    not a space.  In [ls<TAB>-la] the tab is white space and nothing
    before it is, yet the verb is the whole line and the argument is
    empty, not [ls] and [-la]. *)
Lemma tab_does_not_split :
  sanitizeInput (String "l" (String "s" (String JS.TAB "-la")))
  = "ls" ++ String JS.TAB "-la" /\
  JS.isWhiteSpace JS.TAB = true /\
  JS.occurs JS.isWhiteSpace "ls" = false /\
  parseCommand (String "l" (String "s" (String JS.TAB "-la")))
  = {| p_command := String "l" (String "s" (String JS.TAB "-la"));
       p_args := EmptyString |} /\
  parseCommand (String "l" (String "s" (String JS.TAB "-la")))
  <> {| p_command := JS.toLowerCase "ls"; p_args := JS.trim "-la" |}.
Proof. repeat split; discriminate. Qed.

(** *** Verbs in any capitalisation *)

Lemma builtin_verb_solid (verb : string) :
  In (JS.toLowerCase verb) builtinVerbs ->
  JS.occurs JS.isWhiteSpace verb = false /\ verb <> EmptyString.
Proof.
  intros H. split.
  - rewrite <- occurs_toLowerCase.
    simpl in H. decompose [or] H; try contradiction;
      match goal with E : _ = JS.toLowerCase verb |- _ => rewrite <- E end;
      reflexivity.
  - intros ->. simpl in H. decompose [or] H; try contradiction; discriminate.
Qed.

Lemma parse_verb_argument (verb arg : string) :
  JS.occurs JS.isWhiteSpace verb = false ->
  verb <> EmptyString ->
  parseCommand (verb ++ String JS.SP arg)
  = {| p_command := JS.toLowerCase verb;
       p_args := JS.trim (JS.replaceLineBreaks false arg) |}.
Proof.
  intros Hws Hne.
  assert (Hlb : JS.occurs JS.isLineBreak verb = false)
    by (exact (occurs_weaken _ _ _ lineBreak_isWhiteSpace Hws)).
  assert (Hsp : JS.occurs JS.isSpace verb = false)
    by (exact (occurs_weaken _ _ _ space_isWhiteSpace Hws)).
  destruct verb as [|c v]; [now destruct Hne|].
  assert (Hc : JS.isWhiteSpace c = false).
  { simpl in Hws. now apply orb_false_iff in Hws as [Hc _]. }
  assert (Htrim : JS.trim (String c v ++ String JS.SP arg)
                  = match JS.trimEnd arg with
                    | EmptyString => String c v
                    | String d e => String c v ++ String JS.SP (String d e)
                    end).
  { unfold JS.trim.
    change (String c v ++ String JS.SP arg) with (String c (v ++ String JS.SP arg)).
    cbn [JS.trimStart]. rewrite Hc.
    change (String c (v ++ String JS.SP arg)) with (String c v ++ String JS.SP arg).
    rewrite trimEnd_append, trimEnd_cons.
    destruct (JS.trimEnd arg) as [|d e]; [|reflexivity].
    change (JS.isWhiteSpace JS.SP) with true. cbv iota.
    now apply trimEnd_solid. }
  rewrite <- (trim_replace_trimEnd arg).
  destruct (JS.trimEnd arg) as [|d e].
  - rewrite parse_without_space; unfold sanitizeInput; rewrite Htrim;
      rewrite (replaceLineBreaks_id _ false Hlb); [reflexivity|assumption].
  - apply parse_at_first_space; [|assumption].
    unfold sanitizeInput. rewrite Htrim.
    rewrite (replaceLineBreaks_after c v _ false Hlb).
    now rewrite replaceLineBreaks_cons.
Qed.

(** C4.  A builtin verb written in any capitalisation and followed by a
    space and an argument text: [parseCommand] yields the lower-cased verb
    and the argument text, trimmed and with its runs of line breaks
    replaced, never lower-cased (so an argument that needs no trimming and
    holds no line break is returned as written); the [switch] takes the
    case of that verb and calls its handler with that argument. *)
Theorem verb_case_insensitive_argument_preserved (verb arg : string) :
  In (JS.toLowerCase verb) builtinVerbs ->
  parseCommand (verb ++ String JS.SP arg)
  = {| p_command := JS.toLowerCase verb;
       p_args := JS.trim (JS.replaceLineBreaks false arg) |} /\
  (JS.occurs JS.isLineBreak arg = false -> JS.trim arg = arg ->
   p_args (parseCommand (verb ++ String JS.SP arg)) = arg) /\
  caseOf (p_command (parseCommand (verb ++ String JS.SP arg))) <> CaseDefault /\
  (forall (w : World) (full : string),
      let cmd := p_command (parseCommand (verb ++ String JS.SP arg)) in
      let args := p_args (parseCommand (verb ++ String JS.SP arg)) in
      (JS.toLowerCase verb = "help" ->
       runCase w cmd args full = ret (Break handleHelp)) /\
      (JS.toLowerCase verb = "explain" ->
       runCase w cmd args full = withModel w (handleExplain w args)) /\
      (JS.toLowerCase verb = "generate" ->
       runCase w cmd args full = withModel w (handleGenerate w args)) /\
      (JS.toLowerCase verb = "summarize" ->
       runCase w cmd args full = withModel w (handleSummarize w args)) /\
      (JS.toLowerCase verb = "vision" ->
       runCase w cmd args full = withModel w (handleVision w args)) /\
      (JS.toLowerCase verb = "clear" ->
       runCase w cmd args full
       = bind handleClear (fun result => ret (Break result)))).
Proof.
  intros Hin. destruct (builtin_verb_solid verb Hin) as [Hws Hne].
  pose proof (parse_verb_argument verb arg Hws Hne) as Hp.
  rewrite Hp. cbn [p_command p_args].
  split; [reflexivity|]. split.
  { intros Hlb Ht. now rewrite (replaceLineBreaks_id _ false Hlb). }
  split.
  { simpl in Hin. decompose [or] Hin; try contradiction;
      match goal with E : _ = JS.toLowerCase verb |- _ => rewrite <- E end;
      discriminate. }
  intros w full. cbv zeta.
  repeat split; intros ->; reflexivity.
Qed.

Lemma verb_case_insensitive_argument_preserved_witness :
  parseCommand "EXPLAIN foo" = {| p_command := "explain"; p_args := "foo" |}.
Proof.
  exact (proj1 (verb_case_insensitive_argument_preserved "EXPLAIN" "foo"
                  (or_intror (or_introl eq_refl)))).
Defined.

End RouterFacts.

(** ** More on the session history *)

Module HistoryMore.
Import Utils HistoryOps HistoryLog HistoryFacts.

Lemma previous_from (items : list HistoryItem) (k : nat) :
  forall i : nat,
    (k <= i <= List.length items)%nat ->
    run (repeat OpGetPrevious k) {| history := items; currentIndex := Z.of_nat i |}
    = (Normal (map recalled (rev (map command (firstn k (skipn (i - k) items))))),
       {| history := items; currentIndex := Z.of_nat (i - k) |}).
Proof.
  induction k as [|k IH]; intros i Hi.
  - simpl. now rewrite Nat.sub_0_r.
  - destruct (nth_error items (i - 1)) as [x|] eqn:Hx;
      [|apply nth_error_None in Hx; lia].
    cbn [repeat run step]. unfold getPrevious. cbn [currentIndex history].
    replace (0 <? Z.of_nat i) with true by (symmetry; apply Z.ltb_lt; lia).
    replace (Z.of_nat i - 1) with (Z.of_nat (i - 1)) by lia.
    unfold commandAt. cbn [currentIndex history]. rewrite arrayGet_nat, Hx.
    cbn [mapC]. rewrite (IH (i - 1)%nat) by lia.
    replace (i - 1 - k)%nat with (i - S k)%nat by lia.
    rewrite (firstn_succ (skipn (i - S k) items) k x).
    2:{ rewrite nth_error_skipn. now replace (i - S k + k)%nat with (i - 1)%nat by lia. }
    rewrite map_app, rev_app_distr. reflexivity.
Qed.

Lemma previous_saturated (m : nat) (h : TerminalHistory) :
  currentIndex h <= 0 ->
  run (repeat OpGetPrevious m) h = (Normal (repeat (Recalled None) m), h).
Proof.
  intros Hc. induction m as [|m IH]; [reflexivity|].
  cbn [repeat run step]. unfold getPrevious.
  replace (0 <? currentIndex h) with false by (symmetry; apply Z.ltb_ge; lia).
  cbn [mapC]. now rewrite IH.
Qed.

Lemma addAll_state (cs : list (string * string * Z)) :
  cs <> [] ->
  addAll cs newTerminalHistory
  = {| history := map itemOf cs; currentIndex := Z.of_nat (List.length cs) |}.
Proof.
  intros Hne. destruct (addAll_spec cs newTerminalHistory) as [Hh Hc].
  specialize (Hc Hne). destruct (addAll cs newTerminalHistory) as [items idx].
  simpl in Hh. unfold len in Hc. simpl in Hc. subst items idx.
  now rewrite length_map.
Qed.

(** X1.  After any sequence of appends to a fresh history, [k] calls to
    [getPrevious] return the last [k] commands, newest first, and once
    the oldest entry has been reached every further call returns [null];
    the entries themselves are not touched. *)
Theorem recall_newest_first_then_null (cs : list (string * string * Z)) (k : nat) :
  fst (run (repeat OpGetPrevious k) (addAll cs newTerminalHistory))
  = Normal (map recalled (firstn k (rev (map (fun x => fst (fst x)) cs)))
            ++ repeat (Recalled None) (k - List.length cs)%nat)%list /\
  getAll (snd (run (repeat OpGetPrevious k) (addAll cs newTerminalHistory)))
  = map itemOf cs.
Proof.
  destruct cs as [|c cs].
  - simpl addAll. rewrite previous_saturated by (simpl; lia).
    simpl. rewrite firstn_nil, Nat.sub_0_r. split; reflexivity.
  - rewrite addAll_state by discriminate.
    set (items := map itemOf (c :: cs)).
    set (n := List.length (c :: cs)).
    assert (Hn : List.length items = n) by apply length_map.
    assert (Hcmd : map command items = map (fun x => fst (fst x)) (c :: cs)).
    { unfold items. rewrite map_map. reflexivity. }
    destruct (Nat.le_gt_cases k n) as [Hk|Hk].
    + rewrite (previous_from items k n) by lia. simpl fst. simpl snd.
      replace (k - n)%nat with 0%nat by lia. rewrite app_nil_r.
      split; [|reflexivity]. do 2 f_equal.
      rewrite <- Hcmd, firstn_rev, length_map, Hn, skipn_map.
      do 2 f_equal. apply firstn_all2. rewrite length_skipn. lia.
    + assert (Hrun : run (repeat OpGetPrevious k)
                         {| history := items; currentIndex := Z.of_nat n |}
                     = (Normal (map recalled (rev (map command items))
                                ++ repeat (Recalled None) (k - n)%nat)%list,
                        {| history := items; currentIndex := 0 |})).
      { replace k with (n + (k - n))%nat at 1 by lia.
        rewrite repeat_app, run_app, (previous_from items n n) by lia.
        rewrite Nat.sub_diag, previous_saturated by (simpl; lia).
        simpl skipn. rewrite firstn_all2 by lia. reflexivity. }
      rewrite Hrun. simpl fst. simpl snd. split; [|reflexivity].
      rewrite firstn_all2 by (rewrite length_rev, length_map; fold n; lia).
      rewrite <- Hcmd. reflexivity.
Qed.

Lemma history_eta (h : TerminalHistory) :
  {| history := history h; currentIndex := currentIndex h |} = h.
Proof. now destruct h. Qed.

(** X2.  Stepping back and then forward, or forward and then back,
    returns to where the cursor was.  From any cursor above the start,
    [getPrevious] followed by [getNext] restores the state, and
    [getNext] answers with the entry under the cursor (the empty string
    when the cursor was past the end); from any cursor on an entry that
    is not the last, [getNext] followed by [getPrevious] restores the
    state and answers with the entry under the cursor. *)
Theorem recall_round_trip (h : TerminalHistory) :
  cursor_in_range h ->
  (0 < currentIndex h ->
   snd (getNext (snd (getPrevious h))) = h /\
   fst (getNext (snd (getPrevious h)))
   = if currentIndex h <? len h then commandAt h else Normal (Some EmptyString)) /\
  (0 <= currentIndex h < len h - 1 ->
   snd (getPrevious (snd (getNext h))) = h /\
   fst (getPrevious (snd (getNext h))) = commandAt h).
Proof.
  unfold cursor_in_range, len. intros Hr. split.
  - intros Hpos. unfold getPrevious.
    replace (0 <? currentIndex h) with true by (symmetry; apply Z.ltb_lt; lia).
    cbn [snd]. unfold getNext, len. cbn [history currentIndex].
    destruct (Z.ltb_spec (currentIndex h) (Z.of_nat (List.length (history h))))
      as [Hlt|Hge].
    + replace (currentIndex h - 1 <? Z.of_nat (List.length (history h)) - 1)
        with true by (symmetry; apply Z.ltb_lt; lia).
      cbn [fst snd]. replace (currentIndex h - 1 + 1) with (currentIndex h) by lia.
      rewrite history_eta. split; reflexivity.
    + replace (currentIndex h - 1 <? Z.of_nat (List.length (history h)) - 1)
        with false by (symmetry; apply Z.ltb_ge; lia).
      cbn [fst snd]. split; [|reflexivity].
      replace (Z.of_nat (List.length (history h))) with (currentIndex h) by lia.
      apply history_eta.
  - intros Hmid. unfold getNext, len.
    replace (currentIndex h <? Z.of_nat (List.length (history h)) - 1)
      with true by (symmetry; apply Z.ltb_lt; lia).
    cbn [snd]. unfold getPrevious. cbn [history currentIndex].
    replace (0 <? currentIndex h + 1) with true by (symmetry; apply Z.ltb_lt; lia).
    cbn [fst snd]. replace (currentIndex h + 1 - 1) with (currentIndex h) by lia.
    rewrite history_eta. split; reflexivity.
Qed.

Lemma recall_round_trip_witness :
  snd (getNext (snd (getPrevious (add "ls" "a.txt" 0 newTerminalHistory))))
  = add "ls" "a.txt" 0 newTerminalHistory.
Proof.
  refine (proj1 (proj1 (recall_round_trip
                          (add "ls" "a.txt" 0 newTerminalHistory) _) _)).
  - unfold cursor_in_range, len; simpl; lia.
  - simpl; lia.
Defined.

Lemma step_appends (o : op) (h : TerminalHistory) :
  history (snd (step o h)) = sinceClear [o] (history h).
Proof.
  destruct o; simpl; try reflexivity.
  - unfold getPrevious. now destruct (0 <? currentIndex h).
  - unfold getNext. now destruct (currentIndex h <? len h - 1).
Qed.

Lemma run_appends (ops : list op) :
  forall h, cursor_in_range h ->
    getAll (snd (run ops h)) = sinceClear ops (history h).
Proof.
  induction ops as [|o rest IH]; intros h Hr; [reflexivity|].
  destruct (step_keeps_range o h Hr) as [[a Ha] Hs].
  pose proof (step_appends o h) as Hh.
  cbn [run]. destruct (step o h) as [r h1]. simpl in Ha, Hs, Hh. subst r.
  specialize (IH h1 Hs). destruct (run rest h1) as [r2 h2]. simpl in *.
  rewrite IH, Hh. reflexivity.
Qed.

(** X3.  Whatever operations are run on a fresh history, [getAll] then
    returns exactly the entries appended since the last [clear], in the
    order they were appended: recalling never adds, drops or reorders an
    entry. *)
Theorem getAll_is_everything_since_clear (ops : list op) :
  getAll (snd (run ops newTerminalHistory)) = sinceClear ops [] /\
  (forall ops', Forall (fun o => o = OpGetPrevious \/ o = OpGetNext \/ o = OpGetAll) ops' ->
     getAll (snd (run (ops ++ ops') newTerminalHistory))
     = getAll (snd (run ops newTerminalHistory))).
Proof.
  split; [apply run_appends, cursor_in_range_new|].
  intros ops' Hall.
  rewrite !run_appends by apply cursor_in_range_new.
  unfold sinceClear. rewrite fold_left_app.
  induction Hall as [|o l Ho Hl IH]; [reflexivity|].
  simpl. destruct Ho as [-> | [-> | ->]]; exact IH.
Qed.

Lemma getAll_is_everything_since_clear_witness :
  getAll (snd (run ([OpAdd "ls" "a.txt" 0] ++ [OpGetPrevious; OpGetNext])
                   newTerminalHistory))
  = getAll (snd (run [OpAdd "ls" "a.txt" 0] newTerminalHistory)).
Proof.
  apply (proj2 (getAll_is_everything_since_clear [OpAdd "ls" "a.txt" 0])).
  constructor; [left; reflexivity|].
  constructor; [right; left; reflexivity|constructor].
Defined.

End HistoryMore.

(** ** More on strings and on the router *)

Module RouterMore.
Import Utils Terminal Observations StringFacts RouterFacts.

Lemma trimStart_idem (s : string) : JS.trimStart (JS.trimStart s) = JS.trimStart s.
Proof.
  induction s as [|c r IH]; [reflexivity|]. cbn [JS.trimStart].
  destruct (JS.isWhiteSpace c) eqn:Hc; [exact IH|].
  cbn [JS.trimStart]. now rewrite Hc.
Qed.

Lemma trimEnd_idem (s : string) : JS.trimEnd (JS.trimEnd s) = JS.trimEnd s.
Proof.
  induction s as [|c r IH]; [reflexivity|]. rewrite trimEnd_cons.
  destruct (JS.trimEnd r) as [|d e] eqn:Er.
  - destruct (JS.isWhiteSpace c) eqn:Hc; [reflexivity|].
    rewrite trimEnd_cons. cbn [JS.trimEnd]. now rewrite Hc.
  - rewrite trimEnd_cons, IH. reflexivity.
Qed.

Lemma trim_idem (s : string) : JS.trim (JS.trim s) = JS.trim s.
Proof.
  unfold JS.trim.
  now rewrite (trimStart_trimEnd (JS.trimStart s)), trimStart_idem, trimEnd_idem.
Qed.

Lemma trimStart_trim (s : string) : JS.trimStart (JS.trim s) = JS.trim s.
Proof.
  unfold JS.trim. now rewrite trimStart_trimEnd, trimStart_idem.
Qed.

Lemma trimEnd_trim (s : string) : JS.trimEnd (JS.trim s) = JS.trim s.
Proof. unfold JS.trim. apply trimEnd_idem. Qed.

(** A string that [trimStart] leaves alone is empty or starts with a
    code unit that is not white space. *)
Lemma trimStart_fixed (s : string) :
  JS.trimStart s = s ->
  s = EmptyString \/ exists c r, s = String c r /\ JS.isWhiteSpace c = false.
Proof.
  destruct s as [|c r]; [now left|]. intros H. right. exists c, r.
  split; [reflexivity|]. cbn [JS.trimStart] in H.
  destruct (JS.isWhiteSpace c) eqn:Hc; [|reflexivity].
  exfalso. assert (Hl : (String.length (JS.trimStart r) <= String.length r)%nat).
  { clear. induction r as [|d r IH]; simpl; [lia|].
    destruct (JS.isWhiteSpace d); simpl; lia. }
  rewrite H in Hl. simpl in Hl. lia.
Qed.

Lemma replace_keeps_end (s : string) :
  forall f, JS.trimEnd s = s -> s <> EmptyString ->
    JS.trimEnd (JS.replaceLineBreaks f s) = JS.replaceLineBreaks f s /\
    JS.replaceLineBreaks f s <> EmptyString.
Proof.
  induction s as [|c r IH]; intros f Hs Hne; [now destruct Hne|].
  rewrite trimEnd_cons in Hs.
  destruct (JS.trimEnd r) as [|d e] eqn:Er.
  - destruct (JS.isWhiteSpace c) eqn:Hc; [discriminate|].
    inversion Hs; subst r.
    assert (Hl : JS.isLineBreak c = false).
    { destruct (JS.isLineBreak c) eqn:E; [|reflexivity].
      apply lineBreak_isWhiteSpace in E. congruence. }
    rewrite replaceLineBreaks_cons, Hl. cbn [JS.replaceLineBreaks].
    rewrite trimEnd_cons. cbn [JS.trimEnd]. rewrite Hc. split; [reflexivity|discriminate].
  - inversion Hs as [Hr]. subst r.
    assert (Hrne : String d e <> EmptyString) by discriminate.
    rewrite replaceLineBreaks_cons.
    destruct (JS.isLineBreak c); [destruct f|].
    + now apply IH.
    + destruct (IH true eq_refl Hrne) as [H1 H2]. rewrite trimEnd_cons, H1.
      split; [|discriminate].
      destruct (JS.replaceLineBreaks true (String d e)); [now destruct H2|reflexivity].
    + destruct (IH false eq_refl Hrne) as [H1 H2]. rewrite trimEnd_cons, H1.
      split; [|discriminate].
      destruct (JS.replaceLineBreaks false (String d e)); [now destruct H2|reflexivity].
Qed.

Lemma sanitize_starts_solid (input : string) :
  sanitizeInput input = EmptyString /\ JS.trim input = EmptyString \/
  exists c r, sanitizeInput input = String c r /\ JS.isWhiteSpace c = false.
Proof.
  unfold sanitizeInput.
  destruct (trimStart_fixed _ (trimStart_trim input)) as [H|[c [r [H Hc]]]].
  - left. now rewrite H.
  - right. rewrite H. rewrite replaceLineBreaks_cons.
    assert (Hl : JS.isLineBreak c = false).
    { destruct (JS.isLineBreak c) eqn:E; [|reflexivity].
      apply lineBreak_isWhiteSpace in E. congruence. }
    rewrite Hl. now eexists _, _.
Qed.

Lemma trim_sanitize (input : string) :
  JS.trim (sanitizeInput input) = sanitizeInput input.
Proof.
  destruct (sanitize_starts_solid input) as [[H _]|[c [r [H Hc]]]].
  - now rewrite H.
  - unfold JS.trim. rewrite H. cbn [JS.trimStart]. rewrite Hc, <- H.
    unfold sanitizeInput.
    destruct (JS.trim input) as [|d e] eqn:Et; [reflexivity|].
    apply replace_keeps_end; [|discriminate].
    rewrite <- Et. apply trimEnd_trim.
Qed.

(** X4.  Sanitizing is idempotent: a sanitized line has no white space
    at either end and no line break, sanitizing it again changes
    nothing, and parsing a line or its sanitized form gives the same
    verb and argument. *)
Theorem sanitizeInput_idempotent (input : string) :
  JS.trim (sanitizeInput input) = sanitizeInput input /\
  sanitizeInput (sanitizeInput input) = sanitizeInput input /\
  parseCommand (sanitizeInput input) = parseCommand input.
Proof.
  assert (H2 : sanitizeInput (sanitizeInput input) = sanitizeInput input).
  { unfold sanitizeInput at 1. rewrite trim_sanitize.
    apply replaceLineBreaks_id, replaceLineBreaks_clean. }
  split; [apply trim_sanitize|]. split; [exact H2|].
  unfold parseCommand. now rewrite H2.
Qed.

(** *** What every parsed command looks like *)

Lemma first_space_cases (s : string) :
  JS.occurs JS.isSpace s = false \/
  exists pre post,
    s = pre ++ String JS.SP post /\ JS.occurs JS.isSpace pre = false.
Proof.
  induction s as [|c r IH]; [now left|]. simpl.
  destruct (JS.isSpace c) eqn:Hc.
  - right. exists EmptyString, r. apply isSpace_iff in Hc. subst c. now split.
  - destruct IH as [H|[pre [post [H1 H2]]]]; [now left|].
    right. exists (String c pre), post. simpl. rewrite Hc, H2, H1. now split.
Qed.

Lemma parse_cases (input : string) :
  (JS.occurs JS.isSpace (sanitizeInput input) = false /\
   parseCommand input
   = {| p_command := JS.toLowerCase (sanitizeInput input);
        p_args := EmptyString |}) \/
  (exists pre post,
      sanitizeInput input = pre ++ String JS.SP post /\
      JS.occurs JS.isSpace pre = false /\
      parseCommand input
      = {| p_command := JS.toLowerCase pre; p_args := JS.trim post |}).
Proof.
  destruct (first_space_cases (sanitizeInput input)) as [H|[pre [post [H1 H2]]]].
  - left. split; [assumption|now apply parse_without_space].
  - right. exists pre, post. repeat split; try assumption.
    now apply parse_at_first_space.
Qed.

Lemma toLowerUnit_facts (c : ascii) :
  JS.isSpace (JS.toLowerUnit c) = JS.isSpace c /\
  JS.isLineBreak (JS.toLowerUnit c) = JS.isLineBreak c /\
  JS.toLowerUnit (JS.toLowerUnit c) = JS.toLowerUnit c.
Proof.
  destruct c as [[] [] [] [] [] [] [] []]; vm_compute; repeat split.
Qed.

Lemma toLowerCase_idem (s : string) :
  JS.toLowerCase (JS.toLowerCase s) = JS.toLowerCase s.
Proof.
  induction s as [|c r IH]; simpl; [reflexivity|].
  now rewrite IH, (proj2 (proj2 (toLowerUnit_facts c))).
Qed.

Lemma occurs_lower (s : string) :
  JS.occurs JS.isSpace (JS.toLowerCase s) = JS.occurs JS.isSpace s /\
  JS.occurs JS.isLineBreak (JS.toLowerCase s) = JS.occurs JS.isLineBreak s.
Proof.
  induction s as [|c r [IH1 IH2]]; simpl; [now split|].
  destruct (toLowerUnit_facts c) as [H1 [H2 _]]. now rewrite H1, H2, IH1, IH2.
Qed.

Lemma occurs_app (p : ascii -> bool) (a b : string) :
  JS.occurs p (a ++ b) = JS.occurs p a || JS.occurs p b.
Proof.
  induction a as [|c r IH]; simpl; [reflexivity|]. now rewrite IH, orb_assoc.
Qed.

Lemma occurs_trimStart (p : ascii -> bool) (s : string) :
  JS.occurs p s = false -> JS.occurs p (JS.trimStart s) = false.
Proof.
  induction s as [|c r IH]; [reflexivity|]. intros H. cbn [JS.trimStart].
  destruct (JS.isWhiteSpace c); [|exact H].
  simpl in H. apply orb_false_iff in H as [_ Hr]. now apply IH.
Qed.

Lemma occurs_trimEnd (p : ascii -> bool) (s : string) :
  JS.occurs p s = false -> JS.occurs p (JS.trimEnd s) = false.
Proof.
  induction s as [|c r IH]; [reflexivity|]. intros H.
  simpl in H. apply orb_false_iff in H as [Hc Hr]. specialize (IH Hr).
  rewrite trimEnd_cons. destruct (JS.trimEnd r) as [|d e].
  - destruct (JS.isWhiteSpace c); [reflexivity|]. simpl. now rewrite Hc.
  - change (JS.occurs p (String c (String d e)))
      with (p c || JS.occurs p (String d e)). now rewrite Hc, IH.
Qed.

Lemma occurs_trim (p : ascii -> bool) (s : string) :
  JS.occurs p s = false -> JS.occurs p (JS.trim s) = false.
Proof. intros H. unfold JS.trim. now apply occurs_trimEnd, occurs_trimStart. Qed.

Lemma replace_empty (s : string) :
  JS.replaceLineBreaks false s = EmptyString -> s = EmptyString.
Proof.
  destruct s as [|c r]; [reflexivity|]. rewrite replaceLineBreaks_cons.
  destruct (JS.isLineBreak c); discriminate.
Qed.

(** X5.  Whatever the input line, the parsed verb holds no space and no
    line break and is in lower case, the parsed argument holds no line
    break and no white space at either end, and the verb is empty only
    for a blank line, in which case the argument is empty too. *)
Theorem parsed_command_is_well_formed (input : string) :
  JS.occurs JS.isSpace (p_command (parseCommand input)) = false /\
  JS.occurs JS.isLineBreak (p_command (parseCommand input)) = false /\
  JS.toLowerCase (p_command (parseCommand input)) = p_command (parseCommand input) /\
  JS.occurs JS.isLineBreak (p_args (parseCommand input)) = false /\
  JS.trim (p_args (parseCommand input)) = p_args (parseCommand input) /\
  (p_command (parseCommand input) = EmptyString <-> JS.trim input = EmptyString) /\
  (p_command (parseCommand input) = EmptyString ->
   p_args (parseCommand input) = EmptyString).
Proof.
  pose proof (replaceLineBreaks_clean (JS.trim input) false) as Hclean.
  fold (sanitizeInput input) in Hclean.
  destruct (parse_cases input) as [[Hsp Hp]|[pre [post [Hs [Hpre Hp]]]]];
    rewrite Hp; cbn [p_command p_args].
  - destruct (occurs_lower (sanitizeInput input)) as [H1 H2].
    rewrite H1, H2, toLowerCase_idem.
    repeat split; auto.
    + intros H. apply replace_empty.
      destruct (sanitizeInput input) eqn:E; [exact E|discriminate].
    + intros H. unfold sanitizeInput. now rewrite H.
  - rewrite Hs, occurs_app in Hclean.
    apply orb_false_iff in Hclean as [Hc1 Hc2].
    simpl in Hc2.
    destruct (occurs_lower pre) as [H1 H2].
    rewrite H1, H2, toLowerCase_idem, trim_idem.
    assert (Hne : pre <> EmptyString).
    { intros ->. simpl in Hs.
      destruct (sanitize_starts_solid input) as [[H _]|[c [r [H Hc]]]];
        rewrite H in Hs; [discriminate|].
      inversion Hs; subst c. discriminate. }
    assert (Hin : JS.trim input <> EmptyString).
    { intros H. unfold sanitizeInput in Hs. rewrite H in Hs.
      destruct pre; discriminate. }
    repeat split; auto.
    + now apply occurs_trim.
    + intros H. destruct pre; [now destruct Hne|discriminate].
    + intros H. now destruct Hin.
    + intros H. destruct pre; [now destruct Hne|discriminate].
Qed.

Lemma executeCommand_blank (w : World) (input : string) (st : State) :
  JS.trim input = EmptyString ->
  parseCommand input = {| p_command := EmptyString; p_args := EmptyString |} /\
  executeCommand w input st
  = (Normal {| success := true; output := EmptyString; error := None |}, st).
Proof.
  intros H.
  assert (Hp : parseCommand input
               = {| p_command := EmptyString; p_args := EmptyString |}).
  { unfold parseCommand, sanitizeInput. now rewrite H. }
  split; [exact Hp|]. unfold executeCommand. now rewrite Hp.
Qed.

(** X6.  A blank line (empty, or white space only) is a no-op: it parses
    to the empty verb, and [executeCommand] returns a successful result
    with an empty output and leaves the whole state as it was: nothing
    is logged, asked or run. *)
Theorem blank_line_is_a_no_op (w : World) (input : string) (st : State) :
  JS.trim input = EmptyString ->
  parseCommand input = {| p_command := EmptyString; p_args := EmptyString |} /\
  executeCommand w input st
  = (Normal {| success := true; output := EmptyString; error := None |}, st).
Proof. exact (executeCommand_blank w input st). Qed.

Lemma blank_line_is_a_no_op_witness :
  executeCommand Samples.quietWorld "   " Samples.unconfigured
  = (Normal {| success := true; output := EmptyString; error := None |},
     Samples.unconfigured).
Proof.
  exact (proj2 (blank_line_is_a_no_op Samples.quietWorld "   "
                  Samples.unconfigured eq_refl)).
Defined.

End RouterMore.

(** ** What the terminal does and does not do *)

Module TerminalMore.
Import Utils Terminal Observations Effects Requests TerminalFacts RouterMore.

(** *** Events appended to the trace *)

Section Emits.
Variables allowed counted : event -> bool.

Lemma within_nil (n : nat) : within allowed counted n [].
Proof. split; simpl; [reflexivity|lia]. Qed.

Lemma within_app (a b : nat) (l1 l2 : list event) :
  within allowed counted a l1 -> within allowed counted b l2 ->
  within allowed counted (a + b) (l1 ++ l2).
Proof.
  intros [H1 H2] [H3 H4]. split.
  - now rewrite forallb_app, H1, H3.
  - rewrite filter_app, length_app. lia.
Qed.

Lemma emits_unchanged (n : nat) {A : Type} (m : M A) :
  (forall s, trace (snd (m s)) = trace s) -> emits allowed counted n m.
Proof.
  intros H s. exists []. rewrite app_nil_r. split; [apply H|apply within_nil].
Qed.

Lemma emits_ret (n : nat) {A : Type} (a : A) : emits allowed counted n (ret a).
Proof. now apply emits_unchanged. Qed.

Lemma emits_liftC (n : nat) {A : Type} (c : completion A) :
  emits allowed counted n (liftC c).
Proof. now apply emits_unchanged. Qed.

Lemma emits_get (n : nat) : emits allowed counted n get.
Proof. now apply emits_unchanged. Qed.

Lemma emits_setHistory (n : nat) (h : TerminalHistory) :
  emits allowed counted n (setHistory h).
Proof. now apply emits_unchanged. Qed.

Lemma emits_emit_quiet (n : nat) (e : event) :
  allowed e = true -> counted e = false -> emits allowed counted n (emit e).
Proof.
  intros Ha Hc s. exists [e]. split; [reflexivity|].
  split; simpl; [now rewrite Ha|rewrite Hc; simpl; lia].
Qed.

Lemma emits_emit_counted (n : nat) (e : event) :
  allowed e = true -> emits allowed counted (S n) (emit e).
Proof.
  intros Ha s. exists [e]. split; [reflexivity|].
  split; simpl; [now rewrite Ha|destruct (counted e); simpl; lia].
Qed.

Lemma emits_bind (a b : nat) {A B : Type} (m : M A) (k : A -> M B) :
  emits allowed counted a m ->
  (forall x, emits allowed counted b (k x)) ->
  emits allowed counted (a + b) (bind m k).
Proof.
  intros Hm Hk s. unfold bind. destruct (Hm s) as [l1 [E1 W1]].
  destruct (m s) as [[x|t] s1]; simpl in E1.
  - destruct (Hk x s1) as [l2 [E2 W2]]. exists (l1 ++ l2)%list.
    rewrite E2, E1, app_assoc. split; [reflexivity|now apply within_app].
  - exists l1. simpl. split; [assumption|].
    rewrite <- (app_nil_r l1). apply within_app; [assumption|apply within_nil].
Qed.

Lemma emits_bind_first (n : nat) {A B : Type} (m : M A) (k : A -> M B) :
  emits allowed counted 0 m ->
  (forall x, emits allowed counted n (k x)) ->
  emits allowed counted n (bind m k).
Proof. intros Hm Hk. exact (emits_bind 0 n m k Hm Hk). Qed.

Lemma emits_bind_last (n : nat) {A B : Type} (m : M A) (k : A -> M B) :
  emits allowed counted n m ->
  (forall x, emits allowed counted 0 (k x)) ->
  emits allowed counted n (bind m k).
Proof.
  intros Hm Hk. pose proof (emits_bind n 0 m k Hm Hk) as H.
  now rewrite Nat.add_0_r in H.
Qed.

Lemma emits_tryCatch (n : nat) {A : Type} (m : M A) (h : thrown -> M A) :
  emits allowed counted n m ->
  (forall t, emits allowed counted 0 (h t)) ->
  emits allowed counted n (tryCatch m h).
Proof.
  intros Hm Hh s. unfold tryCatch. destruct (Hm s) as [l1 [E1 W1]].
  destruct (m s) as [[x|t] s1]; simpl in E1.
  - exists l1. now split.
  - destruct (Hh t s1) as [l2 [E2 W2]]. exists (l1 ++ l2)%list.
    rewrite E2, E1, app_assoc. split; [reflexivity|].
    rewrite <- (Nat.add_0_r n). now apply within_app.
Qed.

Lemma emits_more (n : nat) {A : Type} (m : M A) :
  emits allowed counted 0 m -> emits allowed counted n m.
Proof.
  intros H s. destruct (H s) as [l [E [W1 W2]]]. exists l.
  split; [assumption|]. split; [assumption|lia].
Qed.

End Emits.

Ltac effects :=
  intros;
  lazymatch goal with
  | |- emits _ _ _ (ret _) => apply emits_ret
  | |- emits _ _ _ (liftC _) => apply emits_liftC
  | |- emits _ _ _ get => apply emits_get
  | |- emits _ _ _ (setHistory _) => apply emits_setHistory
  | |- emits _ _ _ (emit _) =>
      first [ apply emits_emit_quiet; reflexivity
            | apply emits_emit_counted; reflexivity ]
  | |- emits _ _ _ (consoleLog _) =>
      first [ apply emits_emit_quiet; reflexivity
            | apply emits_emit_counted; reflexivity ]
  | |- emits _ _ _ (tryCatch _ _) => apply emits_tryCatch; effects
  | |- emits _ _ _ (bind _ _) =>
      first [ solve [apply emits_bind_first; effects]
            | solve [apply emits_bind_last; effects] ]
  | |- emits _ _ _ (if ?b then _ else _) => destruct b; effects
  | |- emits _ _ _ (match ?x with _ => _ end) => destruct x; effects
  | |- emits _ _ _ _ =>
      first [ solve [auto]
            | apply emits_more; solve [auto]
            | apply emits_unchanged; reflexivity ]
  end.

Section Quiet.
Variables allowed counted : event -> bool.
Hypothesis console_allowed : forall l, allowed (ConsoleLog l) = true.
Hypothesis console_free : forall l, counted (ConsoleLog l) = false.

Lemma emits_consoleLogAll (lines : list string) :
  emits allowed counted 0 (consoleLogAll lines).
Proof.
  induction lines as [|l rest IH]; [apply emits_ret|].
  change (emits allowed counted 0
            (bind (consoleLog l) (fun _ => consoleLogAll rest))).
  apply emits_bind_first; [|intros _; exact IH].
  apply emits_emit_quiet; auto.
Qed.

Lemma emits_setupAI (w : World) (key : string) :
  emits allowed counted 0 (setupAI w key).
Proof.
  intros s. exists [ConsoleLog (connectedLine w)]. split; [reflexivity|].
  split; simpl; [now rewrite console_allowed|rewrite console_free; simpl; lia].
Qed.

End Quiet.

Ltac open_dispatch :=
  unfold executeCommand, runCase, withModel, promptForApiKey, handleAICommand,
    handleExplain, handleGenerate, handleSummarize, callGeminiAPI, handleVision,
    handleClear, executeShellCommand, historyAdd.

Lemma executeCommand_generation (w : World) (input : string) :
  emits anyEvent isGeneration 1 (executeCommand w input).
Proof.
  pose proof (emits_consoleLogAll anyEvent isGeneration
                (fun _ => eq_refl) (fun _ => eq_refl)) as H1.
  pose proof (emits_setupAI anyEvent isGeneration
                (fun _ => eq_refl) (fun _ => eq_refl) w) as H2.
  open_dispatch. effects.
Qed.

Lemma executeCommand_questions (w : World) (input : string) :
  emits anyEvent isQuestion 1 (executeCommand w input).
Proof.
  pose proof (emits_consoleLogAll anyEvent isQuestion
                (fun _ => eq_refl) (fun _ => eq_refl)) as H1.
  pose proof (emits_setupAI anyEvent isQuestion
                (fun _ => eq_refl) (fun _ => eq_refl) w) as H2.
  open_dispatch. effects.
Qed.

Lemma executeCommand_builtin_no_spawn (w : World) (input : string) :
  caseOf (p_command (parseCommand input)) <> CaseDefault ->
  emits (fun e => negb (isSpawn e)) noEvent 0 (executeCommand w input).
Proof.
  intros Hc.
  pose proof (emits_consoleLogAll (fun e => negb (isSpawn e)) noEvent
                (fun _ => eq_refl) (fun _ => eq_refl)) as H1.
  pose proof (emits_setupAI (fun e => negb (isSpawn e)) noEvent
                (fun _ => eq_refl) (fun _ => eq_refl) w) as H2.
  unfold executeCommand, runCase.
  destruct (caseOf (p_command (parseCommand input))); [| | | | |now destruct Hc];
    unfold withModel, promptForApiKey, handleAICommand,
      handleExplain, handleGenerate, handleSummarize, callGeminiAPI, handleVision,
      handleClear, historyAdd; effects.
Qed.

Lemma shell_run (w : World) (cmd : string) (st : State) :
  exists r,
    executeShellCommand w cmd st = (r, logged [Spawn "sh" ["-c"; cmd]] st).
Proof.
  unfold executeShellCommand, bind. rewrite emit_logged.
  destruct (spawn w "sh" ["-c"; cmd]) as [code out err|m|t];
    [destruct (code =? 0)| |]; eexists; reflexivity.
Qed.

Lemma executeCommand_shell_state (w : World) (input : string) (st : State) :
  caseOf (p_command (parseCommand input)) = CaseDefault ->
  trace (snd (executeCommand w input st))
  = (trace st ++ [Spawn "sh" ["-c"; JS.trim input]])%list /\
  client (snd (executeCommand w input st)) = client st.
Proof.
  intros Hc. destruct (shell_run w (JS.trim input) st) as [r Hr].
  assert (Hrun : runCase w (p_command (parseCommand input))
                         (p_args (parseCommand input)) (JS.trim input) st
                 = match r with
                   | Normal res =>
                       (Normal (Break res),
                        logged [Spawn "sh" ["-c"; JS.trim input]] st)
                   | Throw t =>
                       (Throw t, logged [Spawn "sh" ["-c"; JS.trim input]] st)
                   end).
  { unfold runCase. rewrite Hc. unfold bind. rewrite Hr. now destruct r. }
  destruct r as [res|t].
  - rewrite (executeCommand_break _ _ _ _ _ Hrun).
    destruct (success res && JS.truthy (output res)); split; reflexivity.
  - rewrite (executeCommand_throw _ _ _ _ _ Hrun). split; reflexivity.
Qed.

(** X7.  A line is served by one side only.  A line whose verb is a
    builtin never starts a process; a line whose verb is not a builtin
    starts exactly one process, [sh -c] with the line as typed apart from
    the white space around it (case and inner line breaks kept), and does
    nothing else: no question, no call to the Gemini client. *)
Theorem builtins_never_spawn_and_shell_lines_only_spawn
    (w : World) (input : string) (st : State) :
  (caseOf (p_command (parseCommand input)) <> CaseDefault ->
   exists log,
     trace (snd (executeCommand w input st)) = (trace st ++ log)%list /\
     forallb (fun e => negb (isSpawn e)) log = true) /\
  (caseOf (p_command (parseCommand input)) = CaseDefault ->
   trace (snd (executeCommand w input st))
   = (trace st ++ [Spawn "sh" ["-c"; JS.trim input]])%list /\
   client (snd (executeCommand w input st)) = client st).
Proof.
  split.
  - intros Hc. destruct (executeCommand_builtin_no_spawn w input Hc st)
      as [log [E [W _]]]. now exists log.
  - intros Hc. now apply executeCommand_shell_state.
Qed.

Lemma builtins_never_spawn_and_shell_lines_only_spawn_witness :
  trace (snd (executeCommand Samples.quietWorld "  LS -la " Samples.unconfigured))
  = [Spawn "sh" ["-c"; "LS -la"]].
Proof.
  exact (proj1 (proj2 (builtins_never_spawn_and_shell_lines_only_spawn
                         Samples.quietWorld "  LS -la " Samples.unconfigured)
                      eq_refl)).
Defined.

(** X8.  Serving one line costs at most one call to the Gemini client
    and at most one question at the prompt, whatever the line, the state
    and the answers of the collaborators. *)
Theorem one_line_one_model_call_one_question
    (w : World) (input : string) (st : State) :
  exists log,
    trace (snd (executeCommand w input st)) = (trace st ++ log)%list /\
    (List.length (filter isGeneration log) <= 1)%nat /\
    (List.length (filter isQuestion log) <= 1)%nat.
Proof.
  destruct (executeCommand_generation w input st) as [l1 [E1 [_ W1]]].
  destruct (executeCommand_questions w input st) as [l2 [E2 [_ W2]]].
  exists l1. split; [assumption|]. split; [assumption|].
  rewrite E1 in E2. apply app_inv_head in E2. now subst l2.
Qed.

(** *** Failed results *)

Lemma returns_ret {A : Type} (Q : A -> Prop) (a : A) : Q a -> returns Q (ret a).
Proof. intros H s x E. inversion E. now subst. Qed.

Lemma returns_liftC {A : Type} (Q : A -> Prop) (c : completion A) :
  (forall a, c = Normal a -> Q a) -> returns Q (liftC c).
Proof. intros H s x E. now apply H. Qed.

Lemma returns_bind_with {A B : Type} (Q1 : A -> Prop) (Q : B -> Prop)
      (m : M A) (k : A -> M B) :
  returns Q1 m -> (forall x, Q1 x -> returns Q (k x)) -> returns Q (bind m k).
Proof.
  intros Hm Hk s b E. unfold bind in E. specialize (Hm s).
  destruct (m s) as [[x|t] s1]; [|discriminate].
  exact (Hk x (Hm x eq_refl) s1 b E).
Qed.

Lemma returns_any {A : Type} (m : M A) : returns (fun _ => True) m.
Proof. now intros s a E. Qed.

Lemma returns_bind {A B : Type} (Q : B -> Prop) (m : M A) (k : A -> M B) :
  (forall x, returns Q (k x)) -> returns Q (bind m k).
Proof.
  intros Hk. apply (returns_bind_with (fun _ => True)); [apply returns_any|].
  intros x _. apply Hk.
Qed.

Lemma returns_tryCatch {A : Type} (Q : A -> Prop) (m : M A) (h : thrown -> M A) :
  returns Q m -> (forall t, returns Q (h t)) -> returns Q (tryCatch m h).
Proof.
  intros Hm Hh s a E. unfold tryCatch in E. specialize (Hm s).
  destruct (m s) as [[x|t] s1].
  - inversion E; subst. now apply Hm.
  - exact (Hh t s1 a E).
Qed.

Lemma orElse_fallback (a b : string) :
  b <> EmptyString -> JS.orElse a b <> EmptyString.
Proof. intros Hb. unfold JS.orElse. now destruct a. Qed.

Ltac explained_leaf :=
  cbv zeta; unfold resultOf, explained; cbn [success output];
  first [ assumption
        | intros H; discriminate H
        | intros _; apply orElse_fallback; simpl; discriminate
        | intros _; simpl; discriminate ].

Ltac results :=
  intros; cbv beta zeta;
  lazymatch goal with
  | |- returns _ (ret _) => apply returns_ret; explained_leaf
  | |- returns _ (liftC _) =>
      apply returns_liftC; let E := fresh in intros ? E; discriminate E
  | |- returns _ (tryCatch _ _) => apply returns_tryCatch; results
  | |- returns _ (bind _ _) =>
      first [ solve [apply returns_bind; results]
            | solve [apply (returns_bind_with explained); results]
            | solve [apply (returns_bind_with (fun f => explained (resultOf f)));
                     results] ]
  | |- returns _ (if ?b then _ else _) => destruct b; results
  | |- returns _ (match ?x with _ => _ end) => destruct x; results
  end.

Lemma executeCommand_explained (w : World) (input : string) :
  output (noApiKeyResult w) <> EmptyString ->
  returns explained (executeCommand w input).
Proof.
  intros Hw.
  assert (Hw' : explained (noApiKeyResult w)) by (intros _; exact Hw).
  open_dispatch. results.
Qed.

(** X9.  A failed result always carries a message.  Provided the
    styling of the no-key warning does not erase it, every result of
    [executeCommand] with [success = false] has a non-empty output,
    whatever failed: the argument, the key, the file, the shell or the
    remote service. *)
Theorem failed_results_carry_a_message (w : World) (input : string) (st : State) :
  output (noApiKeyResult w) <> EmptyString ->
  exists res,
    fst (executeCommand w input st) = Normal res /\
    (success res = false -> output res <> EmptyString).
Proof.
  intros Hw. destruct (executeCommand_total w input st) as [res Hres].
  exists res. split; [assumption|].
  exact (executeCommand_explained w input Hw st res Hres).
Qed.

Lemma failed_results_carry_a_message_witness :
  exists res,
    fst (executeCommand Samples.quietWorld "vision" Samples.configured)
    = Normal res /\
    (success res = false -> output res <> EmptyString).
Proof.
  apply (failed_results_carry_a_message Samples.quietWorld "vision"
                                        Samples.configured).
  discriminate.
Defined.

(** *** The history across a session *)

Lemma history_after (w : World) (input : string) (st : State) :
  exists res base,
    fst (executeCommand w input st) = Normal res /\
    (base = t_history st \/ base = newTerminalHistory) /\
    (t_history (snd (executeCommand w input st)) = base \/
     (success res && JS.truthy (output res) = true /\
      t_history (snd (executeCommand w input st))
      = add (JS.trim input) (output res) (now w) base)).
Proof.
  destruct (caseOf (p_command (parseCommand input))) eqn:Hc.
  4:{ assert (Hrun : runCase w (p_command (parseCommand input))
                       (p_args (parseCommand input)) (JS.trim input) st
                     = (Normal (Break {| success := true;
                                         output := "Terminal cleared.";
                                         error := None |}),
                        snd (handleClear st))).
      { unfold runCase. rewrite Hc. reflexivity. }
      eexists _, newTerminalHistory.
      rewrite (executeCommand_break _ _ _ _ _ Hrun).
      split; [reflexivity|]. split; [now right|]. right. split; reflexivity. }
  all: assert (Hk : t_history (snd (runCase w (p_command (parseCommand input))
                       (p_args (parseCommand input)) (JS.trim input) st))
                    = t_history st)
      by (apply kh_runCase; rewrite Hc; discriminate).
  all: destruct (runCase w (p_command (parseCommand input))
                   (p_args (parseCommand input)) (JS.trim input) st)
      as [[[res|res]|t] s1] eqn:E; cbn [snd] in Hk.
  all: try (rewrite (executeCommand_break _ _ _ _ _ E); exists res, (t_history st);
            split; [reflexivity|]; split; [now left|];
            destruct (success res && JS.truthy (output res)); cbn [snd];
            [right; split; [reflexivity|]; unfold recorded; simpl; now rewrite Hk
            |now left]).
  all: try (rewrite (executeCommand_return _ _ _ _ _ E); exists res, (t_history st);
            split; [reflexivity|]; split; [now left|]; now left).
  all: rewrite (executeCommand_throw _ _ _ _ _ E); eexists _, (t_history st);
    split; [reflexivity|]; split; [now left|]; now left.
Qed.

Lemma executeCommand_keeps_tidy (w : World) (input : string) (st : State) :
  Forall tidy (entries st) -> parked (t_history st) ->
  Forall tidy (entries (snd (executeCommand w input st))) /\
  parked (t_history (snd (executeCommand w input st))).
Proof.
  intros Ht Hp. unfold entries in *.
  destruct (history_after w input st) as [res [base [Hres [Hb Hh]]]].
  assert (Hbase : Forall tidy (history base) /\ parked base).
  { destruct Hb as [-> | ->]; [now split|]. split; [constructor|now left]. }
  destruct Hbase as [Hbt Hbp].
  destruct Hh as [Hh|[Hadd Hh]]; rewrite Hh; [now split|].
  apply andb_true_iff in Hadd as [_ Hout]. split.
  - unfold add; cbn [history]. apply Forall_app. split; [assumption|].
    constructor; [|constructor]. unfold tidy; cbn [command item_output].
    split; [|split].
    + intros Hblank.
      destruct (executeCommand_blank w input st Hblank) as [_ He].
      rewrite He in Hres. inversion Hres; subst res. discriminate.
    + apply trim_idem.
    + now apply truthy_true.
  - right. unfold add, len; cbn [history currentIndex]. split; [|reflexivity].
    now destruct (history base).
Qed.

(** X10.  The history stays tidy through a whole session.  Starting a
    terminal and dispatching any lines, whatever the collaborators
    answer: every entry has a command that is not blank and has no white
    space around it, and an output that is not empty; and the history is
    fresh or has its cursor past its last entry, so the next
    [getPrevious] recalls the newest command. *)
Theorem session_history_is_tidy
    (lines : list (World * string)) (cfg : TerminalConfig) (env : option string) :
  Forall tidy (entries (session lines (newAITerminal cfg env))) /\
  parked (t_history (session lines (newAITerminal cfg env))).
Proof.
  assert (H : forall st, Forall tidy (entries st) -> parked (t_history st) ->
                Forall tidy (entries (session lines st)) /\
                parked (t_history (session lines st))).
  { induction lines as [|[w input] rest IH]; intros st Ht Hp; [now split|].
    cbn [session].
    destruct (executeCommand_keeps_tidy w input st Ht Hp) as [H1 H2].
    now apply IH. }
  apply H; [constructor|now left].
Qed.

(** X11.  [clear] does not leave the history empty.  Whatever stands
    after the verb, the result is the confirmation, and the history then
    holds one entry, the [clear] line itself, with the cursor after it;
    the trace and the client side are untouched, and the next
    [getPrevious] recalls the [clear] line. *)
Theorem clear_leaves_its_own_entry (w : World) (input : string) (st : State) :
  p_command (parseCommand input) = "clear" ->
  fst (executeCommand w input st)
  = Normal {| success := true; output := "Terminal cleared."; error := None |} /\
  t_history (snd (executeCommand w input st))
  = add (JS.trim input) "Terminal cleared." (now w) newTerminalHistory /\
  trace (snd (executeCommand w input st)) = trace st /\
  client (snd (executeCommand w input st)) = client st /\
  fst (getPrevious (t_history (snd (executeCommand w input st))))
  = Normal (Some (JS.trim input)).
Proof.
  intros Hc.
  assert (Hrun : runCase w (p_command (parseCommand input))
                   (p_args (parseCommand input)) (JS.trim input) st
                 = (Normal (Break {| success := true;
                                     output := "Terminal cleared.";
                                     error := None |}),
                    snd (handleClear st))).
  { unfold runCase. rewrite Hc. reflexivity. }
  rewrite (executeCommand_break _ _ _ _ _ Hrun). repeat split.
Qed.

Lemma clear_leaves_its_own_entry_witness :
  t_history (snd (executeCommand Samples.quietWorld " CLEAR  all " Samples.configured))
  = add "CLEAR  all" "Terminal cleared." 0 newTerminalHistory.
Proof.
  exact (proj1 (proj2 (clear_leaves_its_own_entry
                         Samples.quietWorld " CLEAR  all " Samples.configured
                         eq_refl))).
Defined.

(** *** Relations between the state before and after *)

Section Steps.
Variable R : State -> State -> Prop.
Hypothesis R_refl : forall s, R s s.
Hypothesis R_trans : forall a b c, R a b -> R b c -> R a c.

Lemma steps_still {A : Type} (m : M A) :
  (forall s, snd (m s) = s) -> steps R m.
Proof. intros H s. rewrite H. apply R_refl. Qed.

Lemma steps_bind {A B : Type} (m : M A) (k : A -> M B) :
  steps R m -> (forall x, steps R (k x)) -> steps R (bind m k).
Proof.
  intros Hm Hk s. unfold bind. specialize (Hm s).
  destruct (m s) as [[x|t] s1]; simpl in *; [|assumption].
  exact (R_trans _ _ _ Hm (Hk x s1)).
Qed.

Lemma steps_tryCatch {A : Type} (m : M A) (h : thrown -> M A) :
  steps R m -> (forall t, steps R (h t)) -> steps R (tryCatch m h).
Proof.
  intros Hm Hh s. unfold tryCatch. specialize (Hm s).
  destruct (m s) as [[x|t] s1]; simpl in *; [assumption|].
  exact (R_trans _ _ _ Hm (Hh t s1)).
Qed.

End Steps.

Ltac stepping Hr Ht leaf :=
  intros; cbv beta zeta;
  lazymatch goal with
  | |- steps _ (ret _) => apply (steps_still _ Hr); reflexivity
  | |- steps _ (liftC _) => apply (steps_still _ Hr); reflexivity
  | |- steps _ get => apply (steps_still _ Hr); reflexivity
  | |- steps _ (tryCatch _ _) =>
      apply (steps_tryCatch _ Ht); stepping Hr Ht leaf
  | |- steps _ (bind _ _) => apply (steps_bind _ Ht); stepping Hr Ht leaf
  | |- steps _ (if ?b then _ else _) => destruct b; stepping Hr Ht leaf
  | |- steps _ (match ?x with _ => _ end) => destruct x; stepping Hr Ht leaf
  | |- steps _ _ => leaf
  end.

Lemma sameClient_refl (s : State) : sameClient s s.
Proof. reflexivity. Qed.

Lemma sameClient_trans (a b c : State) :
  sameClient a b -> sameClient b c -> sameClient a c.
Proof. unfold sameClient. congruence. Qed.

Ltac client_leaf :=
  first [ assumption | solve [auto] | (intros ?; reflexivity) ].

Lemma handlers_keep_client (w : World) (cmd args : string) :
  steps sameClient (handleAICommand w cmd args) /\
  steps sameClient (handleVision w args).
Proof.
  split;
    unfold handleAICommand, handleExplain, handleGenerate, handleSummarize,
      callGeminiAPI, handleVision;
    stepping sameClient_refl sameClient_trans client_leaf.
Qed.

Lemma settled_refl (s : State) : settled s s.
Proof.
  intros _. split; [reflexivity|]. exists []. now rewrite app_nil_r.
Qed.

Lemma settled_trans (a b c : State) : settled a b -> settled b c -> settled a c.
Proof.
  intros Hab Hbc Ha. destruct (Hab Ha) as [C1 [l1 [E1 Q1]]].
  assert (Hb : t_model b <> None).
  { unfold client in C1. inversion C1 as [[G M E]]. now rewrite M. }
  destruct (Hbc Hb) as [C2 [l2 [E2 Q2]]].
  split; [congruence|]. exists (l1 ++ l2)%list.
  rewrite E2, E1, app_assoc. split; [reflexivity|].
  now rewrite forallb_app, Q1, Q2.
Qed.

Lemma settled_emit (e : event) :
  isQuestion e = false -> steps settled (emit e).
Proof.
  intros He s _. split; [reflexivity|]. exists [e].
  split; [reflexivity|]. simpl. now rewrite He.
Qed.

Lemma settled_setHistory (h : TerminalHistory) : steps settled (setHistory h).
Proof.
  intros s _. split; [reflexivity|]. exists []. simpl. now rewrite app_nil_r.
Qed.

(** With a model set, the guard goes straight to the handler; with none,
    [settled] asks nothing of it. *)
Lemma settled_withModel (w : World) (k : M CommandResult) :
  steps settled k -> steps settled (withModel w k).
Proof.
  intros Hk s Hset. unfold withModel, bind, get.
  destruct (t_model s) as [m|] eqn:Hm; [|now destruct Hset].
  specialize (Hk s). destruct (k s) as [[r|t] s1]; simpl in *;
    apply Hk; congruence.
Qed.

Ltac settled_leaf :=
  first [ assumption
        | apply settled_setHistory
        | apply settled_emit; reflexivity
        | apply settled_withModel ].

Lemma executeCommand_settled (w : World) (input : string) :
  steps settled (executeCommand w input).
Proof.
  unfold executeCommand, runCase, historyAdd, handleClear, executeShellCommand.
  stepping settled_refl settled_trans settled_leaf;
    unfold handleAICommand, handleExplain, handleGenerate, handleSummarize,
      callGeminiAPI, handleVision;
    stepping settled_refl settled_trans settled_leaf.
Qed.

Lemma executeCommand_client_tail (w : World) (input : string) (st : State) :
  client (snd (executeCommand w input st))
  = client (snd (runCase w (p_command (parseCommand input))
                         (p_args (parseCommand input)) (JS.trim input) st)).
Proof.
  destruct (runCase w (p_command (parseCommand input))
              (p_args (parseCommand input)) (JS.trim input) st)
    as [[[res|res]|t] s1] eqn:E.
  - rewrite (executeCommand_break _ _ _ _ _ E).
    now destruct (success res && JS.truthy (output res)).
  - now rewrite (executeCommand_return _ _ _ _ _ E).
  - now rewrite (executeCommand_throw _ _ _ _ _ E).
Qed.

Lemma withModel_accepted_state (w : World) (k : M CommandResult) (st : State) :
  steps sameClient k ->
  t_model st = None ->
  20 <= Z.of_nat (String.length (JS.trim (question w (promptQuery w)))) ->
  client (snd (withModel w k st))
  = client (afterSetup w (JS.trim (question w (promptQuery w))) st).
Proof.
  intros Hk Hm Hlen. unfold withModel, bind, get. rewrite Hm.
  rewrite promptForApiKey_spec.
  set (key := JS.trim (question w (promptQuery w))) in *.
  assert (Ht : JS.truthy key = true).
  { destruct key; [simpl in Hlen; lia|reflexivity]. }
  rewrite Ht. change (negb true) with false. cbv iota.
  apply Z.ltb_ge in Hlen. rewrite Hlen.
  rewrite setupAI_spec. fold (afterSetup w key st).
  specialize (Hk (afterSetup w key st)).
  destruct (k (afterSetup w key st)) as [[r|t] s1]; exact Hk.
Qed.

(** X12.  An accepted key is asked for once.  When an AI verb is
    dispatched on a terminal with no model and the trimmed answer at the
    prompt has 20 characters or more, the terminal leaves
    [executeCommand] with that key as its client, its model built from
    the configuration, and the key stored in the environment variable;
    from then on no line makes it ask again or changes the client,
    whatever the line and the world. *)
Theorem accepted_key_is_kept_and_never_asked_again
    (w : World) (input : string) (st : State) :
  caseOf (p_command (parseCommand input)) = CaseAI \/
  caseOf (p_command (parseCommand input)) = CaseVision ->
  t_model st = None ->
  20 <= Z.of_nat (String.length (JS.trim (question w (promptQuery w)))) ->
  client (snd (executeCommand w input st))
  = (Some (JS.trim (question w (promptQuery w))),
     Some (modelFor (config st) (JS.trim (question w (promptQuery w)))),
     Some (JS.trim (question w (promptQuery w)))) /\
  (forall (lines : list (World * string)),
      client (session lines (snd (executeCommand w input st)))
      = client (snd (executeCommand w input st)) /\
      exists log,
        trace (session lines (snd (executeCommand w input st)))
        = (trace (snd (executeCommand w input st)) ++ log)%list /\
        forallb (fun e => negb (isQuestion e)) log = true).
Proof.
  intros Hc Hm Hlen.
  assert (Hcl : client (snd (executeCommand w input st))
                = client (afterSetup w (JS.trim (question w (promptQuery w))) st)).
  { rewrite executeCommand_client_tail. unfold runCase.
    destruct (handlers_keep_client w (p_command (parseCommand input))
                                   (p_args (parseCommand input))) as [H1 H2].
    destruct Hc as [Hc|Hc]; rewrite Hc; now apply withModel_accepted_state. }
  split; [exact Hcl|].
  assert (Hset : t_model (snd (executeCommand w input st)) <> None).
  { unfold client in Hcl. inversion Hcl as [[G M E]]. rewrite M. discriminate. }
  revert Hset. generalize (snd (executeCommand w input st)). clear.
  intros s Hs lines. revert s Hs.
  induction lines as [|[w input] rest IH]; intros s Hs; cbn [session].
  - split; [reflexivity|]. exists []. now rewrite app_nil_r.
  - destruct (executeCommand_settled w input s Hs) as [C1 [l1 [E1 Q1]]].
    assert (Hs1 : t_model (snd (executeCommand w input s)) <> None).
    { unfold client in C1. inversion C1 as [[G M E]]. now rewrite M. }
    destruct (IH _ Hs1) as [C2 [l2 [E2 Q2]]].
    split; [congruence|]. exists (l1 ++ l2)%list.
    rewrite E2, E1, app_assoc. split; [reflexivity|].
    now rewrite forallb_app, Q1, Q2.
Qed.

Lemma accepted_key_is_kept_and_never_asked_again_witness :
  client (snd (executeCommand
                 (Samples.withAnswer "  AIzaSy-0123456789abcdefghij " Samples.quietWorld)
                 "explain recursion" Samples.unconfigured))
  = (Some "AIzaSy-0123456789abcdefghij",
     Some (modelFor Samples.noConfig "AIzaSy-0123456789abcdefghij"),
     Some "AIzaSy-0123456789abcdefghij").
Proof.
  refine (proj1 (accepted_key_is_kept_and_never_asked_again
                   (Samples.withAnswer "  AIzaSy-0123456789abcdefghij "
                                       Samples.quietWorld)
                   "explain recursion" Samples.unconfigured
                   (or_introl eq_refl) eq_refl _)).
  vm_compute. discriminate.
Defined.

(** *** [streamResponse] *)

Lemma streamResponse_delegates (w : World) (input : string) (st : State) :
  includes streamingVerbs (p_command (parseCommand input)) = false ->
  exists r,
    executeCommand w input st = (Normal r, snd (executeCommand w input st)) /\
    streamResponse w input st
    = (Normal [output r], snd (executeCommand w input st)).
Proof.
  intros Hv. destruct (executeCommand_total w input st) as [r Hr].
  exists r. unfold streamResponse. rewrite Hv. cbn [negb]. unfold bind.
  destruct (executeCommand w input st) as [c s1]. simpl in Hr. subst c.
  split; reflexivity.
Qed.

Lemma streamResponse_streams (w : World) (input : string) (st : State) :
  includes streamingVerbs (p_command (parseCommand input)) = true ->
  exists chunks log,
    streamResponse w input st = (Normal chunks, logged log st) /\
    (List.length log <= 1)%nat /\ forallb isStream log = true /\
    (t_model st = None -> log = []).
Proof.
  intros Hv. unfold streamResponse. rewrite Hv. cbn [negb]. unfold bind, get.
  destruct (t_model st) as [m|] eqn:Hm.
  - rewrite emit_logged.
    destruct (generateContentStream w m _) as [[chunks [err|]]|err];
      eexists; exists [GenerateContentStream m
                         (streamPrompt (p_command (parseCommand input))
                                       (p_args (parseCommand input)))];
      (split; [reflexivity|]); repeat split; auto; discriminate.
  - eexists; exists []. split.
    + unfold ret, logged. rewrite app_nil_r. now destruct st.
    + repeat split; auto.
Qed.

Lemma streamResponse_total (w : World) (input : string) (st : State) :
  exists chunks, fst (streamResponse w input st) = Normal chunks.
Proof.
  destruct (includes streamingVerbs (p_command (parseCommand input))) eqn:Hv.
  - destruct (streamResponse_streams w input st Hv) as [chunks [log [E _]]].
    exists chunks. now rewrite E.
  - destruct (streamResponse_delegates w input st Hv) as [r [_ E]].
    exists [output r]. now rewrite E.
Qed.

(** X13.  [streamResponse] never throws, and it records nothing itself.
    For a line whose parsed verb is [explain], [generate] or [summarize]
    the generator leaves the history and the client as they are and adds
    to the trace at most one event, a call to the streaming endpoint
    (none without a model); for any other line it yields exactly one
    fragment, the output of [executeCommand] on that line, and leaves
    the terminal as [executeCommand] does. *)
Theorem streamResponse_never_throws_and_records_only_by_delegation
    (w : World) (input : string) (st : State) :
  exists chunks,
    fst (streamResponse w input st) = Normal chunks /\
    if includes streamingVerbs (p_command (parseCommand input)) then
      t_history (snd (streamResponse w input st)) = t_history st /\
      client (snd (streamResponse w input st)) = client st /\
      exists log,
        trace (snd (streamResponse w input st)) = (trace st ++ log)%list /\
        (List.length log <= 1)%nat /\ forallb isStream log = true /\
        (t_model st = None -> log = [])
    else
      exists r,
        executeCommand w input st = (Normal r, snd (streamResponse w input st)) /\
        chunks = [output r].
Proof.
  destruct (includes streamingVerbs (p_command (parseCommand input))) eqn:Hv.
  - destruct (streamResponse_streams w input st Hv) as [chunks [log [E H]]].
    exists chunks. rewrite E. split; [reflexivity|].
    split; [reflexivity|]. split; [reflexivity|]. exists log. now split.
  - destruct (streamResponse_delegates w input st Hv) as [r [E1 E2]].
    exists [output r]. rewrite E2. split; [reflexivity|]. exists r. now split.
Qed.

(** *** The model and the configuration *)

Lemma keepsConfig_refl (cfg : TerminalConfig) (s : State) : keepsConfig cfg s s.
Proof. intros H. exact H. Qed.

Lemma keepsConfig_trans (cfg : TerminalConfig) (a b c : State) :
  keepsConfig cfg a b -> keepsConfig cfg b c -> keepsConfig cfg a c.
Proof. unfold keepsConfig. auto. Qed.

Lemma keepsConfig_consoleLogAll (cfg : TerminalConfig) (ls : list string) :
  steps (keepsConfig cfg) (consoleLogAll ls).
Proof.
  induction ls as [|l ls IH].
  - apply (steps_still _ (keepsConfig_refl cfg)). reflexivity.
  - cbn [consoleLogAll]. apply (steps_bind _ (keepsConfig_trans cfg)).
    + intros s H. exact H.
    + intros _. exact IH.
Qed.

Ltac config_leaf :=
  first [ assumption
        | apply keepsConfig_consoleLogAll
        | (intros ? [? ?]; split; cbn; congruence) ].

Lemma executeCommand_keepsConfig (cfg : TerminalConfig) (w : World) (input : string) :
  steps (keepsConfig cfg) (executeCommand w input).
Proof.
  unfold executeCommand, runCase, historyAdd, handleClear, executeShellCommand,
    withModel, promptForApiKey, setupAI, consoleLog,
    handleAICommand, handleExplain, handleGenerate, handleSummarize,
    callGeminiAPI, handleVision.
  stepping (keepsConfig_refl cfg) (keepsConfig_trans cfg) config_leaf.
Qed.

Lemma truthyNumber_false (n : JS.number) :
  JS.truthyNumber n = false <->
  n = JS.NaN \/ exists q, n = JS.Finite q /\ (q == 0)%Q.
Proof.
  destruct n as [q| | |]; cbn [JS.truthyNumber]; split.
  - intros H. right. exists q. split; [reflexivity|].
    apply Qeq_bool_iff. now destruct (Qeq_bool q 0).
  - intros [H|[q0 [H Hz]]]; [discriminate|]. inversion H; subst q0.
    apply Qeq_bool_iff in Hz. now rewrite Hz.
  - discriminate.
  - intros [H|[q0 [H _]]]; discriminate.
  - discriminate.
  - intros [H|[q0 [H _]]]; discriminate.
  - now left.
  - reflexivity.
Qed.

Lemma temperatureOr_truthy (t : option JS.number) :
  JS.truthyNumber (temperatureOr t) = true.
Proof.
  unfold temperatureOr. destruct t as [n|]; [|reflexivity].
  destruct (JS.truthyNumber n) eqn:E; [exact E|reflexivity].
Qed.

(** X14.  The text model always comes from the configuration.  At every
    point of a session that starts with the constructor, the
    configuration is the one given, and the model, when there is one, is
    the one built from that configuration and the key of the client: its
    name is the configured one (or [gemini-2.5-flash] when none or an
    empty one is configured) and its temperature is the configured one
    unless that is missing, zero or [NaN], in which case it is 0.7; so
    the temperature of the text model is never zero and never [NaN]. *)
Theorem text_model_always_comes_from_the_configuration
    (cfg : TerminalConfig) (env : option string) (lines : list (World * string)) :
  config (session lines (newAITerminal cfg env)) = cfg /\
  t_model (session lines (newAITerminal cfg env))
  = option_map (modelFor cfg) (genAI (session lines (newAITerminal cfg env))) /\
  forall m,
    t_model (session lines (newAITerminal cfg env)) = Some m ->
    genAI (session lines (newAITerminal cfg env)) = Some (gm_apiKey m) /\
    gm_model m = match model cfg with
                 | Some n => JS.orElse n "gemini-2.5-flash"
                 | None => "gemini-2.5-flash"
                 end /\
    exists n,
      gm_temperature m = Some n /\
      n <> JS.NaN /\
      (forall q, n = JS.Finite q -> ~ (q == 0)%Q) /\
      (forall n0,
          temperature cfg = Some n0 ->
          n0 <> JS.NaN -> (forall q, n0 = JS.Finite q -> ~ (q == 0)%Q) ->
          n = n0) /\
      ((temperature cfg = None \/ temperature cfg = Some JS.NaN \/
        exists q0, temperature cfg = Some (JS.Finite q0) /\ (q0 == 0)%Q) ->
       n = JS.Finite (7 # 10)).
Proof.
  assert (H : fromConfig cfg (session lines (newAITerminal cfg env))).
  { assert (H0 : fromConfig cfg (newAITerminal cfg env)) by (split; reflexivity).
    revert H0. generalize (newAITerminal cfg env).
    induction lines as [|[w input] rest IH]; intros s Hs; cbn [session];
      [exact Hs|].
    apply IH. exact (executeCommand_keepsConfig cfg w input s Hs). }
  destruct H as [Hc Hm]. split; [exact Hc|]. split; [exact Hm|].
  intros m Em. rewrite Em in Hm.
  destruct (genAI (session lines (newAITerminal cfg env))) as [key|];
    [|discriminate].
  simpl in Hm. inversion Hm as [Hmk]. split; [reflexivity|].
  split; [reflexivity|].
  exists (temperatureOr (temperature cfg)). split; [reflexivity|].
  pose proof (temperatureOr_truthy (temperature cfg)) as Ht.
  split; [intros E; rewrite E in Ht; discriminate|].
  split.
  { intros q E Hz. rewrite E in Ht. cbn in Ht.
    apply Qeq_bool_iff in Hz. rewrite Hz in Ht. discriminate. }
  split.
  - intros n0 Hn Hnan Hnz. rewrite Hn. unfold temperatureOr.
    destruct (JS.truthyNumber n0) eqn:E; [reflexivity|].
    apply truthyNumber_false in E as [E|[q [E Hz]]]; [contradiction|].
    exfalso. exact (Hnz q E Hz).
  - intros [Hn|[Hn|[q0 [Hn Hz]]]]; rewrite Hn; [reflexivity|reflexivity|].
    unfold temperatureOr. cbn [JS.truthyNumber].
    apply Qeq_bool_iff in Hz. now rewrite Hz.
Qed.

(** *** The key at start and the key at the prompt *)

(** X15.  A terminal comes out of the constructor with a model exactly
    when [validateApiKey] accepts the configured key, and then the key of
    its client is the configured one if that is not empty and the one of
    the environment otherwise. *)
Theorem configured_at_start_iff_key_is_valid
    (cfg : TerminalConfig) (env : option string) :
  (t_model (newAITerminal cfg env) <> None <->
   validateApiKey (apiKey cfg) env = true) /\
  (validateApiKey (apiKey cfg) env = true ->
   genAI (newAITerminal cfg env) = startKey cfg env) /\
  (validateApiKey (apiKey cfg) env = false ->
   genAI (newAITerminal cfg env) = None).
Proof.
  unfold newAITerminal, validateApiKey, startKey. cbn.
  destruct (apiKey cfg) as [[|c k]|]; cbn;
    destruct env as [[|c' k']|]; cbn;
    repeat split; intros; try congruence; try discriminate.
Qed.

(** X16.  The prompt is stricter than the constructor.  A key that is
    not empty and shorter than 20 characters configures the terminal
    when it comes from the environment at start; typed at the prompt of
    a terminal that has none, the same key is turned down, the terminal
    stays without a model, and the AI verb that made it ask fails. *)
Theorem prompt_is_stricter_than_start
    (w : World) (cfg : TerminalConfig) (key input : string) :
  key <> EmptyString ->
  Z.of_nat (String.length key) < 20 ->
  JS.trim key = key ->
  question w (promptQuery w) = key ->
  apiKey cfg = None ->
  caseOf (p_command (parseCommand input)) = CaseAI ->
  t_model (newAITerminal cfg (Some key)) = Some (modelFor cfg key) /\
  executeCommand w input (newAITerminal cfg None)
  = (Normal (noApiKeyResult w),
     logged (promptEvents w (invalidKeyLine w)) (newAITerminal cfg None)).
Proof.
  intros Hne Hlen Htrim Hq Hcfg Hcase. split.
  - unfold newAITerminal, validateApiKey. rewrite Hcfg.
    destruct key; [congruence|reflexivity].
  - apply executeCommand_return. unfold runCase. rewrite Hcase.
    unfold withModel, bind, get.
    replace (t_model (newAITerminal cfg None)) with (@None GenerativeModel)
      by (unfold newAITerminal; now rewrite Hcfg).
    rewrite promptForApiKey_spec, Hq, Htrim.
    destruct key; [congruence|]. cbn [JS.truthy negb].
    apply Z.ltb_lt in Hlen. now rewrite Hlen.
Qed.

Lemma prompt_is_stricter_than_start_witness :
  t_model (newAITerminal Samples.noConfig (Some "short-key"))
  = Some (modelFor Samples.noConfig "short-key") /\
  executeCommand (Samples.withAnswer "short-key" Samples.quietWorld)
                 "explain recursion" (newAITerminal Samples.noConfig None)
  = (Normal (noApiKeyResult (Samples.withAnswer "short-key" Samples.quietWorld)),
     logged (promptEvents (Samples.withAnswer "short-key" Samples.quietWorld)
                          (invalidKeyLine (Samples.withAnswer "short-key"
                                                              Samples.quietWorld)))
            (newAITerminal Samples.noConfig None)).
Proof.
  apply (prompt_is_stricter_than_start
           (Samples.withAnswer "short-key" Samples.quietWorld)
           Samples.noConfig "short-key" "explain recursion");
    first [discriminate | reflexivity | (vm_compute; reflexivity)].
Defined.

(** *** Image requests *)

Lemma getMimeType_known (extension : string) :
  existsb (String.eqb (getMimeType extension)) imageTypes = true.
Proof.
  unfold getMimeType, mimeTypes. cbn [lookup].
  repeat match goal with
         | |- context [if String.eqb ?a ?b then _ else _] =>
             destruct (String.eqb a b)
         end; reflexivity.
Qed.

Lemma emits_handleVision_image (w : World) (imagePath : string) :
  emits imageRequestOk noEvent 0 (handleVision w imagePath).
Proof.
  pose proof (getMimeType_known (extname w imagePath)) as Hk.
  unfold handleVision.
  remember (getMimeType (extname w imagePath)) as mt eqn:Hmt. clear Hmt.
  unfold imageTypes in Hk. cbn [existsb] in Hk.
  repeat (apply orb_true_iff in Hk; destruct Hk as [Hk|Hk]);
    try discriminate Hk; apply String.eqb_eq in Hk; subst mt; effects.
Qed.

Lemma executeCommand_image_requests (w : World) (input : string) :
  emits imageRequestOk noEvent 0 (executeCommand w input).
Proof.
  pose proof (emits_consoleLogAll imageRequestOk noEvent
                (fun _ => eq_refl) (fun _ => eq_refl)) as H1.
  pose proof (emits_setupAI imageRequestOk noEvent
                (fun _ => eq_refl) (fun _ => eq_refl) w) as H2.
  pose proof (emits_handleVision_image w) as H3.
  unfold executeCommand, runCase.
  destruct (caseOf (p_command (parseCommand input)));
    unfold withModel, promptForApiKey, handleAICommand,
      handleExplain, handleGenerate, handleSummarize, callGeminiAPI,
      handleClear, historyAdd, executeShellCommand; effects.
Qed.

(** X17.  Every image request is well formed.  Through a whole session,
    in worlds where [path.extname] returns nothing or an extension with
    its dot, each call to the image endpoint goes to the model
    [gemini-1.5-flash] (whatever model is configured), without
    generation settings, with the fixed analysis prompt and with one of
    the types [image/jpeg], [image/png], [image/gif], [image/webp].
    (The table of types is an object literal: the condition on
    [path.extname] keeps the lookup to the keys written in it.) *)
Theorem image_requests_are_well_formed
    (lines : list (World * string)) (st : State) :
  (forall w input, In (w, input) lines -> dotted w) ->
  exists log,
    trace (session lines st) = (trace st ++ log)%list /\
    forallb imageRequestOk log = true.
Proof.
  intros _. revert st.
  induction lines as [|[w input] rest IH]; intros st; cbn [session].
  - exists []. now rewrite app_nil_r.
  - destruct (executeCommand_image_requests w input st) as [l1 [E1 [Q1 _]]].
    destruct (IH (snd (executeCommand w input st))) as [l2 [E2 Q2]].
    exists (l1 ++ l2)%list. rewrite E2, E1, app_assoc. split; [reflexivity|].
    now rewrite forallb_app, Q1, Q2.
Qed.

Lemma image_requests_are_well_formed_witness :
  exists log,
    trace (session [(Scenes.pictureWorld, "vision photo.PNG")] Samples.configured)
    = (trace Samples.configured ++ log)%list /\
    forallb imageRequestOk log = true /\
    log = [ExistsSync "photo.PNG"; ReadFileSync "photo.PNG";
           GenerateContentImage
             {| gm_apiKey := "AIzaSy-0123456789abcdefghij";
                gm_model := "gemini-1.5-flash"; gm_temperature := None |}
             "bytes" "image/png" visionPrompt].
Proof.
  destruct (image_requests_are_well_formed
              [(Scenes.pictureWorld, "vision photo.PNG")] Samples.configured)
    as [log [E H]].
  - intros w input [Eq|[]]. inversion Eq. intros p. right.
    exists "PNG". reflexivity.
  - exists log. split; [exact E|]. split; [exact H|].
    symmetry. exact E.
Defined.

End TerminalMore.

(** ** The front ends: [exec] of the CLI and the handlers of the UI *)

Module FrontEnds.
Import Utils Terminal Observations Effects Requests Routing.
Import HistoryFacts TerminalFacts StringFacts RouterFacts RouterMore TerminalMore.

(** *** [exec <command>] *)

(** C6.  The streaming entry point makes no argument check.  On a
    terminal with a model, whatever the world, [executeCommand] given
    the line [explain] returns the usage failure and calls nothing,
    while [streamResponse] given the same line calls the streaming
    endpoint with the bare instruction and yields what it answers; and
    [exec explain] of the CLI, which takes the streaming path, makes
    that call and exits with status 0. *)
Theorem streamed_empty_argument_reaches_the_model (w : World) :
  p_command (parseCommand "explain") = "explain" /\
  p_args (parseCommand "explain") = EmptyString /\
  executeCommand w "explain" Samples.configured
  = (Normal {| success := false;
               output := "Please provide text to explain. Usage: explain <text>";
               error := Some "Missing text" |}, Samples.configured) /\
  trace Samples.configured = [] /\
  trace (snd (streamResponse w "explain" Samples.configured))
  = [GenerateContentStream
       {| gm_apiKey := "AIzaSy-0123456789abcdefghij";
          gm_model := "gemini-2.5-flash";
          gm_temperature := Some (JS.Finite (7 # 10)) |}
       ("Explain this in 2-3 lines max, concise and technical:" ++ nl ++ nl)] /\
  fst (streamResponse w "explain" Samples.configured)
  = match generateContentStream w
            {| gm_apiKey := "AIzaSy-0123456789abcdefghij";
               gm_model := "gemini-2.5-flash";
               gm_temperature := Some (JS.Finite (7 # 10)) |}
            ("Explain this in 2-3 lines max, concise and technical:" ++ nl ++ nl)
    with
    | Normal (chunks, None) => Normal chunks
    | Normal (chunks, Some err) =>
        Normal (chunks ++ [("Error: " ++ messageOf err "Unknown error")%string])%list
    | Throw err => Normal ["Error: " ++ messageOf err "Unknown error"]
    end /\
  CLI.exitStatus (CLI.exec w (Some "AIzaSy-0123456789abcdefghij") "explain") = 0 /\
  trace (CLI.terminal (CLI.exec w (Some "AIzaSy-0123456789abcdefghij") "explain"))
  = trace (snd (streamResponse w "explain" Samples.configured)).
Proof.
  split; [reflexivity|]. split; [reflexivity|]. split; [reflexivity|].
  split; [reflexivity|].
  assert (E : streamResponse w "explain" Samples.configured
              = let m := {| gm_apiKey := "AIzaSy-0123456789abcdefghij";
                            gm_model := "gemini-2.5-flash";
                            gm_temperature := Some (JS.Finite (7 # 10)) |} in
                let prompt := "Explain this in 2-3 lines max, concise and technical:"
                              ++ nl ++ nl in
                (match generateContentStream w m prompt with
                 | Normal (chunks, None) => Normal chunks
                 | Normal (chunks, Some err) =>
                     Normal (chunks ++ [("Error: " ++ messageOf err "Unknown error")%string])%list
                 | Throw err => Normal ["Error: " ++ messageOf err "Unknown error"]
                 end,
                 logged [GenerateContentStream m prompt] Samples.configured)).
  { cbv zeta. unfold streamResponse.
    generalize (generateContentStream w). intros g. vm_compute.
    destruct (g _ _) as [[chunks [err|]]|err]; reflexivity. }
  cbv zeta in E.
  split; [now rewrite E|]. split; [now rewrite E|].
  unfold CLI.exec.
  change (someVerbStarts "explain") with true. cbv iota.
  change (newAITerminal {| apiKey := None; model := None; temperature := None |}
                        (Some "AIzaSy-0123456789abcdefghij"))
    with Samples.configured.
  rewrite E.
  destruct (generateContentStream w _ _) as [[chunks [err|]]|err];
    split; reflexivity.
Qed.

Lemma chunks_on_stdout (w : World) (chunks : list string) :
  forallb (fun o => negb (CLI.isStderr o))
          (map (fun chunk => CLI.StdoutWrite (chalk w green chunk)) chunks) = true.
Proof. induction chunks as [|c r IH]; [reflexivity|exact IH]. Qed.

(** X18.  The exit status of [exec].  The action never reaches its
    [catch]: nothing is written to the standard error.  The process
    exits with status 1 exactly when the command does not start with
    [explain], [generate] or [summarize] and its result is a failure;
    in every other case it exits with status 0.  So a command that
    starts with one of the three words exits with 0 whatever happens to
    it. *)
Theorem exec_exit_status (w : World) (env : option string) (command : string) :
  forallb (fun o => negb (CLI.isStderr o)) (CLI.written (CLI.exec w env command))
  = true /\
  (CLI.exitStatus (CLI.exec w env command) = 0 \/
   CLI.exitStatus (CLI.exec w env command) = 1) /\
  (CLI.exitStatus (CLI.exec w env command) = 1 <->
   someVerbStarts command = false /\
   exists r,
     fst (executeCommand w command (newAITerminal Samples.noConfig env)) = Normal r /\
     success r = false).
Proof.
  unfold CLI.exec. fold Samples.noConfig.
  destruct (someVerbStarts command) eqn:Hs.
  - destruct (streamResponse_total w command (newAITerminal Samples.noConfig env))
      as [chunks Hc].
    destruct (streamResponse w command (newAITerminal Samples.noConfig env))
      as [r t]. simpl in Hc. subst r. cbn [CLI.written CLI.exitStatus].
    split.
    + rewrite !forallb_app, chunks_on_stdout. reflexivity.
    + split; [now left|]. split; [discriminate|]. intros [H _]. discriminate H.
  - destruct (executeCommand_total w command (newAITerminal Samples.noConfig env))
      as [r Hr].
    destruct (executeCommand w command (newAITerminal Samples.noConfig env))
      as [x t]. simpl in Hr. subst x. cbn [fst].
    destruct (success r) eqn:Hsucc; cbn [CLI.written CLI.exitStatus].
    + split; [reflexivity|]. split; [now left|]. split; [discriminate|].
      intros [_ [r' [E F]]]. inversion E; subst r'. congruence.
    + split; [reflexivity|]. split; [now right|]. split; [|reflexivity].
      intros _. split; [reflexivity|]. now exists r.
Qed.

(** *** The explain mode of the component *)

Lemma explainLine_parsed (s : string) :
  p_command (parseCommand (UI.explainLine s)) = "explain" /\
  p_args (parseCommand (UI.explainLine s)) <> EmptyString.
Proof.
  change (UI.explainLine s)
    with ("explain" ++ String JS.SP (dq ++ "What would this command do: " ++ s ++ dq)).
  rewrite parse_verb_argument by (first [reflexivity|discriminate]).
  split; [reflexivity|]. cbn [p_args].
  change (dq ++ "What would this command do: " ++ s ++ dq)
    with (String JS.DQ ("What would this command do: " ++ s ++ dq)).
  rewrite replaceLineBreaks_cons.
  change (JS.isLineBreak JS.DQ) with false. cbv iota.
  unfold JS.trim. cbn [JS.trimStart].
  change (JS.isWhiteSpace JS.DQ) with false. cbv iota.
  rewrite trimEnd_cons.
  destruct (JS.trimEnd _); [|discriminate].
  change (JS.isWhiteSpace JS.DQ) with false. discriminate.
Qed.

(** The props do not change: nothing happens at a render. *)
Lemma render_same (w : World) (p : UI.Props) (k : UI.Component) :
  UI.props k = Some p -> UI.render w p k = k.
Proof.
  intros H. unfold UI.render. rewrite H. unfold UI.sameDeps.
  rewrite Nat.eqb_refl, Bool.eqb_reflx. cbn [andb].
  destruct k as [c o a q e l]. cbn in H. now subst q.
Qed.

Lemma renders_calm (w : World) (p : UI.Props) (ps : list UI.Props) (k : UI.Component) :
  UI.props k = Some p -> (forall q, In q ps -> q = p) -> UI.renders w ps k = k.
Proof.
  intros Hp. unfold UI.renders. induction ps as [|q ps IH]; intros H; [reflexivity|].
  cbn [fold_left]. rewrite (H q (or_introl eq_refl)), (render_same w p k Hp).
  apply IH. intros q' Hq'. apply H. now right.
Qed.

(** X19.  The explain mode never runs the command.  With a stable
    [config] and [explainMode] set (every render that takes place while
    the handler awaits is given the props of the last render), whatever
    is typed, the line sent to the terminal parses to the verb
    [explain] with an argument that is not empty, so the terminal never
    starts a process for it; [executeCommand] of the component returns
    normally, with the echo of the input and the answer appended to the
    lines and the loading flag cleared, and the cell [terminal] still
    refers to the same object. *)
Theorem explain_mode_never_runs_the_command
    (w : World) (random : nat -> string) (awaiting : nat -> list UI.Props)
    (input : string) (k : UI.Component) (p : UI.Props) (r : nat) :
  UI.props k = Some p ->
  UI.explainMode p = true ->
  UI.terminal (UI.cells k) = Some r ->
  UI.calm p awaiting ->
  JS.trim input <> EmptyString ->
  exists res t' log,
    p_command (parseCommand (UI.explainLine (JS.trim input))) = "explain" /\
    p_args (parseCommand (UI.explainLine (JS.trim input))) <> EmptyString /\
    executeCommand w (UI.explainLine (JS.trim input))
                   (UI.inProcess k (UI.objects k r)) = (Normal res, t') /\
    trace t' = (UI.events k ++ log)%list /\
    forallb (fun e => negb (isSpawn e)) log = true /\
    UI.executeCommand w random awaiting input k
    = (Normal tt,
       {| UI.cells :=
            {| UI.terminal := Some r;
               UI.lines :=
                 (UI.lines (UI.cells k) ++
                  [UI.lineOf w (random 0%nat) ("$ " ++ JS.trim input)
                             UI.LineInput false;
                   UI.lineOf w (random 1%nat) (output res) (UI.lineTypeOf res)
                             false])%list;
               UI.currentInput := UI.currentInput (UI.cells k);
               UI.isLoading := false;
               UI.historyIndex := UI.historyIndex (UI.cells k);
               UI.error := UI.error (UI.cells k) |};
          UI.objects := UI.override (UI.objects k) r t';
          UI.allocated := UI.allocated k;
          UI.props := Some p;
          UI.env := env_GEMINI_API_KEY t';
          UI.events := trace t' |}).
Proof.
  intros Hp Hx Hr Hcalm Hne.
  destruct (explainLine_parsed (JS.trim input)) as [Hcmd Hargs].
  destruct (executeCommand_total w (UI.explainLine (JS.trim input))
              (UI.inProcess k (UI.objects k r))) as [res Hres].
  assert (Hcase : caseOf (p_command (parseCommand (UI.explainLine (JS.trim input))))
                  <> CaseDefault) by (rewrite Hcmd; discriminate).
  destruct (executeCommand_builtin_no_spawn w _ Hcase
              (UI.inProcess k (UI.objects k r))) as [log [Hlog [Hq _]]].
  unfold UI.executeCommand. rewrite Hp, Hr.
  destruct (JS.trim input) as [|a s] eqn:Etrim; [congruence|].
  cbn [JS.truthy negb]. rewrite Hx. unfold UI.invoke.
  cbn [UI.onCells UI.cells UI.objects UI.allocated UI.props UI.env UI.events].
  change (UI.inProcess _ (UI.objects k r)) with (UI.inProcess k (UI.objects k r)).
  destruct (executeCommand w (UI.explainLine (String a s))
              (UI.inProcess k (UI.objects k r))) as [x t'].
  cbn [fst snd] in Hres, Hlog. subst x. exists res, t', log.
  repeat (split; [assumption || reflexivity|]).
  rewrite Hp. rewrite (renders_calm w p) by (reflexivity || apply Hcalm).
  unfold UI.onCells, UI.addLine, UI.setIsLoading, UI.setLines, UI.lineOf.
  cbn [fst snd UI.cells UI.objects UI.allocated UI.props UI.env UI.events
       UI.terminal UI.lines UI.currentInput UI.isLoading UI.historyIndex
       UI.error UI.line_id].
  now rewrite Hr, <- app_assoc.
Qed.

Lemma explain_mode_never_runs_the_command_witness :
  exists res,
    fst (UI.executeCommand Samples.quietWorld (fun _ => "0.5")
           (fun _ => [Scenes.explainProps]) " rm -rf / "
           (Scenes.mounted Scenes.explainProps)) = Normal tt /\
    UI.lines (UI.cells (snd (UI.executeCommand Samples.quietWorld (fun _ => "0.5")
                               (fun _ => [Scenes.explainProps]) " rm -rf / "
                               (Scenes.mounted Scenes.explainProps))))
    = [UI.welcome Samples.quietWorld Scenes.explainProps;
       UI.lineOf Samples.quietWorld "0.5" "$ rm -rf /" UI.LineInput false;
       UI.lineOf Samples.quietWorld "0.5" (output res) (UI.lineTypeOf res) false].
Proof.
  destruct (explain_mode_never_runs_the_command Samples.quietWorld (fun _ => "0.5")
              (fun _ => [Scenes.explainProps]) " rm -rf / "
              (Scenes.mounted Scenes.explainProps) Scenes.explainProps 0%nat
              eq_refl eq_refl eq_refl)
    as [res [t' [log [_ [_ [_ [_ [_ E]]]]]]]].
  - intros n q [<-|[]]. reflexivity.
  - vm_compute. discriminate.
  - exists res. rewrite E. split; reflexivity.
Defined.

(** *** The arrow keys *)

Section Keys.
Variables (w : World) (random : nat -> string).

Lemma recall_in_range (hs : list HistoryItem) (i : Z) (k : UI.Component) :
  0 <= i < Z.of_nat (List.length hs) ->
  exists item,
    JS.arrayGet hs i = Some item /\
    UI.recall hs i k = (Normal tt, UI.placed i (command item) k).
Proof.
  intros Hi. destruct (arrayGet_in_bounds hs i Hi) as [item E].
  exists item. split; [exact E|]. unfold UI.recall. now rewrite E.
Qed.

Lemma press_up (aw : nat -> list UI.Props) (k : UI.Component) (r : nat) :
  UI.terminal (UI.cells k) = Some r ->
  UI.handleKeyDown w random UI.arrowUp aw k
  = if 0 <? Z.of_nat (List.length (getAll (getHistory (UI.objects k r)))) then
      UI.recall (getAll (getHistory (UI.objects k r)))
        (if UI.historyIndex (UI.cells k) =? -1
         then Z.of_nat (List.length (getAll (getHistory (UI.objects k r)))) - 1
         else Z.max 0 (UI.historyIndex (UI.cells k) - 1)) k
    else (Normal tt, k).
Proof. intros Ht. unfold UI.handleKeyDown. cbn. now rewrite Ht. Qed.

Lemma press_down (aw : nat -> list UI.Props) (k : UI.Component) (r : nat) :
  UI.terminal (UI.cells k) = Some r ->
  UI.handleKeyDown w random UI.arrowDown aw k
  = if 0 <=? UI.historyIndex (UI.cells k) then
      if Z.of_nat (List.length (getAll (getHistory (UI.objects k r))))
         <=? UI.historyIndex (UI.cells k) + 1
      then (Normal tt, UI.placed (-1) EmptyString k)
      else UI.recall (getAll (getHistory (UI.objects k r)))
                     (UI.historyIndex (UI.cells k) + 1) k
    else (Normal tt, k).
Proof. intros Ht. unfold UI.handleKeyDown. cbn. now rewrite Ht. Qed.

Lemma interact_app (a b : list UI.action) (k : UI.Component) :
  UI.interact w random (a ++ b) k
  = match UI.interact w random a k with
    | (Normal _, k') => UI.interact w random b k'
    | (Throw e, k') => (Throw e, k')
    end.
Proof.
  revert k. induction a as [|[e aw|v|q] a IH]; intros k; cbn [app UI.interact].
  - reflexivity.
  - destruct (UI.handleKeyDown w random e aw k) as [[[]|x] k'];
      [apply IH|reflexivity].
  - apply IH.
  - apply IH.
Qed.

Variables (r : nat) (k : UI.Component).
Hypothesis at_r : UI.terminal (UI.cells k) = Some r.

Let hs : list HistoryItem := getAll (getHistory (UI.objects k r)).
Let n : Z := Z.of_nat (List.length hs).

Lemma ups_from (m : nat) :
  forall (i : Z) (text : string),
    0 <= i < n ->
    (exists item, JS.arrayGet hs i = Some item /\ text = command item) ->
    exists item,
      JS.arrayGet hs (Z.max 0 (i - Z.of_nat m)) = Some item /\
      UI.interact w random
        (map (fun e => UI.Press e UI.idle) (repeat UI.arrowUp m))
        (UI.placed i text k)
      = (Normal tt, UI.placed (Z.max 0 (i - Z.of_nat m)) (command item) k).
Proof.
  induction m as [|m IH]; intros i text Hi [item [E Etext]].
  - exists item. replace (Z.max 0 (i - Z.of_nat 0)) with i by lia.
    split; [exact E|]. now subst text.
  - cbn [repeat map UI.interact].
    rewrite (press_up UI.idle (UI.placed i text k) r at_r).
    change (UI.objects (UI.placed i text k) r) with (UI.objects k r).
    fold hs. fold n.
    replace (0 <? n) with true by (symmetry; apply Z.ltb_lt; lia).
    change (UI.historyIndex (UI.cells (UI.placed i text k))) with i.
    replace (i =? -1) with false by (symmetry; apply Z.eqb_neq; lia).
    destruct (recall_in_range hs (Z.max 0 (i - 1)) (UI.placed i text k))
      as [it1 [E1 R1]]; [fold n; lia|].
    rewrite R1.
    change (UI.placed (Z.max 0 (i - 1)) (command it1) (UI.placed i text k))
      with (UI.placed (Z.max 0 (i - 1)) (command it1) k).
    destruct (IH (Z.max 0 (i - 1)) (command it1)) as [it2 [E2 R2]];
      [lia|now exists it1|].
    exists it2.
    replace (Z.max 0 (i - Z.of_nat (S m)))
      with (Z.max 0 (Z.max 0 (i - 1) - Z.of_nat m)) by lia.
    now split.
Qed.

Lemma downs_off (m : nat) (k0 : UI.Component) :
  UI.terminal (UI.cells k0) = Some r ->
  UI.historyIndex (UI.cells k0) = -1 ->
  UI.interact w random
    (map (fun e => UI.Press e UI.idle) (repeat UI.arrowDown m)) k0
  = (Normal tt, k0).
Proof.
  intros Ht Hi. induction m as [|m IH]; [reflexivity|].
  cbn [repeat map UI.interact]. rewrite (press_down UI.idle k0 r Ht).
  rewrite Hi. cbn. exact IH.
Qed.

Lemma downs_from (m : nat) :
  forall (i : Z) (text : string),
    0 <= i < n ->
    (exists item, JS.arrayGet hs i = Some item /\ text = command item) ->
    exists k',
      UI.interact w random
        (map (fun e => UI.Press e UI.idle) (repeat UI.arrowDown m))
        (UI.placed i text k) = (Normal tt, k') /\
      if i + Z.of_nat m <? n then
        exists item,
          JS.arrayGet hs (i + Z.of_nat m) = Some item /\
          k' = UI.placed (i + Z.of_nat m) (command item) k
      else k' = UI.placed (-1) EmptyString k.
Proof.
  induction m as [|m IH]; intros i text Hi [item [E Etext]].
  - exists (UI.placed i text k). split; [reflexivity|].
    replace (i + Z.of_nat 0) with i by lia.
    replace (i <? n) with true by (symmetry; apply Z.ltb_lt; lia).
    exists item. split; [exact E|now subst text].
  - cbn [repeat map UI.interact].
    rewrite (press_down UI.idle (UI.placed i text k) r at_r).
    change (UI.objects (UI.placed i text k) r) with (UI.objects k r).
    fold hs. fold n.
    change (UI.historyIndex (UI.cells (UI.placed i text k))) with i.
    replace (0 <=? i) with true by (symmetry; apply Z.leb_le; lia).
    destruct (n <=? i + 1) eqn:Hend.
    + apply Z.leb_le in Hend.
      change (UI.placed (-1) EmptyString (UI.placed i text k))
        with (UI.placed (-1) EmptyString k).
      rewrite downs_off by (exact at_r || reflexivity).
      exists (UI.placed (-1) EmptyString k). split; [reflexivity|].
      now replace (i + Z.of_nat (S m) <? n) with false
        by (symmetry; apply Z.ltb_ge; lia).
    + apply Z.leb_gt in Hend.
      destruct (recall_in_range hs (i + 1) (UI.placed i text k))
        as [it1 [E1 R1]]; [fold n; lia|].
      rewrite R1.
      change (UI.placed (i + 1) (command it1) (UI.placed i text k))
        with (UI.placed (i + 1) (command it1) k).
      destruct (IH (i + 1) (command it1)) as [k' [R2 H2]];
        [lia|now exists it1|].
      exists k'. split; [exact R2|].
      now replace (i + Z.of_nat (S m)) with (i + 1 + Z.of_nat m) by lia.
Qed.

End Keys.

Lemma arrow_press (w : World) (random : nat -> string) (e : UI.KeyboardEvent)
    (aw : nat -> list UI.Props) (k : UI.Component) :
  UI.isArrow e ->
  UI.handleKeyDown w random e aw k = UI.handleKeyDown w random e UI.idle k /\
  UI.props (snd (UI.handleKeyDown w random e aw k)) = UI.props k.
Proof.
  intros [-> | ->]; (split; [reflexivity|]); unfold UI.handleKeyDown; cbn;
    destruct (UI.terminal (UI.cells k)); try reflexivity.
  - destruct (0 <? _); [|reflexivity]. unfold UI.recall.
    destruct (JS.arrayGet _ _); reflexivity.
  - destruct (0 <=? _); [|reflexivity]. destruct (_ <=? _); [reflexivity|].
    unfold UI.recall. destruct (JS.arrayGet _ _); reflexivity.
Qed.

(** With steady props and nothing typed, a run of arrow keys does what
    its keys do. *)
Lemma interact_arrows (w : World) (random : nat -> string) (p : UI.Props)
    (actions : list UI.action) :
  forall k,
    UI.props k = Some p ->
    Forall (UI.steady p) actions ->
    Forall (fun a => UI.edits a = false) actions ->
    Forall UI.isArrow (UI.pressed actions) ->
    UI.interact w random actions k
    = UI.interact w random
        (map (fun e => UI.Press e UI.idle) (UI.pressed actions)) k.
Proof.
  induction actions as [|[e aw|v|q] rest IH]; intros k Hp Hs He Ha.
  - reflexivity.
  - inversion Hs; inversion He; subst.
    cbn [UI.pressed flat_map app] in Ha. inversion Ha; subst.
    cbn [UI.pressed flat_map app map UI.interact].
    destruct (arrow_press w random e aw k) as [E1 E2]; [assumption|].
    rewrite <- E1.
    destruct (UI.handleKeyDown w random e aw k) as [[[]|x] k'];
      [|reflexivity].
    apply IH; try assumption. cbn in E2. congruence.
  - inversion He; subst. discriminate.
  - inversion Hs; inversion He; subst. cbn [UI.steady] in *. subst q.
    cbn [UI.pressed flat_map app UI.interact]. rewrite (render_same w p k Hp).
    now apply IH.
Qed.

(** X20.  The arrow keys walk the history and stop at its ends.  With a
    stable [config] (every render of the run is given the props of the
    last render), the cursor off, a history that is not empty and
    nothing typed, a run that presses [ArrowUp] [n] times ([n >= 1]) and
    then [ArrowDown] [j] times, with renders anywhere between, is
    handled without an exception; the first [ArrowUp] shows the newest
    command and each further one the command before, staying on the
    oldest one once it is reached; each [ArrowDown] then shows the
    command after, and the one pressed on the newest command switches
    the cursor off and empties the input, after which [ArrowDown] does
    nothing.  Nothing else of the component changes. *)
Theorem arrow_keys_walk_the_history
    (w : World) (random : nat -> string) (p : UI.Props) (r : nat)
    (k : UI.Component) (actions : list UI.action) (n j : nat) :
  UI.props k = Some p ->
  UI.terminal (UI.cells k) = Some r ->
  UI.historyIndex (UI.cells k) = -1 ->
  getAll (getHistory (UI.objects k r)) <> [] ->
  (1 <= n)%nat ->
  Forall (UI.steady p) actions ->
  Forall (fun a => UI.edits a = false) actions ->
  UI.pressed actions = (repeat UI.arrowUp n ++ repeat UI.arrowDown j)%list ->
  exists k',
    UI.interact w random actions k = (Normal tt, k') /\
    if Z.max 0 (Z.of_nat (List.length (getAll (getHistory (UI.objects k r))))
                - Z.of_nat n)
       + Z.of_nat j <? Z.of_nat (List.length (getAll (getHistory (UI.objects k r))))
    then
      exists item,
        JS.arrayGet (getAll (getHistory (UI.objects k r)))
          (Z.max 0 (Z.of_nat (List.length (getAll (getHistory (UI.objects k r))))
                    - Z.of_nat n) + Z.of_nat j) = Some item /\
        k' = UI.placed
               (Z.max 0 (Z.of_nat (List.length (getAll (getHistory (UI.objects k r))))
                         - Z.of_nat n) + Z.of_nat j)
               (command item) k
    else k' = UI.placed (-1) EmptyString k.
Proof.
  intros Hp Ht Hi Hne Hn Hs He Hk.
  assert (Ha : Forall UI.isArrow (UI.pressed actions)).
  { rewrite Hk. apply Forall_app. split; apply Forall_forall; intros e Hin;
      apply repeat_spec in Hin; subst e; [now left|now right]. }
  rewrite (interact_arrows w random p actions k Hp Hs He Ha), Hk.
  assert (Hlen : 0 < Z.of_nat (List.length (getAll (getHistory (UI.objects k r))))).
  { destruct (getAll (getHistory (UI.objects k r))); [congruence|].
    cbn [List.length]. lia. }
  set (len := Z.of_nat (List.length (getAll (getHistory (UI.objects k r))))) in *.
  destruct n as [|n]; [lia|]. clear Hn.
  rewrite map_app, interact_app.
  cbn [repeat map UI.interact]. rewrite (press_up w random UI.idle k r Ht).
  fold len. replace (0 <? len) with true by (symmetry; apply Z.ltb_lt; lia).
  rewrite Hi. change (-1 =? -1) with true. cbv iota.
  destruct (recall_in_range (getAll (getHistory (UI.objects k r))) (len - 1) k)
    as [it0 [E0 R0]]; [fold len; lia|].
  rewrite R0.
  destruct (ups_from w random r k Ht n (len - 1) (command it0))
    as [it1 [E1 R1]]; [fold len; lia|now exists it0|].
  fold len in E1, R1. rewrite R1.
  replace (Z.max 0 (len - Z.of_nat (S n)))
    with (Z.max 0 (len - 1 - Z.of_nat n)) by lia.
  destruct (downs_from w random r k Ht j
              (Z.max 0 (len - 1 - Z.of_nat n)) (command it1))
    as [k' [R2 H2]]; [fold len; lia|now exists it1|].
  fold len in H2. exists k'. split; [exact R2|exact H2].
Qed.

Lemma arrow_keys_walk_the_history_witness :
  exists k',
    UI.interact Samples.quietWorld (fun _ => "0.5")
      [UI.Press UI.arrowUp UI.idle; UI.Render Scenes.plainProps;
       UI.Press UI.arrowUp UI.idle; UI.Press UI.arrowUp UI.idle;
       UI.Press UI.arrowDown UI.idle]
      (Scenes.worked Scenes.plainProps) = (Normal tt, k') /\
    UI.historyIndex (UI.cells k') = 1 /\ UI.currentInput (UI.cells k') = "pwd".
Proof.
  destruct (arrow_keys_walk_the_history Samples.quietWorld (fun _ => "0.5")
              Scenes.plainProps 0%nat (Scenes.worked Scenes.plainProps)
              [UI.Press UI.arrowUp UI.idle; UI.Render Scenes.plainProps;
               UI.Press UI.arrowUp UI.idle; UI.Press UI.arrowUp UI.idle;
               UI.Press UI.arrowDown UI.idle] 3%nat 1%nat)
    as [k' [R H]].
  - reflexivity.
  - reflexivity.
  - reflexivity.
  - vm_compute. discriminate.
  - lia.
  - repeat constructor; intros n q [].
  - repeat constructor.
  - reflexivity.
  - exists k'. split; [exact R|].
    vm_compute in H. destruct H as [item [E ->]].
    inversion E. split; reflexivity.
Defined.

(** *** No key reads outside the history *)

Lemma append_empty_r (s : string) : s ++ EmptyString = s.
Proof. induction s as [|a s IH]; [reflexivity|]. cbn. now rewrite IH. Qed.

Lemma append_assoc (a b c : string) : (a ++ b) ++ c = a ++ b ++ c.
Proof. induction a as [|x a IH]; [reflexivity|]. cbn. now rewrite IH. Qed.

Lemma append_inj_l (p a b : string) : p ++ a = p ++ b -> a = b.
Proof.
  induction p as [|x p IH]; intros H; [exact H|]. inversion H. now apply IH.
Qed.

Lemma concat_cons (x : string) (xs : list string) :
  String.concat EmptyString (x :: xs) = x ++ String.concat EmptyString xs.
Proof. destruct xs; cbn [String.concat]; [now rewrite append_empty_r|reflexivity]. Qed.

Lemma updateLine_twice (id x y : string) (b b' : bool) (c : UI.Cells) :
  UI.updateLine id x b (UI.updateLine id y b' c) = UI.updateLine id x b c.
Proof.
  unfold UI.updateLine, UI.setLines. cbn. f_equal. rewrite map_map.
  apply map_ext. intros l. destruct (String.eqb (UI.line_id l) id) eqn:E; cbn.
  - now rewrite E.
  - now rewrite E.
Qed.

(** With steady props the renders between two fragments change
    nothing: the text adds up, and a last update of the line wipes out
    the ones before. *)
Lemma showChunks_calm (w : World) (p : UI.Props) (aw : nat -> list UI.Props)
    (id : string) (chunks : list string) :
  UI.calm p aw ->
  forall (n : nat) (acc : string) (k : UI.Component),
    UI.props k = Some p ->
    fst (UI.showChunks w aw id chunks n acc k)
    = acc ++ String.concat EmptyString chunks /\
    forall x b,
      UI.onCells (UI.updateLine id x b) (snd (UI.showChunks w aw id chunks n acc k))
      = UI.onCells (UI.updateLine id x b) k.
Proof.
  intros Hcalm. induction chunks as [|ch rest IH]; intros n acc k Hp.
  - cbn. now rewrite append_empty_r.
  - cbn [UI.showChunks].
    rewrite (renders_calm w p) by (exact Hp || apply Hcalm).
    destruct (IH (S n) (acc ++ ch)
                 (UI.onCells (UI.updateLine id (acc ++ ch) true) k) Hp) as [H1 H2].
    split.
    + now rewrite H1, concat_cons, append_assoc.
    + intros x b. rewrite H2. unfold UI.onCells.
      cbn [UI.cells UI.objects UI.allocated UI.props UI.env UI.events].
      now rewrite updateLine_twice.
Qed.

(** With steady props a command leaves the cell [terminal] and the
    props as they are. *)
Lemma executeCommand_keeps (w : World) (random : nat -> string) (p : UI.Props)
    (aw : nat -> list UI.Props) (input : string) (k : UI.Component) :
  UI.props k = Some p ->
  UI.calm p aw ->
  UI.terminal (UI.cells (snd (UI.executeCommand w random aw input k)))
  = UI.terminal (UI.cells k) /\
  UI.props (snd (UI.executeCommand w random aw input k)) = Some p.
Proof.
  intros Hp Hcalm. unfold UI.executeCommand. rewrite Hp.
  destruct (UI.terminal (UI.cells k)) as [r|] eqn:Ht; [|now split].
  destruct (negb (JS.truthy (JS.trim input))); [now split|].
  unfold UI.invoke.
  destruct (UI.explainMode p).
  - destruct (executeCommand w _ _) as [[res|e] t1];
      rewrite (renders_calm w p) by (exact Hp || apply Hcalm);
      cbn; now rewrite Ht, Hp.
  - destruct (someVerbStarts (JS.trim input)).
    + destruct (streamResponse w _ _) as [[chunks|e] t1];
        rewrite (renders_calm w p) by (exact Hp || apply Hcalm).
      * match goal with
        | |- context [UI.showChunks w aw ?i chunks ?n ?a ?k0] =>
            destruct (showChunks_calm w p aw i chunks Hcalm n a k0 Hp) as [_ H];
            destruct (UI.showChunks w aw i chunks n a k0) as [acc k1]
        end.
        cbn [snd] in H. cbn [fst snd]. specialize (H acc false).
        split.
        -- apply (f_equal (fun x => UI.terminal (UI.cells x))) in H.
           cbn in H. cbn. now rewrite H.
        -- apply (f_equal UI.props) in H. cbn in H. cbn. now rewrite H.
      * cbn. now rewrite Ht, Hp.
    + destruct (executeCommand w _ _) as [[res|e] t1];
        rewrite (renders_calm w p) by (exact Hp || apply Hcalm);
        cbn; now rewrite Ht, Hp.
Qed.

Lemma key_keeps_cursor_on_history
    (w : World) (random : nat -> string) (p : UI.Props)
    (e : UI.KeyboardEvent) (aw : nat -> list UI.Props) (k : UI.Component) :
  UI.props k = Some p ->
  UI.calm p aw ->
  UI.onHistory k ->
  fst (UI.handleKeyDown w random e aw k) = Normal tt /\
  UI.onHistory (snd (UI.handleKeyDown w random e aw k)) /\
  UI.props (snd (UI.handleKeyDown w random e aw k)) = Some p.
Proof.
  intros Hp Hcalm [r [Ht Hi]]. unfold UI.handleKeyDown.
  destruct (String.eqb (UI.key e) "Enter" && negb (UI.shiftKey e)
            && negb (UI.isLoading (UI.cells k))).
  { destruct (executeCommand_keeps w random p aw (UI.currentInput (UI.cells k)) k
                Hp Hcalm) as [H1 H2].
    split; [reflexivity|]. split; [|exact H2].
    exists r. split; [cbn; now rewrite H1|]. now left. }
  rewrite Ht.
  set (hs := getAll (getHistory (UI.objects k r))) in *.
  destruct (String.eqb (UI.key e) "ArrowUp").
  { destruct (0 <? Z.of_nat (List.length hs)) eqn:Hn.
    - apply Z.ltb_lt in Hn.
      set (j := if UI.historyIndex (UI.cells k) =? -1
                then Z.of_nat (List.length hs) - 1
                else Z.max 0 (UI.historyIndex (UI.cells k) - 1)).
      assert (Hj : 0 <= j < Z.of_nat (List.length hs)).
      { unfold j. destruct (UI.historyIndex (UI.cells k) =? -1); lia. }
      destruct (recall_in_range hs j k Hj) as [item [_ R]].
      rewrite R. split; [reflexivity|]. split; [|exact Hp].
      exists r. split; [exact Ht|]. right. exact Hj.
    - split; [reflexivity|]. split; [|exact Hp]. exists r. now split. }
  destruct (String.eqb (UI.key e) "ArrowDown").
  { destruct (0 <=? UI.historyIndex (UI.cells k)) eqn:H0.
    - destruct (Z.of_nat (List.length hs) <=? UI.historyIndex (UI.cells k) + 1)
        eqn:Hend.
      + split; [reflexivity|]. split; [|exact Hp].
        exists r. split; [exact Ht|]. now left.
      + apply Z.leb_gt in Hend. apply Z.leb_le in H0.
        destruct (recall_in_range hs (UI.historyIndex (UI.cells k) + 1) k)
          as [item [_ R]]; [lia|].
        rewrite R. split; [reflexivity|]. split; [|exact Hp].
        exists r. split; [exact Ht|]. right. cbn. fold hs. lia.
    - split; [reflexivity|]. split; [|exact Hp]. exists r. now split. }
  destruct (String.eqb (UI.key e) "l" && UI.ctrlKey e);
    (split; [reflexivity|]); (split; [|exact Hp]); exists r; now split.
Qed.

(** X21.  The keys never read outside the history.  With a stable
    [config] (every render of the run, also while a command awaits, is
    given the props of the last render), from a component whose cursor
    is off or on an entry of the history of its terminal, whatever is
    typed and whatever keys are pressed, [Enter] included, in either
    mode, no handler throws, and the cursor ends off or on an entry of
    the history the terminal then has. *)
Theorem keys_never_read_outside_the_history
    (w : World) (random : nat -> string) (p : UI.Props)
    (actions : list UI.action) (k : UI.Component) :
  UI.props k = Some p ->
  Forall (UI.steady p) actions ->
  UI.onHistory k ->
  fst (UI.interact w random actions k) = Normal tt /\
  UI.onHistory (snd (UI.interact w random actions k)).
Proof.
  revert k. induction actions as [|[e aw|v|q] rest IH]; intros k Hp Hs Hc;
    cbn [UI.interact].
  - now split.
  - inversion Hs; subst. cbn [UI.steady] in *.
    destruct (key_keeps_cursor_on_history w random p e aw k Hp) as [K1 [K2 K3]];
      [assumption|assumption|].
    destruct (UI.handleKeyDown w random e aw k) as [x k'].
    cbn in K1, K2, K3. subst x. now apply IH.
  - inversion Hs; subst. apply IH; [exact Hp|assumption|].
    destruct Hc as [r [Ht Hi]]. exists r. now split.
  - inversion Hs; subst. cbn [UI.steady] in *. subst q.
    rewrite (render_same w p k Hp). now apply IH.
Qed.

Lemma keys_never_read_outside_the_history_witness :
  fst (UI.interact Samples.quietWorld (fun _ => "0.5")
         [UI.Type_ "ls"; UI.Press UI.enter (fun _ => [Scenes.plainProps]);
          UI.Render Scenes.plainProps;
          UI.Press UI.arrowUp UI.idle; UI.Press UI.arrowUp UI.idle;
          UI.Type_ "clear"; UI.Press UI.enter UI.idle;
          UI.Press UI.arrowDown UI.idle; UI.Press UI.arrowUp UI.idle]
         (Scenes.mounted Scenes.plainProps)) = Normal tt.
Proof.
  apply (keys_never_read_outside_the_history Samples.quietWorld (fun _ => "0.5")
           Scenes.plainProps).
  - reflexivity.
  - repeat constructor; intros n q H; cbn in H; intuition.
  - exists 0%nat. split; [reflexivity|]. left. reflexivity.
Defined.

(** *** A streamed answer on the screen *)

(** X22.  A streamed answer ends up whole on the screen.  With a stable
    [config], outside the explain mode, for a line that starts with
    [explain], [generate] or [summarize], [executeCommand] of the
    component returns normally; if the two ids it draws differ and the
    second one is not the id of a line already on the screen, the lines
    are the former ones followed by the echo of the input and by one
    output line that holds the fragments of [streamResponse] joined in
    order and is no longer marked as streaming; the loading flag is
    cleared. *)
Theorem streamed_answer_ends_up_whole
    (w : World) (random : nat -> string) (awaiting : nat -> list UI.Props)
    (input : string) (k : UI.Component) (p : UI.Props) (r : nat) :
  UI.props k = Some p ->
  UI.explainMode p = false ->
  UI.terminal (UI.cells k) = Some r ->
  UI.calm p awaiting ->
  JS.trim input <> EmptyString ->
  someVerbStarts (JS.trim input) = true ->
  random 0%nat <> random 1%nat ->
  (forall l, In l (UI.lines (UI.cells k)) ->
             UI.line_id l <> UI.newLineId w (random 1%nat)) ->
  exists chunks t',
    streamResponse w (JS.trim input) (UI.inProcess k (UI.objects k r))
    = (Normal chunks, t') /\
    UI.executeCommand w random awaiting input k
    = (Normal tt,
       {| UI.cells :=
            {| UI.terminal := Some r;
               UI.lines :=
                 (UI.lines (UI.cells k) ++
                  [UI.lineOf w (random 0%nat) ("$ " ++ JS.trim input)
                             UI.LineInput false;
                   UI.lineOf w (random 1%nat) (String.concat EmptyString chunks)
                             UI.LineOutput false])%list;
               UI.currentInput := UI.currentInput (UI.cells k);
               UI.isLoading := false;
               UI.historyIndex := UI.historyIndex (UI.cells k);
               UI.error := UI.error (UI.cells k) |};
          UI.objects := UI.override (UI.objects k) r t';
          UI.allocated := UI.allocated k;
          UI.props := Some p;
          UI.env := env_GEMINI_API_KEY t';
          UI.events := trace t' |}).
Proof.
  intros Hp Hx Ht Hcalm Hne Hs Hrnd Hfresh.
  destruct (streamResponse_total w (JS.trim input)
              (UI.inProcess k (UI.objects k r))) as [chunks Hc].
  unfold UI.executeCommand. rewrite Hp, Ht.
  destruct (JS.trim input) as [|a s] eqn:Etrim; [congruence|].
  cbn [JS.truthy negb]. rewrite Hx, Hs. unfold UI.invoke.
  cbn [UI.onCells UI.cells UI.objects UI.allocated UI.props UI.env UI.events].
  change (UI.inProcess _ (UI.objects k r)) with (UI.inProcess k (UI.objects k r)).
  destruct (streamResponse w (String a s) (UI.inProcess k (UI.objects k r)))
    as [x t'].
  cbn [fst] in Hc. subst x. exists chunks, t'. split; [reflexivity|].
  rewrite Hp. rewrite (renders_calm w p) by (reflexivity || apply Hcalm).
  match goal with
  | |- context [UI.showChunks w awaiting ?i chunks ?n ?acc ?k0] =>
      destruct (showChunks_calm w p awaiting i chunks Hcalm n acc k0 eq_refl)
        as [H1 H2];
      destruct (UI.showChunks w awaiting i chunks n acc k0) as [acc' k1]
  end.
  cbn [fst snd] in H1, H2. rewrite H2. subst acc'. cbn [append].
  unfold UI.onCells, UI.updateLine, UI.addLine, UI.setLines, UI.setIsLoading,
    UI.lineOf.
  cbn -[UI.newLineId].
  rewrite Ht. do 3 f_equal. rewrite <- app_assoc. cbn [app].
  rewrite map_app. f_equal.
  - rewrite <- (map_id (UI.lines (UI.cells k))) at 2. apply map_ext_in.
    intros l Hl. specialize (Hfresh l Hl).
    destruct (String.eqb (UI.line_id l) (UI.newLineId w (random 1%nat))) eqn:E;
      [|reflexivity].
    apply String.eqb_eq in E. contradiction.
  - cbn [map UI.line_id].
    replace (String.eqb (UI.newLineId w (random 0%nat))
                        (UI.newLineId w (random 1%nat))) with false.
    + now rewrite String.eqb_refl.
    + symmetry. apply String.eqb_neq. intros E. apply Hrnd.
      unfold UI.newLineId in E. rewrite <- !append_assoc in E.
      exact (append_inj_l _ _ _ E).
Qed.

Lemma streamed_answer_ends_up_whole_witness :
  exists chunks,
    fst (UI.executeCommand Samples.quietWorld
           (fun n => match n with O => "0.25" | _ => "0.75" end)
           (fun _ => [Scenes.plainProps]) "explain recursion"
           (Scenes.mounted Scenes.plainProps)) = Normal tt /\
    UI.lines (UI.cells (snd (UI.executeCommand Samples.quietWorld
                               (fun n => match n with O => "0.25" | _ => "0.75" end)
                               (fun _ => [Scenes.plainProps]) "explain recursion"
                               (Scenes.mounted Scenes.plainProps))))
    = [UI.welcome Samples.quietWorld Scenes.plainProps;
       UI.lineOf Samples.quietWorld "0.25" "$ explain recursion" UI.LineInput false;
       UI.lineOf Samples.quietWorld "0.75" (String.concat EmptyString chunks)
                 UI.LineOutput false] /\
    chunks = ["o"; "k"].
Proof.
  destruct (streamed_answer_ends_up_whole Samples.quietWorld
              (fun n => match n with O => "0.25" | _ => "0.75" end)
              (fun _ => [Scenes.plainProps]) "explain recursion"
              (Scenes.mounted Scenes.plainProps) Scenes.plainProps 0%nat
              eq_refl eq_refl eq_refl) as [chunks [t' [S E]]].
  - intros n q [<-|[]]. reflexivity.
  - vm_compute. discriminate.
  - reflexivity.
  - discriminate.
  - intros l [<-|[]]. vm_compute. discriminate.
  - exists chunks. rewrite E. split; [reflexivity|]. split; [reflexivity|].
    vm_compute in S. now inversion S.
Defined.

(** *** What the arrow keys can recall *)

Lemma last_entry (w : World) (input : string) (st : State) (r : CommandResult)
    (st' : State) :
  executeCommand w input st = (Normal r, st') ->
  success r = true -> output r <> EmptyString ->
  exists older,
    entries st'
    = (older ++ [{| command := JS.trim input; item_output := output r;
                    timestamp := now w |}])%list.
Proof.
  intros E Hs Ho.
  assert (Hlog : success r && JS.truthy (output r) = true).
  { rewrite Hs. destruct (output r); [congruence|reflexivity]. }
  destruct (caseOf (p_command (parseCommand input))) eqn:Hc.
  4:{ destruct (entries_after_clear w input st Hc) as [res [E1 [_ E2]]].
      rewrite E in E1, E2. cbn in E1, E2. inversion E1; subst res.
      exists []. exact E2. }
  all: destruct (entries_unless_clear w input st) as [res [E1 E2]];
    [rewrite Hc; discriminate|].
  all: rewrite E in E1, E2; cbn in E1, E2; inversion E1; subst res.
  all: rewrite Hlog in E2; now exists (entries st).
Qed.

Lemma explainLine_trimmed (s : string) :
  JS.trim (UI.explainLine s) = UI.explainLine s.
Proof.
  unfold JS.trim.
  change (JS.trimStart (UI.explainLine s)) with (UI.explainLine s).
  change (UI.explainLine s)
    with (("explain " ++ dq ++ "What would this command do: " ++ s) ++ dq).
  now rewrite trimEnd_append.
Qed.

Lemma arrayGet_last {A : Type} (older : list A) (x : A) :
  JS.arrayGet (older ++ [x]) (Z.of_nat (List.length (older ++ [x])) - 1) = Some x.
Proof.
  rewrite length_app. cbn [List.length].
  replace (Z.of_nat (List.length older + 1) - 1) with (Z.of_nat (List.length older))
    by lia.
  rewrite arrayGet_nat, nth_error_app2 by lia.
  now rewrite Nat.sub_diag.
Qed.

Lemma override_same (objects : nat -> State) (r : nat) (s : State) :
  UI.override objects r s r = s.
Proof. unfold UI.override. now rewrite Nat.eqb_refl. Qed.

(** What a command that goes to [executeCommand] of the terminal leaves
    in the object, with steady props. *)
Lemma executeCommand_blocking (w : World) (random : nat -> string) (p : UI.Props)
    (aw : nat -> list UI.Props) (input : string) (k : UI.Component) (r : nat)
    (res : CommandResult) (t' : State) :
  UI.props k = Some p ->
  UI.terminal (UI.cells k) = Some r ->
  UI.calm p aw ->
  JS.trim input <> EmptyString ->
  UI.explainMode p = true \/ someVerbStarts (JS.trim input) = false ->
  executeCommand w (if UI.explainMode p then UI.explainLine (JS.trim input)
                    else JS.trim input)
                 (UI.inProcess k (UI.objects k r)) = (Normal res, t') ->
  UI.objects (snd (UI.executeCommand w random aw input k)) r = t'.
Proof.
  intros Hp Ht Hcalm Hne Hroute E. unfold UI.executeCommand. rewrite Hp, Ht.
  destruct (JS.trim input) as [|a s] eqn:Etrim; [congruence|].
  cbn [JS.truthy negb]. unfold UI.invoke.
  cbn [UI.onCells UI.cells UI.objects UI.allocated UI.props UI.env UI.events].
  change (UI.inProcess _ (UI.objects k r)) with (UI.inProcess k (UI.objects k r)).
  destruct (UI.explainMode p).
  - rewrite E. rewrite Hp, (renders_calm w p) by (reflexivity || apply Hcalm).
    cbn. apply override_same.
  - destruct Hroute as [Hx|Hx]; [discriminate|]. rewrite Hx, E.
    rewrite Hp, (renders_calm w p) by (reflexivity || apply Hcalm).
    cbn. apply override_same.
Qed.

(** X23.  [ArrowUp] recalls the line that was sent to the terminal.
    With a stable [config], when the component is not loading and
    [Enter] sends a line to [executeCommand] of the terminal (in the
    explain mode, or for a line that does not start with [explain],
    [generate] or [summarize]) and the result is a success with an
    output that is not empty, the next [ArrowUp] puts into the input the
    line the terminal was given: the typed line without the white space
    around it outside the explain mode, and in the explain mode the
    wrapped line, [explain "What would this command do: ..."], not what
    was typed. *)
Theorem arrow_up_recalls_the_line_sent
    (w : World) (random : nat -> string) (p : UI.Props)
    (aw aw' : nat -> list UI.Props)
    (input : string) (k : UI.Component) (r : nat) (t' : State)
    (res : CommandResult) :
  UI.props k = Some p ->
  UI.terminal (UI.cells k) = Some r ->
  UI.isLoading (UI.cells k) = false ->
  UI.calm p aw ->
  JS.trim input <> EmptyString ->
  UI.explainMode p = true \/ someVerbStarts (JS.trim input) = false ->
  executeCommand w (if UI.explainMode p then UI.explainLine (JS.trim input)
                    else JS.trim input)
                 (UI.inProcess k (UI.objects k r)) = (Normal res, t') ->
  success res = true ->
  output res <> EmptyString ->
  exists k',
    UI.interact w random
      [UI.Type_ input; UI.Press UI.enter aw; UI.Press UI.arrowUp aw'] k
    = (Normal tt, k') /\
    UI.terminal (UI.cells k') = Some r /\
    UI.objects k' r = t' /\
    UI.historyIndex (UI.cells k')
    = Z.of_nat (List.length (getAll (getHistory t'))) - 1 /\
    UI.currentInput (UI.cells k')
    = if UI.explainMode p then UI.explainLine (JS.trim input) else JS.trim input.
Proof.
  intros Hp Ht Hl Hcalm Hne Hroute E Hs Ho.
  destruct (last_entry _ _ _ _ _ E Hs Ho) as [older Hlast].
  assert (Hline : JS.trim (if UI.explainMode p then UI.explainLine (JS.trim input)
                           else JS.trim input)
                  = if UI.explainMode p then UI.explainLine (JS.trim input)
                    else JS.trim input).
  { destruct (UI.explainMode p); [apply explainLine_trimmed|apply trim_idem]. }
  rewrite Hline in Hlast. unfold entries in Hlast.
  set (k0 := UI.handleChange input k).
  assert (Hp0 : UI.props k0 = Some p) by exact Hp.
  assert (Ht0 : UI.terminal (UI.cells k0) = Some r) by exact Ht.
  destruct (executeCommand_keeps w random p aw input k0 Hp0 Hcalm) as [K1 K2].
  pose proof (executeCommand_blocking w random p aw input k0 r res t'
                Hp0 Ht0 Hcalm Hne Hroute E) as K3.
  cbn [UI.interact]. fold k0. unfold UI.handleKeyDown at 1.
  change (String.eqb (UI.key UI.enter) "Enter") with true.
  change (UI.shiftKey UI.enter) with false.
  change (UI.isLoading (UI.cells k0)) with (UI.isLoading (UI.cells k)).
  rewrite Hl. cbn [negb andb].
  change (UI.currentInput (UI.cells k0)) with input.
  set (k1 := snd (UI.executeCommand w random aw input k0)) in *.
  rewrite Ht0 in K1.
  set (k2 := UI.onCells _ k1).
  assert (Ht2 : UI.terminal (UI.cells k2) = Some r) by exact K1.
  rewrite (press_up w random aw' k2 r Ht2).
  change (UI.objects k2 r) with (UI.objects k1 r). rewrite K3.
  change (getAll (getHistory t')) with (history (t_history t')).
  rewrite Hlast.
  replace (0 <? Z.of_nat (List.length (older ++ [_])%list)) with true
    by (symmetry; apply Z.ltb_lt; rewrite length_app; cbn [List.length]; lia).
  change (UI.historyIndex (UI.cells k2)) with (-1).
  change (-1 =? -1) with true. cbv iota.
  unfold UI.recall. rewrite arrayGet_last.
  eexists. split; [reflexivity|].
  split; [exact K1|]. split; [exact K3|]. split; reflexivity.
Qed.

Lemma arrow_up_recalls_the_line_sent_witness :
  exists k',
    UI.interact Samples.quietWorld (fun _ => "0.5")
      [UI.Type_ "ls -la"; UI.Press UI.enter (fun _ => [Scenes.explainProps]);
       UI.Press UI.arrowUp UI.idle]
      (Scenes.mounted Scenes.explainProps) = (Normal tt, k') /\
    UI.currentInput (UI.cells k') = UI.explainLine "ls -la".
Proof.
  destruct (arrow_up_recalls_the_line_sent Samples.quietWorld (fun _ => "0.5")
              Scenes.explainProps (fun _ => [Scenes.explainProps]) UI.idle
              "ls -la" (Scenes.mounted Scenes.explainProps) 0%nat
              (snd (executeCommand Samples.quietWorld (UI.explainLine "ls -la")
                      (UI.inProcess (Scenes.mounted Scenes.explainProps)
                         (UI.objects (Scenes.mounted Scenes.explainProps) 0%nat))))
              {| success := true; output := "ok"; error := None |}
              eq_refl eq_refl eq_refl) as [k' [R [_ [_ [_ H]]]]].
  - intros n q [<-|[]]. reflexivity.
  - vm_compute. discriminate.
  - now left.
  - vm_compute. reflexivity.
  - reflexivity.
  - discriminate.
  - exists k'. split; [exact R|exact H].
Defined.

(** X24.  A streamed line cannot be recalled.  With a stable [config],
    outside the explain mode, a line that the component sends to
    [streamResponse] and whose parsed verb is [explain], [generate] or
    [summarize] leaves the cell [terminal] and the history, the client
    and the model of the terminal as they were, whatever the answer:
    the arrow keys then walk the same entries as before. *)
Theorem streamed_line_is_not_recallable
    (w : World) (random : nat -> string) (p : UI.Props)
    (aw : nat -> list UI.Props) (input : string) (k : UI.Component) (r : nat) :
  UI.props k = Some p ->
  UI.explainMode p = false ->
  UI.terminal (UI.cells k) = Some r ->
  UI.calm p aw ->
  JS.trim input <> EmptyString ->
  someVerbStarts (JS.trim input) = true ->
  includes streamingVerbs (p_command (parseCommand (JS.trim input))) = true ->
  UI.terminal (UI.cells (snd (UI.executeCommand w random aw input k))) = Some r /\
  getAll (getHistory (UI.objects (snd (UI.executeCommand w random aw input k)) r))
  = getAll (getHistory (UI.objects k r)) /\
  genAI (UI.objects (snd (UI.executeCommand w random aw input k)) r)
  = genAI (UI.objects k r) /\
  t_model (UI.objects (snd (UI.executeCommand w random aw input k)) r)
  = t_model (UI.objects k r).
Proof.
  intros Hp Hx Ht Hcalm Hne Hs Hv.
  destruct (executeCommand_keeps w random p aw input k Hp Hcalm) as [K1 _].
  split; [now rewrite K1|].
  destruct (streamResponse_streams w (JS.trim input)
              (UI.inProcess k (UI.objects k r)) Hv) as [chunks [log [E _]]].
  unfold UI.executeCommand. rewrite Hp, Ht.
  destruct (JS.trim input) as [|a s] eqn:Etrim; [congruence|].
  cbn [JS.truthy negb]. rewrite Hx, Hs. unfold UI.invoke.
  cbn [UI.onCells UI.cells UI.objects UI.allocated UI.props UI.env UI.events].
  change (UI.inProcess _ (UI.objects k r)) with (UI.inProcess k (UI.objects k r)).
  rewrite E. rewrite Hp, (renders_calm w p) by (reflexivity || apply Hcalm).
  match goal with
  | |- context [UI.showChunks w aw ?i chunks ?n ?acc ?k0] =>
      destruct (showChunks_calm w p aw i chunks Hcalm n acc k0 eq_refl)
        as [_ H2];
      destruct (UI.showChunks w aw i chunks n acc k0) as [acc' k1]
  end.
  cbn [snd] in H2. rewrite H2.
  cbn [snd UI.onCells UI.cells UI.objects UI.allocated UI.props UI.env UI.events].
  rewrite override_same. now repeat split.
Qed.

Lemma streamed_line_is_not_recallable_witness :
  UI.terminal (UI.cells (snd (UI.executeCommand Samples.quietWorld (fun _ => "0.5")
                                (fun _ => [Scenes.plainProps]) "explain recursion"
                                (Scenes.worked Scenes.plainProps)))) = Some 0%nat /\
  map command
    (getAll (getHistory
               (UI.objects (snd (UI.executeCommand Samples.quietWorld
                                   (fun _ => "0.5") (fun _ => [Scenes.plainProps])
                                   "explain recursion"
                                   (Scenes.worked Scenes.plainProps))) 0%nat)))
  = ["ls"; "pwd"].
Proof.
  destruct (streamed_line_is_not_recallable Samples.quietWorld (fun _ => "0.5")
              Scenes.plainProps (fun _ => [Scenes.plainProps]) "explain recursion"
              (Scenes.worked Scenes.plainProps) 0%nat eq_refl eq_refl eq_refl)
    as [H1 [H2 _]].
  - intros n q [<-|[]]. reflexivity.
  - vm_compute. discriminate.
  - reflexivity.
  - reflexivity.
  - split; [exact H1|]. rewrite H2. reflexivity.
Defined.

(** *** A [config] that changes *)

(** X25.  A render with another [config] object forgets the history.
    When a render is given a [config] that is not the object of the
    render before (as every render is when the prop is left out, for
    the default [{}] is a new object each time) or another
    [explainMode], the initialisation effect runs again: the cell
    [terminal] then refers to a new terminal, built from the new
    configuration and the key of the environment, whose history is
    empty; the lines are the welcome line alone; the objects created
    before are untouched; and [ArrowUp] recalls nothing. *)
Theorem changed_config_forgets_the_history
    (w : World) (random : nat -> string) (p q : UI.Props)
    (aw : nat -> list UI.Props) (k : UI.Component) :
  UI.props k = Some q ->
  UI.sameDeps q p = false ->
  UI.terminal (UI.cells (UI.render w p k)) = Some (UI.allocated k) /\
  UI.objects (UI.render w p k) (UI.allocated k)
  = newAITerminal (UI.config p) (UI.env k) /\
  getAll (getHistory (UI.objects (UI.render w p k) (UI.allocated k))) = [] /\
  UI.lines (UI.cells (UI.render w p k)) = [UI.welcome w p] /\
  (forall r, r <> UI.allocated k ->
             UI.objects (UI.render w p k) r = UI.objects k r) /\
  UI.handleKeyDown w random UI.arrowUp aw (UI.render w p k)
  = (Normal tt, UI.render w p k).
Proof.
  intros Hq Hd. unfold UI.render. rewrite Hq, Hd.
  unfold UI.initialize.
  cbn [UI.cells UI.objects UI.allocated UI.props UI.env UI.events
       UI.terminal UI.lines UI.setError UI.setLines UI.setTerminal].
  split; [reflexivity|]. split; [apply override_same|].
  split; [now rewrite override_same|]. split; [reflexivity|]. split.
  - intros r Hr. unfold UI.override.
    destruct (Nat.eqb r (UI.allocated k)) eqn:E; [|reflexivity].
    apply Nat.eqb_eq in E. contradiction.
  - unfold UI.handleKeyDown. cbn. now rewrite override_same.
Qed.

Lemma changed_config_forgets_the_history_witness :
  (exists k',
      UI.interact Samples.quietWorld (fun _ => "0.5")
        [UI.Type_ "ls"; UI.Press UI.enter UI.idle;
         UI.Render (Scenes.defaultProps 0); UI.Press UI.arrowUp UI.idle]
        (Scenes.mounted (Scenes.defaultProps 0)) = (Normal tt, k') /\
      UI.currentInput (UI.cells k') = "ls") /\
  (exists k',
      UI.interact Samples.quietWorld (fun _ => "0.5")
        [UI.Type_ "ls"; UI.Press UI.enter UI.idle;
         UI.Render (Scenes.defaultProps 1); UI.Press UI.arrowUp UI.idle]
        (Scenes.mounted (Scenes.defaultProps 0)) = (Normal tt, k') /\
      UI.currentInput (UI.cells k') = EmptyString /\
      UI.terminal (UI.cells k') = Some 1%nat /\
      UI.lines (UI.cells k')
      = [UI.welcome Samples.quietWorld (Scenes.defaultProps 1)]).
Proof.
  split.
  - eexists. split; [vm_compute; reflexivity|reflexivity].
  - set (k1 := snd (UI.interact Samples.quietWorld (fun _ => "0.5")
                      [UI.Type_ "ls"; UI.Press UI.enter UI.idle]
                      (Scenes.mounted (Scenes.defaultProps 0)))).
    destruct (changed_config_forgets_the_history Samples.quietWorld (fun _ => "0.5")
                (Scenes.defaultProps 1) (Scenes.defaultProps 0) UI.idle k1
                eq_refl eq_refl) as [H1 [_ [_ [H4 [_ H6]]]]].
    exists (UI.render Samples.quietWorld (Scenes.defaultProps 1) k1).
    split; [|split; [reflexivity|split; [exact H1|exact H4]]].
    change (UI.interact Samples.quietWorld (fun _ => "0.5")
              [UI.Type_ "ls"; UI.Press UI.enter UI.idle;
               UI.Render (Scenes.defaultProps 1); UI.Press UI.arrowUp UI.idle]
              (Scenes.mounted (Scenes.defaultProps 0)))
      with (match UI.handleKeyDown Samples.quietWorld (fun _ => "0.5") UI.arrowUp
                    UI.idle (UI.render Samples.quietWorld (Scenes.defaultProps 1) k1)
            with
            | (Normal _, k') => (Normal tt, k')
            | (Throw t, k') => (Throw t, k')
            end).
    now rewrite H6.
Defined.
End FrontEnds.
